(** * RAMSES scene distribution: resource values, resource collection,
      resource resolution and the scene-graph router

    A shallow embedding of
    - [ResourceBase] (the resource value exercised by [ResourceTest.cpp]),
    - [ResourceUtils::GetAllResourcesFromScene] ([ResourceUtils.h]),
    - [ResourceComponent::loadResource] / [resolveResources]
      ([ResourceComponent.cpp]),
    - the receiving and sending paths of [SceneGraphComponent]
      ([SceneGraphComponent.cpp]),
    followed by the properties proved about them.

    Calls on collaborators (renderer handler, communication system, logger,
    resource objects) are recorded as events of a trace, in program order;
    member variables are fields of a state record that every member function
    threads through. *)

From stdpp Require Import base decidable option list sorting numbers
  countable gmap strings.
From Stdlib.Strings Require Import Byte.

Open Scope list_scope.

(** The unit of every blob. *)
Abbreviation bytes := (list Byte.byte).

#[global] Instance byte_eq_decision : EqDecision Byte.byte := Byte.byte_eq_dec.

(* ===================================================================== *)
(** * Part I: data model and operations                                   *)
(* ===================================================================== *)

(* --------------------------------------------------------------------- *)
(** ** Resource content hash                                              *)
(* --------------------------------------------------------------------- *)

(** Modelled from the spec: the header declaring [ResourceContentHash] is
    not part of the sources.  The spec calls it a 128-bit-class digest and
    the tests build one from two 64-bit integers
    ([ResourceContentHash someHash(1234568, 0)]); [Invalid()] is the one
    value no content ever gets, taken here as the all-zero value. *)
Record ResourceContentHash := mkResourceContentHash
  { lowPart : N; highPart : N }.

#[global] Instance ResourceContentHash_eq_dec : EqDecision ResourceContentHash.
Proof. solve_decision. Defined.

Definition ResourceContentHash_Invalid : ResourceContentHash :=
  mkResourceContentHash 0 0.

Definition hash_isValid (h : ResourceContentHash) : bool :=
  bool_decide (h ≠ ResourceContentHash_Invalid).

(** [operator<] on hashes: only its being a strict total order is used by
    [std::sort]; the comparison itself is declared outside the sources. *)
Class HashOrder := {
  hash_lt : relation ResourceContentHash;
  #[global] hash_lt_dec :: RelDecision hash_lt;
  #[global] hash_lt_strict :: StrictOrder hash_lt;
  #[global] hash_lt_trichotomy :: Trichotomy hash_lt;
}.

(* --------------------------------------------------------------------- *)
(** ** Resource values ([ResourceBase])                                   *)
(* --------------------------------------------------------------------- *)

(** [IResource::CompressionLevel], ordered [None < Realtime < Offline]
    (test [ordersCompressionLevelsCorrectly]). *)
Inductive CompressionLevel :=
| CompressionLevel_None
| CompressionLevel_Realtime
| CompressionLevel_Offline.

#[global] Instance CompressionLevel_eq_dec : EqDecision CompressionLevel.
Proof. solve_decision. Defined.

Definition level_rank (l : CompressionLevel) : nat :=
  match l with
  | CompressionLevel_None => 0
  | CompressionLevel_Realtime => 1
  | CompressionLevel_Offline => 2
  end.

Definition level_ltb (a b : CompressionLevel) : bool :=
  (level_rank a <? level_rank b)%nat.
Definition level_le (a b : CompressionLevel) : Prop :=
  (level_rank a ≤ level_rank b)%nat.

#[global] Instance level_le_dec : RelDecision level_le.
Proof. intros a b. unfold level_le. apply _. Defined.

(** [EResourceType]: only the two tags the tests use are named; any other
    tag is carried by its number. *)
Inductive EResourceType :=
| EResourceType_Invalid
| EResourceType_Effect
| EResourceType_Other (tag : N).

#[global] Instance EResourceType_eq_dec : EqDecision EResourceType.
Proof. solve_decision. Defined.

Definition ResourceCacheFlag := N.

(** The block compressor behind [compress]/[decompress] is a third-party
    codec; it enters as an interface.  [codec_decompress c n] inflates [c]
    into a buffer of the declared size [n]. *)
Class CompressionCodec := {
  codec_compress : CompressionLevel → bytes → bytes;
  codec_decompress : bytes → nat → bytes;
}.

(** What the spec promises of the codec: decompression inverts whichever
    level produced the buffer. *)
Class CompressionCodecLaws `{CompressionCodec} := {
  codec_roundtrip : ∀ level x,
    level_le CompressionLevel_Realtime level →
    codec_decompress (codec_compress level x) (length x) = x;
}.

(** The digest behind [getHash]; it sees the type tag, the serialized
    metadata and the decompressed payload, and never the name. *)
Class ContentDigest := {
  digest : EResourceType → bytes → bytes → ResourceContentHash;
}.

(** Modelled from the spec: [ResourceBase] itself ([Resource/ResourceBase.h]
    and its implementation) is not part of the sources, only its test is.
    The record follows section 3 of the spec: a type tag, an optional
    decompressed buffer, an optional compressed buffer with the level that
    produced it, the decompressed size, and the content hash (explicitly
    set, or computed on demand).  [serializedMetadata] is what the virtual
    [serializeResourceMetadataToStream] of the concrete class writes. *)
Record ResourceBase := mkResourceBase {
  typeID : EResourceType;
  cacheFlag : ResourceCacheFlag;
  name : string;
  serializedMetadata : bytes;
  decompressedData : option bytes;
  compressedData : option bytes;
  currentCompression : CompressionLevel;
  decompressedSize : nat;
  explicitHash : option ResourceContentHash;
}.

(** [ResourceBase(typeID, cacheFlag, name)]: no data of either kind. *)
Definition ResourceBase_new (t : EResourceType) (flag : ResourceCacheFlag)
    (nm : string) (meta : bytes) : ResourceBase :=
  {| typeID := t; cacheFlag := flag; name := nm; serializedMetadata := meta;
     decompressedData := None; compressedData := None;
     currentCompression := CompressionLevel_None; decompressedSize := 0%nat;
     explicitHash := None |}.

(** The test's [TestResource]: it serializes no metadata. *)
Definition TestResource (t : EResourceType) (flag : ResourceCacheFlag)
    (nm : string) : ResourceBase :=
  ResourceBase_new t flag nm [].

Definition byte_of_N (n : N) : Byte.byte :=
  match Byte.of_N (n mod 256)%N with Some b => b | None => Byte.x00 end.

(** [output << m_metadata] for a [uint32_t]: its four bytes, low byte
    first. *)
Definition uint32_bytes (n : N) : bytes :=
  [byte_of_N n; byte_of_N (n / 2 ^ 8)%N; byte_of_N (n / 2 ^ 16)%N;
   byte_of_N (n / 2 ^ 24)%N].

(** The test's [DummyResource(metadata, name)]. *)
Definition DummyResource (metadata : N) (nm : string) : ResourceBase :=
  ResourceBase_new EResourceType_Invalid 15%N nm (uint32_bytes metadata).

Definition getName (r : ResourceBase) : string := name r.
Definition getTypeID (r : ResourceBase) : EResourceType := typeID r.
Definition getCacheFlag (r : ResourceBase) : ResourceCacheFlag := cacheFlag r.
Definition getDecompressedDataSize (r : ResourceBase) : nat := decompressedSize r.
Definition getCompressedDataSize (r : ResourceBase) : nat :=
  from_option length 0%nat (compressedData r).
Definition isCompressedAvailable (r : ResourceBase) : bool :=
  bool_decide (is_Some (compressedData r)).
Definition isDeCompressedAvailable (r : ResourceBase) : bool :=
  bool_decide (is_Some (decompressedData r)).
Definition getResourceData (r : ResourceBase) : option bytes := decompressedData r.
Definition getCompressedResourceData (r : ResourceBase) : option bytes :=
  compressedData r.

(** [setResourceData(blob)]: the new payload replaces the old one and
    invalidates a compressed buffer computed from the old one; the hash is
    computed again on demand. *)
Definition setResourceData (blob : bytes) (r : ResourceBase) : ResourceBase :=
  {| typeID := typeID r; cacheFlag := cacheFlag r; name := name r;
     serializedMetadata := serializedMetadata r;
     decompressedData := Some blob; compressedData := None;
     currentCompression := CompressionLevel_None;
     decompressedSize := length blob; explicitHash := None |}.

(** [setResourceData(blob, hash)]: as above, with the hash given. *)
Definition setResourceData_hash (blob : bytes) (h : ResourceContentHash)
    (r : ResourceBase) : ResourceBase :=
  {| typeID := typeID r; cacheFlag := cacheFlag r; name := name r;
     serializedMetadata := serializedMetadata r;
     decompressedData := Some blob; compressedData := None;
     currentCompression := CompressionLevel_None;
     decompressedSize := length blob; explicitHash := Some h |}.

(** [setCompressedResourceData(blob, level, uncompressedSize, hash)]: a
    value received from the network or a file holds only compressed bytes,
    the declared decompressed size and the hash. *)
Definition setCompressedResourceData (blob : bytes) (level : CompressionLevel)
    (uncompressedSize : nat) (h : ResourceContentHash) (r : ResourceBase)
    : ResourceBase :=
  {| typeID := typeID r; cacheFlag := cacheFlag r; name := name r;
     serializedMetadata := serializedMetadata r;
     decompressedData := None; compressedData := Some blob;
     currentCompression := level;
     decompressedSize := uncompressedSize; explicitHash := Some h |}.

(** Payloads of at most this many bytes are never compressed: the tests
    find sizes 1..1000 uncompressed and read a compressed buffer from size
    1001 on. *)
Definition minCompressionBenefitSize : nat := 1000.

Section ResourceBase_ops.
Context `{CompressionCodec} `{ContentDigest}.

(** [compress(level)]: recomputes the compressed buffer when the requested
    level is above the cached one and the payload is worth it; otherwise
    the call returns with the value as it was. *)
Definition compress (level : CompressionLevel) (r : ResourceBase) : ResourceBase :=
  match decompressedData r with
  | Some data =>
      if level_ltb (currentCompression r) level
         && (minCompressionBenefitSize <? length data)%nat
      then {| typeID := typeID r; cacheFlag := cacheFlag r; name := name r;
              serializedMetadata := serializedMetadata r;
              decompressedData := Some data;
              compressedData := Some (codec_compress level data);
              currentCompression := level;
              decompressedSize := decompressedSize r;
              explicitHash := explicitHash r |}
      else r
  | None => r
  end.

(** [decompress()]: nothing to do when the payload is there; otherwise it
    needs a compressed buffer and a known decompressed size, and fails
    ([None]) without them. *)
Definition decompress (r : ResourceBase) : option ResourceBase :=
  match decompressedData r with
  | Some _ => Some r
  | None =>
      match compressedData r with
      | Some c =>
          if (0 <? decompressedSize r)%nat
          then Some {| typeID := typeID r; cacheFlag := cacheFlag r;
                       name := name r;
                       serializedMetadata := serializedMetadata r;
                       decompressedData :=
                         Some (codec_decompress c (decompressedSize r));
                       compressedData := Some c;
                       currentCompression := currentCompression r;
                       decompressedSize := decompressedSize r;
                       explicitHash := explicitHash r |}
          else None
      | None => None
      end
  end.

(** [getHash()]: the hash that was set, else the digest of the content,
    else (no content at all) [Invalid]. *)
Definition getHash (r : ResourceBase) : ResourceContentHash :=
  match explicitHash r with
  | Some h => h
  | None =>
      match decompressedData r with
      | Some data => digest (typeID r) (serializedMetadata r) data
      | None => ResourceContentHash_Invalid
      end
  end.

End ResourceBase_ops.

(** A codec to run the model with: a stored block, one tag byte naming the
    level followed by the payload. *)
Definition stored_tag (level : CompressionLevel) : Byte.byte :=
  match level with
  | CompressionLevel_None => Byte.x00
  | CompressionLevel_Realtime => Byte.x01
  | CompressionLevel_Offline => Byte.x02
  end.

Definition StoredCodec : CompressionCodec :=
  {| codec_compress := λ level x, stored_tag level :: x;
     codec_decompress := λ c n, take n (tail c) |}.

(** A digest to run the model with: the low part from the length and byte
    sum of the payload, the high part from the type tag and the byte sum
    of the metadata, each reduced to 64 bits. *)
Definition byte_sum (l : bytes) : N :=
  foldr (λ b acc, (Byte.to_N b + acc)%N) 0%N l.

Definition type_tag (t : EResourceType) : N :=
  match t with
  | EResourceType_Invalid => 0
  | EResourceType_Effect => 1
  | EResourceType_Other n => (2 + n)%N
  end.

Definition SumDigest : ContentDigest :=
  {| digest := λ t meta payload,
       mkResourceContentHash
         ((1 + N.of_nat (length payload) + byte_sum payload) mod 2 ^ 64)%N
         ((type_tag t + byte_sum meta) mod 2 ^ 64)%N |}.

(* --------------------------------------------------------------------- *)
(** ** Scenes as [ResourceUtils] reads them                               *)
(* --------------------------------------------------------------------- *)

(** Typed handles wrap a 32-bit index.  The handle header is not part of
    the sources; the one index that [isValid()] rejects is taken to be the
    largest 32-bit value. *)
Definition MemoryHandle := N.
Definition InvalidMemoryHandle : MemoryHandle := (2 ^ 32 - 1)%N.
Definition handle_isValid (h : MemoryHandle) : bool :=
  bool_decide (h ≠ InvalidMemoryHandle).

Definition RenderableHandle := MemoryHandle.
Definition DataInstanceHandle := MemoryHandle.
Definition DataLayoutHandle := MemoryHandle.
Definition TextureSamplerHandle := MemoryHandle.
Definition DataSlotHandle := MemoryHandle.
(** [DataFieldHandle] counts the fields of a layout from [0u]. *)
Definition DataFieldHandle := nat.

Inductive EVisibilityMode :=
| EVisibilityMode_Off
| EVisibilityMode_Invisible
| EVisibilityMode_Visible.

#[global] Instance EVisibilityMode_eq_dec : EqDecision EVisibilityMode.
Proof. solve_decision. Defined.

Inductive ERenderableDataSlotType :=
| ERenderableDataSlotType_Geometry
| ERenderableDataSlotType_Uniforms.

(** The field types and the two predicates on them that the collection
    asks; the enumeration is declared outside the sources. *)
Class DataTypes := {
  EDataType : Type;
  IsBufferDataType : EDataType → bool;
  IsTextureSamplerType : EDataType → bool;
}.

Section Scene.
Context `{DataTypes}.

Record Renderable := mkRenderable {
  visibilityMode : EVisibilityMode;
  dataInstances : ERenderableDataSlotType → DataInstanceHandle;
}.

Record DataFieldInfo := mkDataFieldInfo { dataType : EDataType }.

(** A [DataLayout] through its three accessors. *)
Record DataLayout := mkDataLayout {
  getEffectHash : ResourceContentHash;
  getFieldCount : nat;
  getField : DataFieldHandle → DataFieldInfo;
}.

Record ResourceField := mkResourceField { hash : ResourceContentHash }.
Record TextureSampler := mkTextureSampler { textureResource : ResourceContentHash }.
Record DataSlot := mkDataSlot { attachedTexture : ResourceContentHash }.

(** The template parameter [SCENE]: the accessors the collection calls. *)
Record Scene := mkScene {
  getRenderables : list (RenderableHandle * Renderable);
  isDataInstanceAllocated : DataInstanceHandle → bool;
  getLayoutOfDataInstance : DataInstanceHandle → DataLayoutHandle;
  getDataLayout : DataLayoutHandle → DataLayout;
  getDataResource : DataInstanceHandle → DataFieldHandle → ResourceField;
  getDataTextureSamplerHandle :
    DataInstanceHandle → DataFieldHandle → TextureSamplerHandle;
  isTextureSamplerAllocated : TextureSamplerHandle → bool;
  getTextureSampler : TextureSamplerHandle → TextureSampler;
  getDataSlots : list (DataSlotHandle * DataSlot);
}.

(** The lambda [pushBackIfValid]. *)
Definition pushBackIfValid (vec : list ResourceContentHash)
    (h : ResourceContentHash) : list ResourceContentHash :=
  if hash_isValid h then vec ++ [h] else vec.

(** Body of the loop over the fields of one data instance. *)
Definition GetAllResourcesFromScene_field (scene : Scene)
    (instanceHandle : DataInstanceHandle) (layout : DataLayout)
    (resources : list ResourceContentHash) (fieldHandle : DataFieldHandle)
    : list ResourceContentHash :=
  let fieldType := dataType (getField layout fieldHandle) in
  if IsBufferDataType fieldType then
    pushBackIfValid resources (hash (getDataResource scene instanceHandle fieldHandle))
  else if IsTextureSamplerType fieldType then
    let samplerHandle := getDataTextureSamplerHandle scene instanceHandle fieldHandle in
    if handle_isValid samplerHandle && isTextureSamplerAllocated scene samplerHandle
    then pushBackIfValid resources
           (textureResource (getTextureSampler scene samplerHandle))
    else resources
  else resources.

(** Body of the loop over the two data slots of a renderable. *)
Definition GetAllResourcesFromScene_instance (scene : Scene)
    (renderable : Renderable) (resources : list ResourceContentHash)
    (type : ERenderableDataSlotType) : list ResourceContentHash :=
  let instanceHandle := dataInstances renderable type in
  if negb (handle_isValid instanceHandle)
     || negb (isDataInstanceAllocated scene instanceHandle)
  then resources
  else
    let layout := getDataLayout scene (getLayoutOfDataInstance scene instanceHandle) in
    let resources := pushBackIfValid resources (getEffectHash layout) in
    foldl (GetAllResourcesFromScene_field scene instanceHandle layout)
      resources (seq 0 (getFieldCount layout)).

(** Body of the loop over the renderables. *)
Definition GetAllResourcesFromScene_renderable (scene : Scene)
    (resources : list ResourceContentHash)
    (rendIt : RenderableHandle * Renderable) : list ResourceContentHash :=
  let renderable := rendIt.2 in
  if decide (visibilityMode renderable = EVisibilityMode_Off) then resources
  else foldl (GetAllResourcesFromScene_instance scene renderable) resources
         [ERenderableDataSlotType_Geometry; ERenderableDataSlotType_Uniforms].

(** [std::unique] followed by [erase]: of every run of equal neighbours
    the first is kept. *)
Fixpoint std_unique_from (last : ResourceContentHash)
    (l : list ResourceContentHash) : list ResourceContentHash :=
  match l with
  | [] => []
  | y :: l' =>
      if decide (last = y) then std_unique_from last l'
      else y :: std_unique_from y l'
  end.

Definition std_unique (l : list ResourceContentHash) : list ResourceContentHash :=
  match l with
  | [] => []
  | x :: l' => x :: std_unique_from x l'
  end.

Section sorting.
Context `{HashOrder}.

(** [a] goes before [b] in sorted order unless [b < a]. *)
Definition hash_le (a b : ResourceContentHash) : Prop := ¬ hash_lt b a.

#[global] Instance hash_le_dec : RelDecision hash_le.
Proof. intros a b. unfold hash_le. apply _. Defined.

(** [std::sort] with [operator<]: for a strict total order the sorted
    arrangement is unique, so any sorting algorithm stands for it. *)
Definition std_sort (l : list ResourceContentHash) : list ResourceContentHash :=
  merge_sort hash_le l.

(** The hashes as pushed, before sorting. *)
Definition GetAllResourcesFromScene_collected (scene : Scene)
    : list ResourceContentHash :=
  let resources :=
    foldl (GetAllResourcesFromScene_renderable scene) [] (getRenderables scene) in
  foldl (λ resources dataSlotIt,
           pushBackIfValid resources (attachedTexture dataSlotIt.2))
    resources (getDataSlots scene).

(** [ResourceUtils::GetAllResourcesFromScene], the filled vector as its
    result (the function asserts that it starts empty). *)
Definition GetAllResourcesFromScene (scene : Scene) : list ResourceContentHash :=
  std_unique (std_sort (GetAllResourcesFromScene_collected scene)).

End sorting.

(** What one field of a data instance references: the resource of a
    buffer field, or the texture of the allocated sampler of a sampler
    field. *)
Definition field_references (scene : Scene) (instanceHandle : DataInstanceHandle)
    (layout : DataLayout) (fieldHandle : DataFieldHandle)
    (h : ResourceContentHash) : Prop :=
  let fieldType := dataType (getField layout fieldHandle) in
  (IsBufferDataType fieldType = true
   ∧ h = hash (getDataResource scene instanceHandle fieldHandle))
  ∨ (IsBufferDataType fieldType = false
     ∧ IsTextureSamplerType fieldType = true
     ∧ let samplerHandle :=
         getDataTextureSamplerHandle scene instanceHandle fieldHandle in
       handle_isValid samplerHandle = true
       ∧ isTextureSamplerAllocated scene samplerHandle = true
       ∧ h = textureResource (getTextureSampler scene samplerHandle)).

(** What a data instance references: the effect of its layout and what
    the fields of the layout reference. *)
Definition instance_references (scene : Scene)
    (instanceHandle : DataInstanceHandle) (h : ResourceContentHash) : Prop :=
  let layout := getDataLayout scene (getLayoutOfDataInstance scene instanceHandle) in
  h = getEffectHash layout
  ∨ ∃ fieldHandle : DataFieldHandle,
      fieldHandle < getFieldCount layout
      ∧ field_references scene instanceHandle layout fieldHandle h.

(** What a renderable references: what its allocated data instances
    reference. *)
Definition renderable_references (scene : Scene) (renderable : Renderable)
    (h : ResourceContentHash) : Prop :=
  ∃ type : ERenderableDataSlotType,
    let instanceHandle := dataInstances renderable type in
    handle_isValid instanceHandle = true
    ∧ isDataInstanceAllocated scene instanceHandle = true
    ∧ instance_references scene instanceHandle h.

(** Referenced by a renderable that is not switched off. *)
Definition referenced_by_active_renderable (scene : Scene)
    (h : ResourceContentHash) : Prop :=
  ∃ rendIt, rendIt ∈ getRenderables scene
            ∧ visibilityMode rendIt.2 ≠ EVisibilityMode_Off
            ∧ renderable_references scene rendIt.2 h.

(** Attached to a data slot. *)
Definition referenced_by_data_slot (scene : Scene)
    (h : ResourceContentHash) : Prop :=
  ∃ dataSlotIt, dataSlotIt ∈ getDataSlots scene
                ∧ attachedTexture dataSlotIt.2 = h.

(** Referenced by renderables, all of which are switched off, and by
    nothing else. *)
Definition referenced_only_by_off_renderables (scene : Scene)
    (h : ResourceContentHash) : Prop :=
  (∃ rendIt, rendIt ∈ getRenderables scene
             ∧ renderable_references scene rendIt.2 h)
  ∧ (∀ rendIt, rendIt ∈ getRenderables scene →
               renderable_references scene rendIt.2 h →
               visibilityMode rendIt.2 = EVisibilityMode_Off)
  ∧ ¬ referenced_by_data_slot scene h.

End Scene.

(* --------------------------------------------------------------------- *)
(** ** Member functions with effects                                      *)
(* --------------------------------------------------------------------- *)

(** A member function reads and writes the members of its object ([S]) and
    calls collaborators; each such call is recorded as an event ([E]), in
    program order. *)
Definition M (S E A : Type) : Type := S → A * S * list E.

Definition mret {S E A} (a : A) : M S E A := λ st, (a, st, []).

Definition mbind {S E A B} (m : M S E A) (f : A → M S E B) : M S E B :=
  λ st, let '(a, st1, t1) := m st in
        let '(b, st2, t2) := f a st1 in
        (b, st2, t1 ++ t2).

Definition getState {S E} : M S E S := λ st, (st, st, []).
Definition modifyState {S E} (f : S → S) : M S E unit := λ st, (tt, f st, []).
Definition emit {S E} (e : E) : M S E unit := λ st, (tt, st, [e]).

Notation "'let*' x ':=' m 'in' k" := (mbind m (λ x, k))
  (at level 10, x binder, m at level 200, k at level 200, only parsing).
Notation "'do*' m 'in' k" := (mbind m (λ _, k))
  (at level 10, m at level 200, k at level 200, only parsing).

(** The three components of a run. *)
Definition result_of {S E A} (m : M S E A) (st : S) : A := (m st).1.1.
Definition state_after {S E A} (m : M S E A) (st : S) : S := (m st).1.2.
Definition trace_of {S E A} (m : M S E A) (st : S) : list E := (m st).2.

Definition when {S E} (b : bool) (m : M S E unit) : M S E unit :=
  if b then m else mret tt.

(** [for (const auto& x : l) body(x);] *)
Fixpoint forEach {S E A} (l : list A) (body : A → M S E unit) : M S E unit :=
  match l with
  | [] => mret tt
  | x :: l' => do* body x in forEach l' body
  end.

(** [assert(condition)]: a failed assertion ends the run.  A member
    function that asserts has a result that tells whether the call
    returned ([Some tt]) or was ended by the assertion ([None]); the state
    and the events are then those up to the assertion.  A loop whose body
    was ended is ended with it. *)
Fixpoint forEachAsserting {S E A} (l : list A) (body : A → M S E (option unit))
    : M S E (option unit) :=
  match l with
  | [] => mret (Some tt)
  | x :: l' =>
      let* returned := body x in
      match returned with
      | Some _ => forEachAsserting l' body
      | None => mret None
      end
  end.

(** A loop that also updates local variables ([B]). *)
Fixpoint forEachWith {S E A B} (l : list A) (locals : B)
    (body : B → A → M S E B) : M S E B :=
  match l with
  | [] => mret locals
  | x :: l' => let* locals' := body locals x in forEachWith l' locals' body
  end.

(* --------------------------------------------------------------------- *)
(** ** [SceneGraphComponent]                                              *)
(* --------------------------------------------------------------------- *)

(** [SceneId] is a [StronglyTypedValue] over a 64-bit integer. *)
Record SceneId := mkSceneId { getValue : N }.

#[global] Instance SceneId_eq_dec : EqDecision SceneId.
Proof. solve_decision. Defined.

#[global] Instance SceneId_countable : Countable SceneId :=
  inj_countable' getValue mkSceneId (λ s, match s with mkSceneId _ => eq_refl end).

(** Participants and feature levels are only ever compared. *)
Definition Guid := N.
Definition EFeatureLevel := N.

Inductive EScenePublicationMode :=
| EScenePublicationMode_LocalOnly
| EScenePublicationMode_LocalAndRemote.

#[global] Instance EScenePublicationMode_eq_dec : EqDecision EScenePublicationMode.
Proof. solve_decision. Defined.

Record SceneInfo := mkSceneInfo {
  sceneID : SceneId;
  friendlyName : string;
  publicationMode : EScenePublicationMode;
}.

#[global] Instance SceneInfo_eq_dec : EqDecision SceneInfo.
Proof. solve_decision. Defined.

(** [IResource] as the router uses it: something [compress] can be called
    on. *)
Class IResource := {
  Resource : Type;
  resource_compress : CompressionLevel → Resource → Resource;
}.

(** The resource values of this file are such resources. *)
Definition ResourceBase_IResource `{CompressionCodec} : IResource :=
  {| Resource := ResourceBase; resource_compress := compress |}.

(** [SceneUpdateStreamDeserializer::ResultType]. *)
Inductive ResultType :=
| ResultType_Empty
| ResultType_Failed
| ResultType_HasData.

(** The update stream codec, declared outside the sources: the types of
    the scene actions and flush information it carries, the decoder with
    its constructor and [processData], which consumes bytes, moves the
    decoder on and returns a result. *)
Class UpdateStreamCodec `{IResource} := {
  SceneActionCollection : Type;
  FlushInformation : Type;
  SceneUpdateStreamDeserializer : Type;
  SceneUpdateStreamDeserializer_new : EFeatureLevel → SceneUpdateStreamDeserializer;
  processData :
    SceneUpdateStreamDeserializer → bytes →
    SceneUpdateStreamDeserializer
    * (ResultType * SceneActionCollection * list Resource * FlushInformation);
}.

Section SceneGraphComponent.
Context `{iresource : IResource} `{codec : !UpdateStreamCodec}.

Record SceneUpdate := mkSceneUpdate {
  actions : SceneActionCollection;
  resources : list Resource;
  flushInfos : FlushInformation;
}.

(** [SceneUpdateSerializer(sceneUpdate, sceneStatistics, featureLevel)]:
    what the communication system is handed to put on the wire. *)
Record SceneUpdateSerializer := mkSceneUpdateSerializer {
  serializer_sceneUpdate : SceneUpdate;
  serializer_featureLevel : EFeatureLevel;
}.

(** [ReceivedScene]: an entry of [m_remoteScenes]; the decoder pointer is
    null until the scene is initialized. *)
Record ReceivedScene := mkReceivedScene {
  info : SceneInfo;
  provider : Guid;
  sceneUpdateDeserializer : option SceneUpdateStreamDeserializer;
}.

Inductive ELogLevel := LogLevel_Info | LogLevel_Warn | LogLevel_Error.

(** The log statements of the modelled functions, by what they report. *)
Inductive LogMessage :=
| Log_handleInitializeScene_noRenderer
| Log_handleInitializeScene
| Log_handleInitializeScene_unknownScene
| Log_handleInitializeScene_unexpectedProvider
| Log_handleSceneUpdate_noRenderer
| Log_handleSceneUpdate_unknownScene
| Log_handleSceneUpdate_unexpectedProvider
| Log_handleSceneUpdate_dataIsEmpty
| Log_handleSceneUpdate_notInitialized
| Log_handleSceneUpdate_deserializationFailed
| Log_handleNewScenesAvailable
| Log_handleNewScenesAvailable_duplicatePublishWillUnpublishFirst
| Log_handleNewScenesAvailable_scenePublished
| Log_handleNewScenesAvailable_mismatchedFeatureLevel
| Log_handleNewScenesAvailable_ignoreDuplicateScene
| Log_handleScenesBecameUnavailable
| Log_handleScenesBecameUnavailable_unknownScene.

(** Calls on the renderer handler, the communication system, the logger
    and the resources of an update. *)
Inductive Event :=
| Log (level : ELogLevel) (message : LogMessage) (sceneId : SceneId) (providerID : Guid)
| RendererHandler_handleNewSceneAvailable (newScene : SceneInfo) (providerID : Guid)
| RendererHandler_handleSceneBecameUnavailable (sceneId : SceneId) (providerID : Guid)
| RendererHandler_handleInitializeScene (sceneInfo : SceneInfo) (providerID : Guid)
| RendererHandler_handleSceneUpdate
    (sceneId : SceneId) (sceneUpdate : SceneUpdate) (providerID : Guid)
| CommunicationSystem_sendSceneUpdate
    (to : Guid) (sceneId : SceneId) (serializer : SceneUpdateSerializer)
| Resource_compress (index : nat) (level : CompressionLevel).

(** The members the modelled functions touch.  [m_sceneRendererHandler]
    is a pointer that is null or not; the calls made through it are
    events. *)
Record SceneGraphComponent := mkSceneGraphComponent {
  m_sceneRendererHandler : bool;
  m_myID : Guid;
  m_featureLevel : EFeatureLevel;
  m_connected : bool;
  m_locallyPublishedScenes : gmap SceneId SceneInfo;
  m_remoteScenes : gmap SceneId ReceivedScene;
}.

Definition set_remoteScenes (f : gmap SceneId ReceivedScene → gmap SceneId ReceivedScene)
    (c : SceneGraphComponent) : SceneGraphComponent :=
  {| m_sceneRendererHandler := m_sceneRendererHandler c;
     m_myID := m_myID c;
     m_featureLevel := m_featureLevel c;
     m_connected := m_connected c;
     m_locallyPublishedScenes := m_locallyPublishedScenes c;
     m_remoteScenes := f (m_remoteScenes c) |}.

Abbreviation SGC := (M SceneGraphComponent Event).

(** An update after [compress(Realtime)] was called on each of its
    resources.  The resources are shared objects, so whoever holds the
    update sees the compressed ones. *)
Definition compressedUpdate (sceneUpdate : SceneUpdate) : SceneUpdate :=
  {| actions := actions sceneUpdate;
     resources := resource_compress CompressionLevel_Realtime
                    <$> resources sceneUpdate;
     flushInfos := flushInfos sceneUpdate |}.

(** The inner loop of [sendSceneUpdate]:
    [for (auto& resource : sceneUpdate.resources) resource->compress(Realtime);] *)
Definition compressResources (sceneUpdate : SceneUpdate) : SGC SceneUpdate :=
  do* forEach (seq 0 (length (resources sceneUpdate)))
        (λ index, emit (Resource_compress index CompressionLevel_Realtime)) in
  mret (compressedUpdate sceneUpdate).

(** The body of the loop of [sendSceneUpdate] over [toVec]; the locals are
    [sendToSelf], [alreadyCompressed] and the update. *)
Definition sendSceneUpdate_to (sceneId : SceneId)
    (locals : bool * bool * SceneUpdate) (to : Guid)
    : SGC (bool * bool * SceneUpdate) :=
  let '(sendToSelf, alreadyCompressed, sceneUpdate) := locals in
  let* this := getState in
  if decide (m_myID this = to) then
    mret (true, alreadyCompressed, sceneUpdate)
  else
    let* sceneUpdate :=
      (if alreadyCompressed then mret sceneUpdate
       else compressResources sceneUpdate) in
    do* emit (CommunicationSystem_sendSceneUpdate to sceneId
                (mkSceneUpdateSerializer sceneUpdate (m_featureLevel this))) in
    mret (sendToSelf, true, sceneUpdate).

(** [SceneGraphComponent::sendSceneUpdate]. *)
Definition sendSceneUpdate (toVec : list Guid) (sceneUpdate : SceneUpdate)
    (sceneId : SceneId) : SGC unit :=
  let* locals := forEachWith toVec (false, false, sceneUpdate)
                   (sendSceneUpdate_to sceneId) in
  let '(sendToSelf, _, sceneUpdate) := locals in
  let* this := getState in
  when (sendToSelf && m_sceneRendererHandler this)
    (emit (RendererHandler_handleSceneUpdate sceneId sceneUpdate (m_myID this))).

(** One pass of [compress(Realtime)] over the resources of an update, as
    events. *)
Definition compressionPass (sceneUpdate : SceneUpdate) : list Event :=
  (λ index, Resource_compress index CompressionLevel_Realtime)
    <$> seq 0 (length (resources sceneUpdate)).

Definition is_Resource_compress (e : Event) : bool :=
  match e with Resource_compress _ _ => true | _ => false end.

Definition is_CommunicationSystem_call (e : Event) : bool :=
  match e with CommunicationSystem_sendSceneUpdate _ _ _ => true | _ => false end.

(** The destinations other than the local participant, in order. *)
Definition remoteDestinations (this : SceneGraphComponent) (toVec : list Guid)
    : list Guid :=
  filter (λ to, m_myID this ≠ to) toVec.

(** What the network is handed for one remote destination. *)
Definition sendTo (this : SceneGraphComponent) (sceneId : SceneId)
    (sceneUpdate : SceneUpdate) (to : Guid) : Event :=
  CommunicationSystem_sendSceneUpdate to sceneId
    (mkSceneUpdateSerializer sceneUpdate (m_featureLevel this)).

(** The members other than the table of remote scenes. *)
Definition same_apart_from_remoteScenes (this this' : SceneGraphComponent) : Prop :=
  m_sceneRendererHandler this' = m_sceneRendererHandler this
  ∧ m_myID this' = m_myID this
  ∧ m_featureLevel this' = m_featureLevel this
  ∧ m_connected this' = m_connected this
  ∧ m_locallyPublishedScenes this' = m_locallyPublishedScenes this.

(** [SceneGraphComponent::handleInitializeScene]. *)
Definition handleInitializeScene (sceneId : SceneId) (providerID : Guid) : SGC unit :=
  let* this := getState in
  if negb (m_sceneRendererHandler this) then
    emit (Log LogLevel_Warn Log_handleInitializeScene_noRenderer sceneId providerID)
  else
    do* emit (Log LogLevel_Info Log_handleInitializeScene sceneId providerID) in
    match m_remoteScenes this !! sceneId with
    | None =>
        emit (Log LogLevel_Warn Log_handleInitializeScene_unknownScene
                sceneId providerID)
    | Some it =>
        if decide (provider it ≠ providerID) then
          emit (Log LogLevel_Warn Log_handleInitializeScene_unexpectedProvider
                  sceneId providerID)
        else
          do* modifyState (set_remoteScenes
                (<[sceneId := {| info := info it; provider := provider it;
                                 sceneUpdateDeserializer :=
                                   Some (SceneUpdateStreamDeserializer_new
                                           (m_featureLevel this)) |}]>)) in
          emit (RendererHandler_handleInitializeScene (info it) providerID)
    end.

(** [SceneGraphComponent::handleSceneUpdate]. *)
Definition handleSceneUpdate (sceneId : SceneId) (actionData : bytes)
    (providerID : Guid) : SGC unit :=
  let* this := getState in
  if negb (m_sceneRendererHandler this) then
    emit (Log LogLevel_Warn Log_handleSceneUpdate_noRenderer sceneId providerID)
  else
    match m_remoteScenes this !! sceneId with
    | None =>
        emit (Log LogLevel_Warn Log_handleSceneUpdate_unknownScene sceneId providerID)
    | Some it =>
        if decide (provider it ≠ providerID) then
          emit (Log LogLevel_Warn Log_handleSceneUpdate_unexpectedProvider
                  sceneId providerID)
        else if decide (actionData = []) then
          emit (Log LogLevel_Warn Log_handleSceneUpdate_dataIsEmpty sceneId providerID)
        else
          match sceneUpdateDeserializer it with
          | None =>
              emit (Log LogLevel_Warn Log_handleSceneUpdate_notInitialized
                      sceneId providerID)
          | Some deserializer =>
              let '(deserializer', (result, result_actions, result_resources,
                                     result_flushInfos)) :=
                processData deserializer actionData in
              do* modifyState (set_remoteScenes
                    (<[sceneId := {| info := info it; provider := provider it;
                                     sceneUpdateDeserializer :=
                                       Some deserializer' |}]>)) in
              match result with
              | ResultType_Empty => mret tt
              | ResultType_Failed =>
                  emit (Log LogLevel_Error Log_handleSceneUpdate_deserializationFailed
                          sceneId providerID)
              | ResultType_HasData =>
                  emit (RendererHandler_handleSceneUpdate sceneId
                          {| actions := result_actions;
                             resources := result_resources;
                             flushInfos := result_flushInfos |}
                          providerID)
              end
          end
    end.

(** The body of the loop of [handleNewScenesAvailable].  A scene that is
    accepted is asserted to be published [LocalAndRemote], after its
    entry is written and before the renderer handler is told. *)
Definition handleNewScenesAvailable_scene (providerID : Guid)
    (featureLevel : EFeatureLevel) (newScene : SceneInfo) : SGC (option unit) :=
  do* emit (Log LogLevel_Info Log_handleNewScenesAvailable
              (sceneID newScene) providerID) in
  let* this := getState in
  do* (match m_remoteScenes this !! sceneID newScene with
       | Some existingSceneIt =>
           if decide (provider existingSceneIt = providerID) then
             do* emit (Log LogLevel_Warn
                     Log_handleNewScenesAvailable_duplicatePublishWillUnpublishFirst
                     (sceneID newScene) providerID) in
             do* when (m_sceneRendererHandler this)
                   (emit (RendererHandler_handleSceneBecameUnavailable
                            (sceneID newScene) providerID)) in
             modifyState (set_remoteScenes (delete (sceneID newScene)))
           else mret tt
       | None => mret tt
       end) in
  let* this := getState in
  match m_remoteScenes this !! sceneID newScene with
  | None =>
      if decide (featureLevel = m_featureLevel this) then
        do* emit (Log LogLevel_Info Log_handleNewScenesAvailable_scenePublished
                    (sceneID newScene) providerID) in
        do* modifyState (set_remoteScenes
              (<[sceneID newScene := {| info := newScene; provider := providerID;
                                        sceneUpdateDeserializer := None |}]>)) in
        if decide (publicationMode newScene = EScenePublicationMode_LocalAndRemote)
        then
          do* when (m_sceneRendererHandler this)
                (emit (RendererHandler_handleNewSceneAvailable newScene
                         providerID)) in
          mret (Some tt)
        else mret None
      else
        do* emit (Log LogLevel_Warn
                    Log_handleNewScenesAvailable_mismatchedFeatureLevel
                    (sceneID newScene) providerID) in
        mret (Some tt)
  | Some _ =>
      do* emit (Log LogLevel_Warn Log_handleNewScenesAvailable_ignoreDuplicateScene
                  (sceneID newScene) providerID) in
      mret (Some tt)
  end.

(** [SceneGraphComponent::handleNewScenesAvailable]. *)
Definition handleNewScenesAvailable (newScenes : list SceneInfo)
    (providerID : Guid) (featureLevel : EFeatureLevel) : SGC (option unit) :=
  forEachAsserting newScenes
    (handleNewScenesAvailable_scene providerID featureLevel).

(** The body of the loop of [handleScenesBecameUnavailable]. *)
Definition handleScenesBecameUnavailable_scene (providerID : Guid)
    (scene : SceneInfo) : SGC unit :=
  do* emit (Log LogLevel_Info Log_handleScenesBecameUnavailable
              (sceneID scene) providerID) in
  let* this := getState in
  match m_remoteScenes this !! sceneID scene with
  | Some _ =>
      do* when (m_sceneRendererHandler this)
            (emit (RendererHandler_handleSceneBecameUnavailable
                     (sceneID scene) providerID)) in
      modifyState (set_remoteScenes (delete (sceneID scene)))
  | None =>
      emit (Log LogLevel_Warn Log_handleScenesBecameUnavailable_unknownScene
              (sceneID scene) providerID)
  end.

(** [SceneGraphComponent::handleScenesBecameUnavailable]. *)
Definition handleScenesBecameUnavailable (unavailableScenes : list SceneInfo)
    (providerID : Guid) : SGC unit :=
  forEach unavailableScenes (handleScenesBecameUnavailable_scene providerID).

(** The ways in which [handleSceneUpdate] finds nothing to decode. *)
Definition update_unexpected (this : SceneGraphComponent) (sceneId : SceneId)
    (actionData : bytes) (providerID : Guid) : Prop :=
  m_sceneRendererHandler this = false
  ∨ m_remoteScenes this !! sceneId = None
  ∨ ∃ it, m_remoteScenes this !! sceneId = Some it
          ∧ (provider it ≠ providerID
             ∨ actionData = []
             ∨ sceneUpdateDeserializer it = None).

End SceneGraphComponent.

(** The calls on the renderer handler among the events. *)
Definition is_RendererHandler_call `{IResource} `{!UpdateStreamCodec}
    (e : Event) : bool :=
  match e with
  | RendererHandler_handleNewSceneAvailable _ _
  | RendererHandler_handleSceneBecameUnavailable _ _
  | RendererHandler_handleInitializeScene _ _
  | RendererHandler_handleSceneUpdate _ _ _ => true
  | _ => false
  end.

(** A decoder to run the router with.  Of section 4.3 of the spec it keeps
    the three results and that [Failed] is sticky: a delivery is one
    record, discriminant [0x01] followed by the scene actions; any other
    discriminant is a framing failure, after which every delivery
    fails. *)
Definition FramedCodec `{IResource} : UpdateStreamCodec :=
  {| SceneActionCollection := bytes;
     FlushInformation := unit;
     SceneUpdateStreamDeserializer := bool;
     SceneUpdateStreamDeserializer_new := λ _, false;
     processData := λ (failed : bool) (data : bytes),
       if failed then (true, (ResultType_Failed, [], [], tt))
       else match data with
            | [] => (false, (ResultType_Empty, [], [], tt))
            | Byte.x01 :: payload => (false, (ResultType_HasData, payload, [], tt))
            | _ => (true, (ResultType_Failed, [], [], tt))
            end |}.

(** A router to run the examples on: participant 1 at feature level 1,
    with a renderer, tracking scene 7 of participant 2 with an initialized
    decoder. *)
Definition exampleScene : SceneInfo :=
  mkSceneInfo (mkSceneId 7) "scene" EScenePublicationMode_LocalAndRemote.

#[local] Instance example_IResource : IResource :=
  @ResourceBase_IResource StoredCodec.
#[local] Instance example_UpdateStreamCodec : UpdateStreamCodec := FramedCodec.

Definition exampleTracked : ReceivedScene :=
  {| info := exampleScene; provider := 2%N;
     sceneUpdateDeserializer := Some false |}.

Definition exampleRouter : SceneGraphComponent :=
  {| m_sceneRendererHandler := true;
     m_myID := 1%N;
     m_featureLevel := 1%N;
     m_connected := true;
     m_locallyPublishedScenes := ∅;
     m_remoteScenes := {[ mkSceneId 7 := exampleTracked ]} |}.

(* --------------------------------------------------------------------- *)
(** ** [ResourceComponent]                                                *)
(* --------------------------------------------------------------------- *)

Module ResourceComponent.

Record ResourceInfo := mkResourceInfo {
  type : EResourceType;
  hash : ResourceContentHash;
}.

Record ResourceFileEntry := mkResourceFileEntry {
  offsetInBytes : N;
  sizeInBytes : N;
  resourceInfo : ResourceInfo;
}.

Definition SceneFileHandle := N.

(** How [ResourcePersistation::RetrieveResourceFromStream] can end: with a
    resource, with a null pointer, or by throwing a [std::exception]. *)
Inductive RetrieveResult (R : Type) :=
| Retrieved (lowLevelResource : R)
| RetrievedNull
| RetrieveThrew (what : string).
Arguments Retrieved {R} _.
Arguments RetrievedNull {R}.
Arguments RetrieveThrew {R} _.

(** The collaborators of the component, declared outside the sources: the
    resource storage, the registry of resource files with their input
    streams, and the reader of one resource from a stream.  A
    [ManagedResource] here is a handle that is not null; a null one is
    [None].  Reading moves the stream, which the registry owns. *)
Class ResourceBackend := {
  ResourceStorage : Type;
  ResourceFilesRegistry : Type;
  IInputStream : Type;
  IResourcePtr : Type;
  ManagedResource : Type;
  storage_getResource :
    ResourceStorage → ResourceContentHash → ResourceStorage * option ManagedResource;
  storage_manageResource :
    ResourceStorage → IResourcePtr → bool → ResourceStorage * option ManagedResource;
  files_getEntry :
    ResourceFilesRegistry → ResourceContentHash →
    option (IInputStream * ResourceFileEntry * SceneFileHandle);
  RetrieveResourceFromStream :
    ResourceFilesRegistry → IInputStream → ResourceFileEntry → EFeatureLevel →
    ResourceFilesRegistry * RetrieveResult IResourcePtr;
}.

Section ResourceComponent.
Context `{backend : ResourceBackend}.

(** The two counters of [StatisticCollectionFramework] that loading
    touches. *)
Record StatisticCollectionFramework := mkStatistics {
  statResourcesLoadedFromFileNumber : N;
  statResourcesLoadedFromFileSize : N;
}.

Record Members := mkMembers {
  m_resourceStorage : ResourceStorage;
  m_resourceFiles : ResourceFilesRegistry;
  m_statistics : StatisticCollectionFramework;
  m_featureLevel : EFeatureLevel;
}.

(** The error logs of the two modelled functions. *)
Inductive Event :=
| Log_loadResource_exception
    (what : string) (entry : ResourceFileEntry) (fileHandle : SceneFileHandle)
| Log_loadResource_noResource
    (entry : ResourceFileEntry) (fileHandle : SceneFileHandle)
| Log_resolveResources_failed (failed : list ResourceContentHash).

Abbreviation RC := (M Members Event).

Definition set_resourceStorage (storage : ResourceStorage) (c : Members) : Members :=
  {| m_resourceStorage := storage; m_resourceFiles := m_resourceFiles c;
     m_statistics := m_statistics c; m_featureLevel := m_featureLevel c |}.

Definition set_resourceFiles (files : ResourceFilesRegistry) (c : Members) : Members :=
  {| m_resourceStorage := m_resourceStorage c; m_resourceFiles := files;
     m_statistics := m_statistics c; m_featureLevel := m_featureLevel c |}.

(** The two [incCounter] calls after a successful load. *)
Definition countLoaded (size : N) (c : Members) : Members :=
  {| m_resourceStorage := m_resourceStorage c;
     m_resourceFiles := m_resourceFiles c;
     m_statistics :=
       {| statResourcesLoadedFromFileNumber :=
            (statResourcesLoadedFromFileNumber (m_statistics c) + 1)%N;
          statResourcesLoadedFromFileSize :=
            (statResourcesLoadedFromFileSize (m_statistics c) + size)%N |};
     m_featureLevel := m_featureLevel c |}.

(** [ResourceComponent::getResource]. *)
Definition getResource (h : ResourceContentHash) : RC (option ManagedResource) :=
  let* this := getState in
  let '(storage, mr) := storage_getResource (m_resourceStorage this) h in
  do* modifyState (set_resourceStorage storage) in
  mret mr.

(** [ResourceComponent::loadResource].  The stream position and state that
    the error logs also print are read-only queries and left out. *)
Definition loadResource (h : ResourceContentHash) : RC (option ManagedResource) :=
  let* this := getState in
  match files_getEntry (m_resourceFiles this) h with
  | None => mret None
  | Some (resourceStream, entry, fileHandle) =>
      let '(files, retrieved) :=
        RetrieveResourceFromStream (m_resourceFiles this) resourceStream entry
          (m_featureLevel this) in
      do* modifyState (set_resourceFiles files) in
      match retrieved with
      | RetrieveThrew what =>
          do* emit (Log_loadResource_exception what entry fileHandle) in
          mret None
      | RetrievedNull =>
          do* emit (Log_loadResource_noResource entry fileHandle) in
          mret None
      | Retrieved lowLevelResource =>
          do* modifyState (countLoaded (sizeInBytes entry)) in
          let* this := getState in
          let '(storage, mr) :=
            storage_manageResource (m_resourceStorage this) lowLevelResource true in
          do* modifyState (set_resourceStorage storage) in
          mret mr
      end
  end.

(** The first statements of the loop body of [resolveResources]: the
    cached resource, else the one loaded from a file. *)
Definition resolveResources_hash (h : ResourceContentHash)
    : RC (option ManagedResource) :=
  let* mr := getResource h in
  match mr with
  | Some _ => mret mr
  | None => loadResource h
  end.

(** [ResourceComponent::resolveResources]; the loop carries the locals
    [result] and [failed]. *)
Definition resolveResources (hashes : list ResourceContentHash)
    : RC (list ManagedResource) :=
  let* locals :=
    forEachWith hashes ([], [])
      (λ '(result, failed) h,
         let* mr := resolveResources_hash h in
         match mr with
         | Some mr => mret (result ++ [mr], failed)
         | None => mret (result, failed ++ [h])
         end) in
  let '(result, failed) := locals in
  do* when (bool_decide (failed ≠ []))
        (emit (Log_resolveResources_failed failed)) in
  mret result.

(** Every hash of a batch with what resolving it yields, each on the state
    its predecessors left. *)
Fixpoint resolveEach (hashes : list ResourceContentHash)
    : RC (list (ResourceContentHash * option ManagedResource)) :=
  match hashes with
  | [] => mret []
  | h :: hashes' =>
      let* mr := resolveResources_hash h in
      let* outcomes := resolveEach hashes' in
      mret ((h, mr) :: outcomes)
  end.

(** The handles among the outcomes, and the hashes that got none. *)
Definition resolvedOf (outcomes : list (ResourceContentHash * option ManagedResource))
    : list ManagedResource :=
  omap snd outcomes.

Definition failedOf (outcomes : list (ResourceContentHash * option ManagedResource))
    : list ResourceContentHash :=
  omap (λ o, match o.2 with Some _ => None | None => Some o.1 end) outcomes.

(** Following the claim: what resolving a batch comes to, said with the
    collaborators alone, to compare [resolveResources] with.  A
    file-backed load of [h]: without an entry in the file registry nothing
    is read and there is no handle; a read that throws or gives no
    resource is logged and gives no handle; a resource that was read is
    counted and handed to the storage, whose handle is the result. *)
Definition spec_fileBackedLoad (h : ResourceContentHash) (this : Members)
    : option ManagedResource * Members * list Event :=
  match files_getEntry (m_resourceFiles this) h with
  | None => (None, this, [])
  | Some (resourceStream, entry, fileHandle) =>
      let read :=
        RetrieveResourceFromStream (m_resourceFiles this) resourceStream entry
          (m_featureLevel this) in
      match read.2 with
      | Retrieved lowLevelResource =>
          let managed :=
            storage_manageResource (m_resourceStorage this)
              lowLevelResource true in
          (managed.2,
           {| m_resourceStorage := managed.1;
              m_resourceFiles := read.1;
              m_statistics :=
                {| statResourcesLoadedFromFileNumber :=
                     (statResourcesLoadedFromFileNumber (m_statistics this) + 1)%N;
                   statResourcesLoadedFromFileSize :=
                     (statResourcesLoadedFromFileSize (m_statistics this)
                      + sizeInBytes entry)%N |};
              m_featureLevel := m_featureLevel this |},
           [])
      | RetrievedNull =>
          (None,
           {| m_resourceStorage := m_resourceStorage this;
              m_resourceFiles := read.1;
              m_statistics := m_statistics this;
              m_featureLevel := m_featureLevel this |},
           [Log_loadResource_noResource entry fileHandle])
      | RetrieveThrew what =>
          (None,
           {| m_resourceStorage := m_resourceStorage this;
              m_resourceFiles := read.1;
              m_statistics := m_statistics this;
              m_featureLevel := m_featureLevel this |},
           [Log_loadResource_exception what entry fileHandle])
      end
  end.

(** One hash: the cached live resource if the storage has one, otherwise
    the file-backed load (on the storage as the lookup left it). *)
Definition spec_resolve_hash (h : ResourceContentHash) (this : Members)
    : option ManagedResource * Members * list Event :=
  let looked := storage_getResource (m_resourceStorage this) h in
  let this1 :=
    {| m_resourceStorage := looked.1;
       m_resourceFiles := m_resourceFiles this;
       m_statistics := m_statistics this;
       m_featureLevel := m_featureLevel this |} in
  match looked.2 with
  | Some mr => (Some mr, this1, [])
  | None => spec_fileBackedLoad h this1
  end.

(** The batch: every hash in turn, on the members as the hashes before
    it left them; the handles of the hashes that resolved, the hashes
    that did not, the members at the end and the logs of the loads. *)
Fixpoint spec_resolve (hashes : list ResourceContentHash) (this : Members)
    : list ManagedResource * list ResourceContentHash * Members * list Event :=
  match hashes with
  | [] => ([], [], this, [])
  | h :: hashes' =>
      let '(mr, this1, logs1) := spec_resolve_hash h this in
      let '(handles, failed, this2, logs2) := spec_resolve hashes' this1 in
      (match mr with Some mr => mr :: handles | None => handles end,
       match mr with Some _ => failed | None => h :: failed end,
       this2, logs1 ++ logs2)
  end.

End ResourceComponent.
End ResourceComponent.

(* --------------------------------------------------------------------- *)
(** ** Further inputs to run the model on                                 *)
(* --------------------------------------------------------------------- *)

(** An order on hashes: by the high part, then by the low part. *)
Definition lex_hash_lt (a b : ResourceContentHash) : Prop :=
  (highPart a < highPart b)%N
  ∨ (highPart a = highPart b ∧ (lowPart a < lowPart b)%N).

#[global] Instance lex_hash_lt_dec : RelDecision lex_hash_lt.
Proof. intros a b. unfold lex_hash_lt. apply _. Defined.

Inductive ExampleDataType := Example_Float | Example_Buffer | Example_Sampler.

Definition ExampleDataTypes : DataTypes :=
  {| EDataType := ExampleDataType;
     IsBufferDataType := λ t, match t with Example_Buffer => true | _ => false end;
     IsTextureSamplerType :=
       λ t, match t with Example_Sampler => true | _ => false end |}.

(** A scene with a switched-off renderable (data instance 0, effect
    [0:5], buffer [0:10]), a visible one (data instance 1 for geometry,
    none for uniforms; effect [0:3], a buffer [0:11], a sampler without
    texture, a float), and two data slots with textures [0:3] and
    [1:0]. *)
Definition exampleGraph : @Scene ExampleDataTypes :=
  {| getRenderables :=
       [ (0%N, {| visibilityMode := EVisibilityMode_Off;
                  dataInstances := λ _, 0%N |});
         (1%N, {| visibilityMode := EVisibilityMode_Visible;
                  dataInstances := λ type,
                    match type with
                    | ERenderableDataSlotType_Geometry => 1%N
                    | ERenderableDataSlotType_Uniforms => InvalidMemoryHandle
                    end |}) ];
     isDataInstanceAllocated := λ _, true;
     getLayoutOfDataInstance := λ instanceHandle, instanceHandle;
     getDataLayout := λ layoutHandle,
       if decide (layoutHandle = 0%N) then
         {| getEffectHash := mkResourceContentHash 5 0;
            getFieldCount := 1;
            getField := λ _, @mkDataFieldInfo ExampleDataTypes Example_Buffer |}
       else
         {| getEffectHash := mkResourceContentHash 3 0;
            getFieldCount := 3;
            getField := λ fieldHandle,
              @mkDataFieldInfo ExampleDataTypes
                match fieldHandle with
                | 0 => Example_Buffer
                | 1 => Example_Sampler
                | _ => Example_Float
                end |};
     getDataResource := λ instanceHandle _,
       {| hash := mkResourceContentHash (10 + instanceHandle) 0 |};
     getDataTextureSamplerHandle := λ _ _, 4%N;
     isTextureSamplerAllocated := λ _, true;
     getTextureSampler := λ _, {| textureResource := ResourceContentHash_Invalid |};
     getDataSlots :=
       [ (0%N, {| attachedTexture := mkResourceContentHash 3 0 |});
         (1%N, {| attachedTexture := mkResourceContentHash 0 1 |}) ] |}.

(** A resource backend: the storage and the files are association lists,
    a handle is a number. *)
Fixpoint lookup_hash {V} (h : ResourceContentHash) (l : list (ResourceContentHash * V))
    : option V :=
  match l with
  | [] => None
  | (h', v) :: l' => if decide (h = h') then Some v else lookup_hash h l'
  end.

Definition exampleEntry (h : ResourceContentHash)
    : ResourceComponent.ResourceFileEntry :=
  {| ResourceComponent.offsetInBytes := 0;
     ResourceComponent.sizeInBytes := 16;
     ResourceComponent.resourceInfo :=
       {| ResourceComponent.type := EResourceType_Effect;
          ResourceComponent.hash := h |} |}.

Definition ExampleBackend : ResourceComponent.ResourceBackend :=
  {| ResourceComponent.ResourceStorage := list (ResourceContentHash * N);
     ResourceComponent.ResourceFilesRegistry :=
       list (ResourceContentHash
             * ResourceComponent.RetrieveResult (ResourceContentHash * N));
     ResourceComponent.IInputStream := unit;
     ResourceComponent.IResourcePtr := ResourceContentHash * N;
     ResourceComponent.ManagedResource := N;
     ResourceComponent.storage_getResource := λ storage h, (storage, lookup_hash h storage);
     ResourceComponent.storage_manageResource :=
       λ storage resource _, (resource :: storage, Some resource.2);
     ResourceComponent.files_getEntry := λ files h,
       match lookup_hash h files with
       | Some _ => Some (tt, exampleEntry h, 0%N)
       | None => None
       end;
     ResourceComponent.RetrieveResourceFromStream := λ files _ entry _,
       (files,
        default ResourceComponent.RetrievedNull
          (lookup_hash (ResourceComponent.hash (ResourceComponent.resourceInfo entry))
             files)) |}.

#[local] Existing Instance ExampleBackend.

(** Hash [0:1] is cached, [0:2] loads from the file, [0:3] is unknown and
    reading [0:4] throws. *)
Definition exampleResources : ResourceComponent.Members :=
  {| ResourceComponent.m_resourceStorage := [(mkResourceContentHash 1 0, 100%N)];
     ResourceComponent.m_resourceFiles :=
       [ (mkResourceContentHash 2 0,
          ResourceComponent.Retrieved (mkResourceContentHash 2 0, 200%N));
         (mkResourceContentHash 4 0, ResourceComponent.RetrieveThrew "truncated") ];
     ResourceComponent.m_statistics := ResourceComponent.mkStatistics 0 0;
     ResourceComponent.m_featureLevel := 1%N |}.

(* --------------------------------------------------------------------- *)
(** ** Scene resources as [ResourceUtils] reads them                      *)
(* --------------------------------------------------------------------- *)

(** The same scene with its renderables and data slots met in another
    order: both are kept in pools whose iteration order the collection
    does not choose. *)
Definition Scene_iteratedAs `{DataTypes}
    (renderables : list (RenderableHandle * Renderable))
    (dataSlots : list (DataSlotHandle * DataSlot)) (scene : Scene) : Scene :=
  {| getRenderables := renderables;
     isDataInstanceAllocated := isDataInstanceAllocated scene;
     getLayoutOfDataInstance := getLayoutOfDataInstance scene;
     getDataLayout := getDataLayout scene;
     getDataResource := getDataResource scene;
     getDataTextureSamplerHandle := getDataTextureSamplerHandle scene;
     isTextureSamplerAllocated := isTextureSamplerAllocated scene;
     getTextureSampler := getTextureSampler scene;
     getDataSlots := dataSlots |}.

Module SceneResources.

(** The actions that [GetAllSceneResourcesFromScene] pushes; the
    enumeration [ESceneResourceAction] is declared outside the sources. *)
Inductive ESceneResourceAction :=
| ESceneResourceAction_CreateRenderBuffer
| ESceneResourceAction_CreateRenderTarget
| ESceneResourceAction_CreateBlitPass
| ESceneResourceAction_CreateDataBuffer
| ESceneResourceAction_UpdateDataBuffer
| ESceneResourceAction_CreateTextureBuffer
| ESceneResourceAction_UpdateTextureBuffer
| ESceneResourceAction_CreateUniformBuffer
| ESceneResourceAction_UpdateUniformBuffer.

#[global] Instance ESceneResourceAction_eq_dec : EqDecision ESceneResourceAction.
Proof. solve_decision. Defined.

Record SceneResourceAction := mkSceneResourceAction {
  handle : MemoryHandle;
  action : ESceneResourceAction;
}.

#[global] Instance SceneResourceAction_eq_dec : EqDecision SceneResourceAction.
Proof. solve_decision. Defined.

(** The template parameter [SCENE]: the accessors the function calls.
    The counts are [uint32_t]; [getDataBuffer_usedSize h] is
    [getDataBuffer(h).usedSize], [GetMipMapDataSizeInBytes h] is
    [TextureBuffer::GetMipMapDataSizeInBytes(getTextureBuffer(h))], both
    [uint32_t], and [getUniformBuffer_data_size h] is
    [getUniformBuffer(h).data.size()]. *)
Record Scene := mkScene {
  getRenderBufferCount : N;
  isRenderBufferAllocated : MemoryHandle → bool;
  getRenderTargetCount : N;
  isRenderTargetAllocated : MemoryHandle → bool;
  getBlitPassCount : N;
  isBlitPassAllocated : MemoryHandle → bool;
  getDataBufferCount : N;
  isDataBufferAllocated : MemoryHandle → bool;
  getDataBuffer_usedSize : MemoryHandle → N;
  getTextureBufferCount : N;
  isTextureBufferAllocated : MemoryHandle → bool;
  GetMipMapDataSizeInBytes : MemoryHandle → N;
  getUniformBufferCount : N;
  isUniformBufferAllocated : MemoryHandle → bool;
  getUniformBuffer_data_size : MemoryHandle → N;
}.

(** Wrap-around of [uint32_t] and of [size_t] (64 bits). *)
Definition uint32_t (n : N) : N := (n mod 2 ^ 32)%N.
Definition size_t (n : N) : N := (n mod 2 ^ 64)%N.

(** The handles a loop [for (H h(0u); h < count; ++h)] visits. *)
Definition handlesBelow (count : N) : list MemoryHandle :=
  N.of_nat <$> seq 0 (N.to_nat count).

(** The two outputs: the vector [actions] and [usedDataByteSize]. *)
Record Output := mkOutput {
  actions : list SceneResourceAction;
  usedDataByteSize : N;
}.

Definition push_back (h : MemoryHandle) (a : ESceneResourceAction)
    (out : Output) : Output :=
  {| actions := actions out ++ [mkSceneResourceAction h a];
     usedDataByteSize := usedDataByteSize out |}.

(** [usedDataByteSize += size]. *)
Definition addUsedDataByteSize (size : N) (out : Output) : Output :=
  {| actions := actions out;
     usedDataByteSize := size_t (usedDataByteSize out + size) |}.

(** [numSceneResources], the capacity reserved for the vector. *)
Definition numSceneResources (scene : Scene) : N :=
  uint32_t (getRenderTargetCount scene + getRenderBufferCount scene
            + getBlitPassCount scene + getDataBufferCount scene * 2
            + getTextureBufferCount scene * 2
            + getUniformBufferCount scene * 2).

(** A loop that pushes one action for every allocated handle. *)
Definition pushCreated (isAllocated : MemoryHandle → bool)
    (create : ESceneResourceAction) (count : N) (out : Output) : Output :=
  foldl (λ out h, if isAllocated h then push_back h create out else out)
    out (handlesBelow count).

(** A loop that pushes a create and an update action for every allocated
    handle and adds up the sizes. *)
Definition pushCreatedAndUpdated (isAllocated : MemoryHandle → bool)
    (create update : ESceneResourceAction) (size : MemoryHandle → N)
    (count : N) (out : Output) : Output :=
  foldl (λ out h,
           if isAllocated h
           then addUsedDataByteSize (size h)
                  (push_back h update (push_back h create out))
           else out)
    out (handlesBelow count).

(** [ResourceUtils::GetAllSceneResourcesFromScene]; the function asserts
    that [actions] starts empty and sets [usedDataByteSize] to zero. *)
Definition GetAllSceneResourcesFromScene (scene : Scene) : Output :=
  let out := {| actions := []; usedDataByteSize := 0 |} in
  let out := pushCreated (isRenderBufferAllocated scene)
               ESceneResourceAction_CreateRenderBuffer
               (getRenderBufferCount scene) out in
  let out := pushCreated (isRenderTargetAllocated scene)
               ESceneResourceAction_CreateRenderTarget
               (getRenderTargetCount scene) out in
  let out := pushCreated (isBlitPassAllocated scene)
               ESceneResourceAction_CreateBlitPass
               (getBlitPassCount scene) out in
  let out := pushCreatedAndUpdated (isDataBufferAllocated scene)
               ESceneResourceAction_CreateDataBuffer
               ESceneResourceAction_UpdateDataBuffer
               (getDataBuffer_usedSize scene)
               (getDataBufferCount scene) out in
  let out := pushCreatedAndUpdated (isTextureBufferAllocated scene)
               ESceneResourceAction_CreateTextureBuffer
               ESceneResourceAction_UpdateTextureBuffer
               (GetMipMapDataSizeInBytes scene)
               (getTextureBufferCount scene) out in
  pushCreatedAndUpdated (isUniformBufferAllocated scene)
    ESceneResourceAction_CreateUniformBuffer
    ESceneResourceAction_UpdateUniformBuffer
    (λ h, uint32_t (getUniformBuffer_data_size scene h))
    (getUniformBufferCount scene) out.

(** Reading the result: the kind of object an action is about, in the
    order of the six loops, and whether it creates or updates. *)
Inductive Kind :=
| RenderBuffer | RenderTarget | BlitPass | DataBuffer | TextureBuffer
| UniformBuffer.

#[global] Instance Kind_eq_dec : EqDecision Kind.
Proof. solve_decision. Defined.

Definition kind (a : ESceneResourceAction) : Kind :=
  match a with
  | ESceneResourceAction_CreateRenderBuffer => RenderBuffer
  | ESceneResourceAction_CreateRenderTarget => RenderTarget
  | ESceneResourceAction_CreateBlitPass => BlitPass
  | ESceneResourceAction_CreateDataBuffer
  | ESceneResourceAction_UpdateDataBuffer => DataBuffer
  | ESceneResourceAction_CreateTextureBuffer
  | ESceneResourceAction_UpdateTextureBuffer => TextureBuffer
  | ESceneResourceAction_CreateUniformBuffer
  | ESceneResourceAction_UpdateUniformBuffer => UniformBuffer
  end.

Definition kind_rank (k : Kind) : nat :=
  match k with
  | RenderBuffer => 0 | RenderTarget => 1 | BlitPass => 2
  | DataBuffer => 3 | TextureBuffer => 4 | UniformBuffer => 5
  end.

Definition isUpdate (a : ESceneResourceAction) : bool :=
  match a with
  | ESceneResourceAction_UpdateDataBuffer
  | ESceneResourceAction_UpdateTextureBuffer
  | ESceneResourceAction_UpdateUniformBuffer => true
  | _ => false
  end.

(** The update action that goes with a create action, if any. *)
Definition updateOf (a : ESceneResourceAction) : option ESceneResourceAction :=
  match a with
  | ESceneResourceAction_CreateDataBuffer =>
      Some ESceneResourceAction_UpdateDataBuffer
  | ESceneResourceAction_CreateTextureBuffer =>
      Some ESceneResourceAction_UpdateTextureBuffer
  | ESceneResourceAction_CreateUniformBuffer =>
      Some ESceneResourceAction_UpdateUniformBuffer
  | _ => None
  end.

Definition countOf (scene : Scene) (k : Kind) : N :=
  match k with
  | RenderBuffer => getRenderBufferCount scene
  | RenderTarget => getRenderTargetCount scene
  | BlitPass => getBlitPassCount scene
  | DataBuffer => getDataBufferCount scene
  | TextureBuffer => getTextureBufferCount scene
  | UniformBuffer => getUniformBufferCount scene
  end.

Definition isAllocated (scene : Scene) (k : Kind) : MemoryHandle → bool :=
  match k with
  | RenderBuffer => isRenderBufferAllocated scene
  | RenderTarget => isRenderTargetAllocated scene
  | BlitPass => isBlitPassAllocated scene
  | DataBuffer => isDataBufferAllocated scene
  | TextureBuffer => isTextureBufferAllocated scene
  | UniformBuffer => isUniformBufferAllocated scene
  end.

(** The bytes one buffer of a kind adds to [usedDataByteSize]. *)
Definition sizeOf (scene : Scene) (k : Kind) (h : MemoryHandle) : N :=
  match k with
  | DataBuffer => getDataBuffer_usedSize scene h
  | TextureBuffer => GetMipMapDataSizeInBytes scene h
  | UniformBuffer => uint32_t (getUniformBuffer_data_size scene h)
  | _ => 0
  end.

(** The order of the vector: by kind, then by handle, the create action
    before the update action. *)
Definition action_lt (a b : SceneResourceAction) : Prop :=
  (kind_rank (kind (action a)) < kind_rank (kind (action b)))%nat
  ∨ (kind (action a) = kind (action b)
     ∧ ((handle a < handle b)%N
        ∨ (handle a = handle b
           ∧ isUpdate (action a) = false ∧ isUpdate (action b) = true))).

(** The allocated handles of a kind, ascending. *)
Definition allocatedHandles (scene : Scene) (k : Kind) : list MemoryHandle :=
  filter (λ h, isAllocated scene k h) (handlesBelow (countOf scene k)).

(** What each kind of loop leaves in the vector for the handles it found
    allocated. *)
Definition created (create : ESceneResourceAction) (handles : list MemoryHandle)
    : list SceneResourceAction :=
  (λ h, mkSceneResourceAction h create) <$> handles.

Definition createdAndUpdated (create update : ESceneResourceAction)
    (handles : list MemoryHandle) : list SceneResourceAction :=
  handles ≫= λ h, [mkSceneResourceAction h create;
                   mkSceneResourceAction h update].

Definition sumN (l : list N) : N := foldr N.add 0%N l.

(** The bytes of the allocated buffers of a kind, not reduced. *)
Definition usedBytes (scene : Scene) (k : Kind) : N :=
  sumN (sizeOf scene k <$> allocatedHandles scene k).

(** A vector in which every create action that has an update action is
    directly followed by it, for the same handle, and no update action
    stands elsewhere. *)
Inductive WellPaired : list SceneResourceAction → Prop :=
| WellPaired_nil : WellPaired []
| WellPaired_single h a l :
    updateOf a = None → isUpdate a = false → WellPaired l →
    WellPaired (mkSceneResourceAction h a :: l)
| WellPaired_pair h create update l :
    updateOf create = Some update → WellPaired l →
    WellPaired (mkSceneResourceAction h create
                :: mkSceneResourceAction h update :: l).

(** A scene to run the function on: two render buffers (the second one
    allocated), a render target, three data buffers (the first and the
    last allocated), one texture buffer and one uniform buffer whose data
    size needs more than 32 bits. *)
Definition exampleScene : Scene :=
  {| getRenderBufferCount := 2;
     isRenderBufferAllocated := λ h, bool_decide (h = 1%N);
     getRenderTargetCount := 1;
     isRenderTargetAllocated := λ _, true;
     getBlitPassCount := 0;
     isBlitPassAllocated := λ _, false;
     getDataBufferCount := 3;
     isDataBufferAllocated := λ h, bool_decide (h ≠ 1%N);
     getDataBuffer_usedSize := λ h, (10 * (h + 1))%N;
     getTextureBufferCount := 1;
     isTextureBufferAllocated := λ _, true;
     GetMipMapDataSizeInBytes := λ _, 64%N;
     getUniformBufferCount := 1;
     isUniformBufferAllocated := λ _, true;
     getUniformBuffer_data_size := λ _, (2 ^ 32 + 5)%N |}.

End SceneResources.

(* --------------------------------------------------------------------- *)
(** ** [SceneGraphComponent]: publishing scenes and the connection        *)
(* --------------------------------------------------------------------- *)

(** [ClientSceneLogicBase] as these functions use it, declared outside the
    sources: the subscribers of a scene can be listed, and one can be
    removed. *)
Class ClientSceneLogicBase := {
  ClientSceneLogic : Type;
  getWaitingAndActiveSubscribers : ClientSceneLogic → list Guid;
  removeSubscriber : Guid → ClientSceneLogic → ClientSceneLogic;
}.

Module Publishing.
Section Publishing.
Context `{iresource : IResource} `{codec : !UpdateStreamCodec}
  `{sceneLogic : ClientSceneLogicBase}.

(** The members of the component as modelled above, and the scene logic
    objects that [m_clientSceneLogicMap] points to, by scene id. *)
Record Members := mkMembers {
  component : SceneGraphComponent;
  m_clientSceneLogicMap : gmap SceneId ClientSceneLogic;
}.

(** The log statements of the functions below, with what they print. *)
Inductive LogStatement :=
| Log_sendCreateScene (sceneId : SceneId) (to : Guid)
| Log_sendCreateScene_notPublished (sceneId : SceneId)
| Log_publishScene (sceneId : SceneId) (mode : EScenePublicationMode)
| Log_unpublishScene (sceneId : SceneId) (mode : EScenePublicationMode)
| Log_connectToNetwork
| Log_disconnectFromNetwork
| Log_disconnectFromNetwork_done
| Log_newParticipantHasConnected
    (participant : Guid) (sceneId : SceneId) (mode : EScenePublicationMode)
    (myID : Guid)
| Log_participantHasDisconnected (participant : Guid).

(** Calls on the logger, the renderer handler and the communication
    system. *)
Inductive Call :=
| LOG (statement : LogStatement)
| SceneRendererHandler_handleNewSceneAvailable
    (newScene : SceneInfo) (providerID : Guid)
| SceneRendererHandler_handleSceneBecameUnavailable
    (sceneId : SceneId) (providerID : Guid)
| SceneRendererHandler_handleInitializeScene
    (sceneInfo : SceneInfo) (providerID : Guid)
| CommunicationSystem_broadcastNewScenesAvailable
    (newScenes : list SceneInfo) (featureLevel : EFeatureLevel)
| CommunicationSystem_broadcastScenesBecameUnavailable
    (unavailableScenes : list SceneInfo)
| CommunicationSystem_sendScenesAvailable
    (to : Guid) (availableScenes : list SceneInfo) (featureLevel : EFeatureLevel)
| CommunicationSystem_sendInitializeScene (to : Guid) (sceneId : SceneId).

Definition is_CommunicationSystem (c : Call) : bool :=
  match c with
  | CommunicationSystem_broadcastNewScenesAvailable _ _
  | CommunicationSystem_broadcastScenesBecameUnavailable _
  | CommunicationSystem_sendScenesAvailable _ _ _
  | CommunicationSystem_sendInitializeScene _ _ => true
  | _ => false
  end.

Definition is_SceneRendererHandler (c : Call) : bool :=
  match c with
  | SceneRendererHandler_handleNewSceneAvailable _ _
  | SceneRendererHandler_handleSceneBecameUnavailable _ _
  | SceneRendererHandler_handleInitializeScene _ _ => true
  | _ => false
  end.

Abbreviation PM := (M Members Call).

Definition set_locallyPublishedScenes
    (f : gmap SceneId SceneInfo → gmap SceneId SceneInfo)
    (c : SceneGraphComponent) : SceneGraphComponent :=
  {| m_sceneRendererHandler := m_sceneRendererHandler c;
     m_myID := m_myID c;
     m_featureLevel := m_featureLevel c;
     m_connected := m_connected c;
     m_locallyPublishedScenes := f (m_locallyPublishedScenes c);
     m_remoteScenes := m_remoteScenes c |}.

Definition set_connected (connected : bool) (c : SceneGraphComponent)
    : SceneGraphComponent :=
  {| m_sceneRendererHandler := m_sceneRendererHandler c;
     m_myID := m_myID c;
     m_featureLevel := m_featureLevel c;
     m_connected := connected;
     m_locallyPublishedScenes := m_locallyPublishedScenes c;
     m_remoteScenes := m_remoteScenes c |}.

Definition onComponent (f : SceneGraphComponent → SceneGraphComponent)
    (this : Members) : Members :=
  {| component := f (component this);
     m_clientSceneLogicMap := m_clientSceneLogicMap this |}.

(** A call through the pointer stored for [sceneId] that changes the
    scene logic object. *)
Definition onSceneLogic (sceneId : SceneId)
    (f : ClientSceneLogic → ClientSceneLogic) (this : Members) : Members :=
  {| component := component this;
     m_clientSceneLogicMap := alter f sceneId (m_clientSceneLogicMap this) |}.

(** A run that an assertion can end: [None] when one fails. *)
Definition Asserting (A : Type) : Type :=
  Members → option (A * Members * list Call).

(** [SceneGraphComponent::sendCreateScene].  The error about a scene that
    is not published does not end the call (the [return] is commented
    out); the assertion guards the remote branch. *)
Definition sendCreateScene (to : Guid) (sceneInfo : SceneInfo) : Asserting unit :=
  λ this,
  let c := component this in
  let info := m_locallyPublishedScenes c !! sceneID sceneInfo in
  let logs : PM unit :=
    do* emit (LOG (Log_sendCreateScene (sceneID sceneInfo) to)) in
    when (bool_decide (info = None))
      (emit (LOG (Log_sendCreateScene_notPublished (sceneID sceneInfo)))) in
  if decide (m_myID c = to) then
    Some ((do* logs in
           when (m_sceneRendererHandler c)
             (match info with
              | Some info =>
                  emit (SceneRendererHandler_handleInitializeScene info (m_myID c))
              | None =>
                  emit (SceneRendererHandler_handleInitializeScene sceneInfo
                          (m_myID c))
              end)) this)
  else if decide (publicationMode sceneInfo = EScenePublicationMode_LocalOnly)
  then None
  else Some ((do* logs in
              emit (CommunicationSystem_sendInitializeScene to
                      (sceneID sceneInfo))) this).

(** [SceneGraphComponent::sendPublishScene]. *)
Definition sendPublishScene (sceneInfo : SceneInfo) : PM unit :=
  let* this := getState in
  let c := component this in
  do* emit (LOG (Log_publishScene (sceneID sceneInfo)
                   (publicationMode sceneInfo))) in
  do* when (m_sceneRendererHandler c)
        (emit (SceneRendererHandler_handleNewSceneAvailable sceneInfo (m_myID c))) in
  do* when (bool_decide (publicationMode sceneInfo
                         ≠ EScenePublicationMode_LocalOnly)
            && m_connected c)
        (emit (CommunicationSystem_broadcastNewScenesAvailable [sceneInfo]
                 (m_featureLevel c))) in
  modifyState
    (onComponent (set_locallyPublishedScenes (<[sceneID sceneInfo := sceneInfo]>))).

(** [SceneGraphComponent::sendUnpublishScene]; it asserts that the scene
    is published. *)
Definition sendUnpublishScene (sceneId : SceneId) (mode : EScenePublicationMode)
    : Asserting unit :=
  λ this,
  let c := component this in
  match m_locallyPublishedScenes c !! sceneId with
  | None => None
  | Some info =>
      Some ((do* emit (LOG (Log_unpublishScene sceneId mode)) in
             do* modifyState
                   (onComponent (set_locallyPublishedScenes (delete sceneId))) in
             do* when (m_sceneRendererHandler c)
                   (emit (SceneRendererHandler_handleSceneBecameUnavailable
                            sceneId (m_myID c))) in
             when (bool_decide (mode ≠ EScenePublicationMode_LocalOnly)
                   && m_connected c)
               (emit (CommunicationSystem_broadcastScenesBecameUnavailable
                        [info]))) this)
  end.

(** [SceneGraphComponent::connectToNetwork]. *)
Definition connectToNetwork : PM unit :=
  do* emit (LOG Log_connectToNetwork) in
  modifyState (onComponent (set_connected true)).

(** The scenes of [m_locallyPublishedScenes] that are not [LocalOnly], in
    the order of iteration (here that of [map_to_list]). *)
Definition remotelyPublished (c : SceneGraphComponent) : list SceneInfo :=
  filter (λ info, publicationMode info ≠ EScenePublicationMode_LocalOnly)
    (map_to_list (m_locallyPublishedScenes c)).*2.

(** [SceneGraphComponent::disconnectFromNetwork]. *)
Definition disconnectFromNetwork : PM unit :=
  let* this := getState in
  let c := component this in
  do* emit (LOG Log_disconnectFromNetwork) in
  let* scenesToUnpublish :=
    forEachWith (map_to_list (m_locallyPublishedScenes c)) []
      (λ scenesToUnpublish p,
         if decide (publicationMode p.2 ≠ EScenePublicationMode_LocalOnly)
         then mret (scenesToUnpublish ++ [p.2])
         else mret scenesToUnpublish) in
  do* when (bool_decide (scenesToUnpublish ≠ []))
        (emit (CommunicationSystem_broadcastScenesBecameUnavailable
                 scenesToUnpublish)) in
  do* forEach (map_to_list (m_clientSceneLogicMap this))
        (λ p,
           let* this := getState in
           match m_clientSceneLogicMap this !! p.1 with
           | Some sceneLogic =>
               let subscribers := getWaitingAndActiveSubscribers sceneLogic in
               forEach subscribers
                 (λ sub,
                    when (bool_decide (sub ≠ m_myID c))
                      (modifyState (onSceneLogic p.1 (removeSubscriber sub))))
           | None => mret tt
           end) in
  do* modifyState (onComponent (set_connected false)) in
  emit (LOG Log_disconnectFromNetwork_done).

(** [SceneGraphComponent::newParticipantHasConnected]. *)
Definition newParticipantHasConnected (connnectedParticipant : Guid) : PM unit :=
  let* this := getState in
  let c := component this in
  let* availableScenes :=
    forEachWith (map_to_list (m_locallyPublishedScenes c)) []
      (λ availableScenes p,
         if decide (publicationMode p.2 ≠ EScenePublicationMode_LocalOnly)
         then
           do* emit (LOG (Log_newParticipantHasConnected connnectedParticipant
                            p.1 (publicationMode p.2) (m_myID c))) in
           mret (availableScenes ++ [p.2])
         else mret availableScenes) in
  when (bool_decide (availableScenes ≠ []))
    (emit (CommunicationSystem_sendScenesAvailable connnectedParticipant
             availableScenes (m_featureLevel c))).

(** [SceneGraphComponent::participantHasDisconnected].  The two maps are
    met in the order of [map_to_list]; the hash maps of the code may meet
    their entries in another order, so the order of the calls on the
    renderer handler is that of the model only. *)
Definition participantHasDisconnected (disconnnectedParticipant : Guid)
    : PM unit :=
  let* this := getState in
  let c := component this in
  do* emit (LOG (Log_participantHasDisconnected disconnnectedParticipant)) in
  do* forEach (map_to_list (m_locallyPublishedScenes c))
        (λ publishedScene,
           let* this := getState in
           match m_clientSceneLogicMap this !! publishedScene.1 with
           | Some _ =>
               modifyState
                 (onSceneLogic publishedScene.1
                    (removeSubscriber disconnnectedParticipant))
           | None => mret tt
           end) in
  forEach (map_to_list (m_remoteScenes c))
    (λ it,
       if decide (provider it.2 = disconnnectedParticipant)
       then
         do* when (m_sceneRendererHandler c)
               (emit (SceneRendererHandler_handleSceneBecameUnavailable it.1
                        disconnnectedParticipant)) in
         modifyState (onComponent (set_remoteScenes (delete it.1)))
       else mret tt).

(** The inner loop of [disconnectFromNetwork] on one scene logic object:
    every subscriber but the component itself is removed. *)
Definition removeRemoteSubscribers (myID : Guid) (sceneLogic : ClientSceneLogic)
    : ClientSceneLogic :=
  foldl (λ sceneLogic sub,
           if bool_decide (sub ≠ myID) then removeSubscriber sub sceneLogic
           else sceneLogic)
    sceneLogic (getWaitingAndActiveSubscribers sceneLogic).

End Publishing.
End Publishing.

(** Scene logic objects to run the functions with: the list of their
    subscribers. *)
Definition ListSceneLogic : ClientSceneLogicBase :=
  {| ClientSceneLogic := list Guid;
     getWaitingAndActiveSubscribers := λ subscribers, subscribers;
     removeSubscriber := λ sub subscribers, filter (λ s, s ≠ sub) subscribers |}.

#[local] Existing Instance ListSceneLogic.

Definition localScene : SceneInfo :=
  mkSceneInfo (mkSceneId 3) "local" EScenePublicationMode_LocalOnly.
Definition sharedScene : SceneInfo :=
  mkSceneInfo (mkSceneId 5) "shared" EScenePublicationMode_LocalAndRemote.

(** A provider to run the examples on: the router of the examples above
    (participant 1, connected, with a renderer, tracking scene 7 of
    participant 2), which has published scene 3 for local use only and
    scene 5 for everyone; participants 1 and 2 subscribe to scene 5. *)
Definition exampleProvider : Publishing.Members :=
  {| Publishing.component :=
       Publishing.set_locallyPublishedScenes
         (λ _, {[ mkSceneId 3 := localScene; mkSceneId 5 := sharedScene ]})
         exampleRouter;
     Publishing.m_clientSceneLogicMap :=
       {[ mkSceneId 3 := []; mkSceneId 5 := [1%N; 2%N] ]} |}.

(* --------------------------------------------------------------------- *)
(** ** [ResourceComponent]: forcing the resources of a file to load       *)
(* --------------------------------------------------------------------- *)

(** A member function run inside another one that records more kinds of
    events. *)
Definition mapEvents {S E E' A} (f : E → E') (m : M S E A) : M S E' A :=
  λ st, let '(a, st', t) := m st in (a, st', f <$> t).

Module ForcedLoading.

(** What [loadResourceFromFile] asks of the collaborators beyond
    [ResourceBackend]: the hashes of a registered file in the order of
    its contents map (none for an unknown handle), whether a resource is
    in use elsewhere, and the mark that forbids deleting it.  A
    [ManagedResource] that goes out of scope is given back to the
    storage. *)
Class FileBackend `{backend : ResourceComponent.ResourceBackend} := {
  files_getContentsOfResourceFile :
    ResourceComponent.ResourceFilesRegistry → ResourceComponent.SceneFileHandle →
    option (list ResourceContentHash);
  storage_isFileResourceInUseAnywhereElse :
    ResourceComponent.ResourceStorage → ResourceContentHash → bool;
  storage_markDeletionDisallowed :
    ResourceComponent.ResourceStorage → ResourceContentHash →
    ResourceComponent.ResourceStorage;
  storage_released :
    ResourceComponent.ResourceStorage → ResourceComponent.ManagedResource →
    ResourceComponent.ResourceStorage;
}.

Section ForcedLoading.
Context `{fileBackend : FileBackend}.
Import ResourceComponent.

(** The warning of [loadResourceFromFile], and the logs of the
    [loadResource] calls it makes. *)
Inductive Event :=
| Log_loadResourceFromFile_unknownHandle (handle : SceneFileHandle)
| FromLoadResource (e : ResourceComponent.Event).

(** The end of the lifetime of a handle that may be null. *)
Definition release (mr : option ManagedResource) : M Members Event unit :=
  match mr with
  | Some mr =>
      modifyState (λ this,
        set_resourceStorage (storage_released (m_resourceStorage this) mr) this)
  | None => mret tt
  end.

(** The body of the loop of [loadResourceFromFile]. *)
Definition loadResourceFromFile_entry (id : ResourceContentHash)
    : M Members Event unit :=
  let* this := getState in
  if storage_isFileResourceInUseAnywhereElse (m_resourceStorage this) id then
    let* known := mapEvents FromLoadResource (getResource id) in
    do* release known in
    let* res :=
      match known with
      | Some _ => mret None
      | None => mapEvents FromLoadResource (loadResource id)
      end in
    do* modifyState (λ this,
          set_resourceStorage
            (storage_markDeletionDisallowed (m_resourceStorage this) id) this) in
    release res
  else mret tt.

(** [ResourceComponent::loadResourceFromFile]. *)
Definition loadResourceFromFile (handle : SceneFileHandle)
    : M Members Event unit :=
  let* this := getState in
  match files_getContentsOfResourceFile (m_resourceFiles this) handle with
  | None => emit (Log_loadResourceFromFile_unknownHandle handle)
  | Some content => forEach content loadResourceFromFile_entry
  end.

End ForcedLoading.
End ForcedLoading.

(** The example backend with one registered file, handle [0], that holds
    the hashes of the example registry; a resource is in use elsewhere
    when the storage has it. *)
Definition ExampleFileBackend : @ForcedLoading.FileBackend ExampleBackend :=
  {| ForcedLoading.files_getContentsOfResourceFile := λ files handle,
       if decide (handle = 0%N) then Some files.*1 else None;
     ForcedLoading.storage_isFileResourceInUseAnywhereElse := λ storage h,
       bool_decide (is_Some (lookup_hash h storage));
     ForcedLoading.storage_markDeletionDisallowed := λ storage _, storage;
     ForcedLoading.storage_released := λ storage _, storage |}.

#[local] Existing Instance ExampleFileBackend.

(* ===================================================================== *)
(** * Part II: properties                                                 *)
(* ===================================================================== *)

Lemma level_ltb_lt a b : level_ltb a b = true ↔ (level_rank a < level_rank b)%nat.
Proof. unfold level_ltb. apply Nat.ltb_lt. Qed.


Lemma StoredCodec_laws : @CompressionCodecLaws StoredCodec.
Proof. constructor. intros level x _. simpl. apply firstn_all. Qed.

(* --------------------------------------------------------------------- *)
(** ** Resource values: compression levels                                *)
(* --------------------------------------------------------------------- *)

Section ResourceBase_props.
Context `{CompressionCodec} `{ContentDigest}.



(** A payload under the threshold is never compressed, whatever the level. *)
Lemma compress_noop_small (level : CompressionLevel) (r : ResourceBase) :
  (∀ x, decompressedData r = Some x → (length x ≤ minCompressionBenefitSize)%nat) →
  compress level r = r.
Proof.
  intros Hsmall. unfold compress. destruct (decompressedData r) as [x|]; [|done].
  specialize (Hsmall x eq_refl). apply Nat.ltb_ge in Hsmall.
  by rewrite Hsmall, andb_false_r.
Qed.

Lemma compress_keeps_data (level : CompressionLevel) (r : ResourceBase) :
  decompressedData (compress level r) = decompressedData r.
Proof.
  unfold compress. destruct (decompressedData r) eqn:E; [|done].
  by destruct (_ && _).
Qed.

(** After [compress(level)] the cached level is the larger of the two, or
    the value was not worth compressing and is as before. *)
Lemma compress_level_cases (level : CompressionLevel) (r : ResourceBase) :
  compress level r = r
  ∨ (level_rank (currentCompression r) < level_rank level)%nat
    ∧ currentCompression (compress level r) = level
    ∧ ∃ x, decompressedData r = Some x
           ∧ (minCompressionBenefitSize < length x)%nat
           ∧ compressedData (compress level r) = Some (codec_compress level x).
Proof.
  unfold compress. destruct (decompressedData r) as [x|] eqn:E; [|by left].
  destruct (level_ltb _ _) eqn:E1; [|by left].
  destruct (_ <? _)%nat eqn:E2; [|by left]. simpl. right.
  apply level_ltb_lt in E1. apply Nat.ltb_lt in E2. eauto 10.
Qed.

(** The buffer after Realtime, Offline, Realtime is the one Offline alone
    leaves, from whatever state the value starts. *)
Lemma compress_sequence_any (r : ResourceBase) :
  compress CompressionLevel_Realtime
    (compress CompressionLevel_Offline (compress CompressionLevel_Realtime r))
  = compress CompressionLevel_Offline r.
Proof.
  destruct r as [t f n m [x|] c l s h]; unfold compress; simpl; [|done].
  destruct l; simpl;
    destruct (minCompressionBenefitSize <? length x)%nat eqn:Es; simpl;
    rewrite ?Es; simpl; rewrite ?Es; done.
Qed.


(** C8, as amended. For a value whose decompressed payload is at most
    [minCompressionBenefitSize] bytes, [compress] at any level returns
    with the value untouched: a value that held no compressed buffer (any
    value whose payload was just set) has [isCompressedAvailable() =
    false] afterwards. *)
Theorem compress_skipped_for_small_payloads
    (r : ResourceBase) (x : bytes) (level : CompressionLevel) :
  getResourceData r = Some x →
  (length x ≤ minCompressionBenefitSize)%nat →
  compress level r = r
  ∧ (isCompressedAvailable r = false →
     isCompressedAvailable (compress level r) = false)
  ∧ (∀ r0, isCompressedAvailable (compress level (setResourceData x r0)) = false).
Proof.
  intros Hdata Hsize.
  assert (Hskip : compress level r = r).
  { apply compress_noop_small. intros y Hy.
    unfold getResourceData in Hdata. congruence. }
  split_and!; [done|by rewrite Hskip|].
  intros r0. rewrite compress_noop_small; [done|].
  simpl. intros y [= <-]. done.
Qed.

End ResourceBase_props.

Lemma thousand_zero_bytes_small :
  (length (replicate 1000 Byte.x00) ≤ minCompressionBenefitSize)%nat.
Proof. by vm_compute. Qed.

(** C8 as stated fails for a small value that already holds a compressed
    buffer.  The value of the test [hasGivenHashWhenExplicitlySetForCompressed]
    (ten zero bytes of compressed data, declared size 1), decompressed,
    has a payload of one byte and keeps its compressed buffer: [compress]
    leaves it compressed. *)
Lemma compress_keeps_buffer_of_small_decompressed_value :
  let received :=
    setCompressedResourceData (replicate 10 Byte.x00) CompressionLevel_Realtime
      1 (mkResourceContentHash 1234568 0) (DummyResource 0 "") in
  ∃ r x,
    @decompress StoredCodec received = Some r
    ∧ getResourceData r = Some x
    ∧ (length x ≤ minCompressionBenefitSize)%nat
    ∧ isCompressedAvailable (@compress StoredCodec CompressionLevel_Offline r)
      = true.
Proof.
  cbv zeta. eexists. exists [Byte.x00]. split_and!.
  - reflexivity.
  - reflexivity.
  - unfold minCompressionBenefitSize. simpl. lia.
  - reflexivity.
Qed.


Lemma compress_skipped_for_small_payloads_witness :
  let x := replicate 1000 Byte.x00 in
  let res := setResourceData x (TestResource EResourceType_Invalid 0%N "") in
  @compress StoredCodec CompressionLevel_Offline res = res
  ∧ isCompressedAvailable (@compress StoredCodec CompressionLevel_Offline res) = false.
Proof.
  intros x res.
  destruct (@compress_skipped_for_small_payloads StoredCodec res x
              CompressionLevel_Offline eq_refl thousand_zero_bytes_small)
    as (Hskip & Hleft & _).
  split; [exact Hskip|]. apply Hleft. reflexivity.
Defined.

(* --------------------------------------------------------------------- *)
(** ** Resource values: compression round trip                            *)
(* --------------------------------------------------------------------- *)

Section ResourceBase_roundtrip.
Context `{CompressionCodec} `{!CompressionCodecLaws} `{ContentDigest}.

(** [compress] hands out a buffer for a freshly set payload exactly when
    the level asks for compression and the payload is above the
    threshold. *)
Lemma compress_fresh_buffer (x : bytes) (level : CompressionLevel) (r0 : ResourceBase) :
  getCompressedResourceData (compress level (setResourceData x r0))
  = if bool_decide (level_le CompressionLevel_Realtime level
                    ∧ (minCompressionBenefitSize < length x)%nat)
    then Some (codec_compress level x) else None.
Proof.
  unfold compress, getCompressedResourceData, level_le. simpl.
  unfold level_ltb. simpl.
  destruct (0 <? level_rank level)%nat eqn:E1;
    destruct (minCompressionBenefitSize <? length x)%nat eqn:E2; simpl;
    rewrite ?Nat.ltb_lt, ?Nat.ltb_ge in *;
    case_bool_decide; simpl; try done; lia.
Qed.

(** C7, as amended. Whatever the payload [x] and the level (Realtime or
    above): when [x] is above the threshold, [compress] produces a
    compressed buffer, and a value built from that buffer with the
    declared decompressed size and hash decompresses to a buffer equal to
    [x], whatever level is declared for the buffer; when [x] is at or
    under the threshold, [compress] produces no compressed buffer to
    build a value from. *)
Theorem compress_decompress_roundtrip
    (x : bytes) (level declared : CompressionLevel) (resA0 resB0 : ResourceBase) :
  level_le CompressionLevel_Realtime level →
  let resA := compress level (setResourceData x resA0) in
  if bool_decide (minCompressionBenefitSize < length x)%nat
  then
    ∃ c resB,
      getCompressedResourceData resA = Some c
      ∧ decompress (setCompressedResourceData c declared
                      (getDecompressedDataSize resA) (getHash resA) resB0)
        = Some resB
      ∧ getResourceData resB = Some x
      ∧ isCompressedAvailable resB = true
      ∧ getDecompressedDataSize resB = length x
  else
    getCompressedResourceData resA = None
    ∧ isCompressedAvailable resA = false
    ∧ getResourceData resA = Some x.
Proof.
  intros Hlevel resA. unfold resA in *. clear resA.
  pose proof (compress_fresh_buffer x level resA0) as Hc.
  destruct (decide (minCompressionBenefitSize < length x)%nat) as [Hsize|Hsize].
  - rewrite bool_decide_true in Hc by done.
    rewrite bool_decide_true by done.
    exists (codec_compress level x).
    assert (Hlen : getDecompressedDataSize
                     (compress level (setResourceData x resA0)) = length x).
    { unfold getDecompressedDataSize, compress. simpl. by destruct (_ && _). }
    rewrite Hlen. unfold decompress. simpl.
    assert (Hpos : (0 <? length x)%nat = true)
      by (apply Nat.ltb_lt; unfold minCompressionBenefitSize in Hsize; lia).
    rewrite Hpos. eexists. split_and!; [done|done| | |]; simpl.
    + unfold getResourceData. simpl. by rewrite codec_roundtrip.
    + done.
    + done.
  - rewrite bool_decide_false in Hc by (by intros [_ ?]).
    rewrite bool_decide_false by done.
    split_and!; [done| |].
    + unfold isCompressedAvailable. unfold getCompressedResourceData in Hc.
      rewrite Hc. by apply bool_decide_false, is_Some_None.
    + unfold getResourceData. by rewrite compress_keeps_data.
Qed.

End ResourceBase_roundtrip.

Lemma compress_decompress_roundtrip_witness :
  let x := replicate 1001 Byte.x07 in
  let resA := @compress StoredCodec CompressionLevel_Offline
                (setResourceData x (TestResource EResourceType_Invalid 0%N "")) in
  ∃ c resB,
    getCompressedResourceData resA = Some c
    ∧ @decompress StoredCodec
        (setCompressedResourceData c CompressionLevel_Realtime
           (getDecompressedDataSize resA) (@getHash SumDigest resA)
           (TestResource EResourceType_Invalid 0%N ""))
      = Some resB
    ∧ getResourceData resB = Some x.
Proof.
  intros x resA.
  assert (Hlevel : level_le CompressionLevel_Realtime CompressionLevel_Offline)
    by (unfold level_le; simpl; lia).
  pose proof (@compress_decompress_roundtrip StoredCodec StoredCodec_laws SumDigest
                x CompressionLevel_Offline CompressionLevel_Realtime
                (TestResource EResourceType_Invalid 0%N "")
                (TestResource EResourceType_Invalid 0%N "") Hlevel) as Hround.
  cbv zeta in Hround.
  rewrite bool_decide_true in Hround by (by vm_compute).
  destruct Hround as (c & resB & Hc & Hdec & Hdata & _).
  exists c, resB. split_and!; [exact Hc|exact Hdec|exact Hdata].
Defined.

(** C7 as stated fails for payloads that are not worth compressing: for
    the first size of the test [noCompressionForSmallSizes] (one byte; the
    same holds up to 1000 bytes) [compress] at Realtime produces no
    compressed buffer, so there is no value to build from it and to
    decompress. *)
Lemma compress_produces_no_buffer_for_small_payload :
  let x := replicate 1 Byte.x00 in
  let resA := @compress StoredCodec CompressionLevel_Realtime
                (setResourceData x (TestResource EResourceType_Invalid 0%N "")) in
  getCompressedResourceData resA = None
  ∧ ¬ ∃ c resB,
        getCompressedResourceData resA = Some c
        ∧ @decompress StoredCodec
            (setCompressedResourceData c CompressionLevel_Realtime
               (getDecompressedDataSize resA) (@getHash SumDigest resA)
               (TestResource EResourceType_Invalid 0%N ""))
          = Some resB
        ∧ getResourceData resB = Some x.
Proof.
  cbv zeta. split; [reflexivity|].
  intros (c & resB & Hc & _). discriminate Hc.
Qed.

(* --------------------------------------------------------------------- *)
(** ** [GetAllResourcesFromScene]                                         *)
(* --------------------------------------------------------------------- *)

(** Membership in the result of a loop whose body only ever appends. *)
Lemma elem_of_foldl_collect {A B} (f : list A → B → list A) (P : B → A → Prop) :
  (∀ acc b x, x ∈ f acc b ↔ x ∈ acc ∨ P b x) →
  ∀ l acc x, x ∈ foldl f acc l ↔ x ∈ acc ∨ ∃ b, b ∈ l ∧ P b x.
Proof.
  intros Hf l. induction l as [|b l IH]; intros acc x; simpl.
  - split; [by left|]. intros [?|(b & Hb & _)]; [done|]. by apply elem_of_nil in Hb.
  - rewrite IH, Hf. split.
    + intros [[?|?]|(b' & Hb' & ?)]; [by left|right..].
      * exists b. split; [left|done].
      * exists b'. split; [by right|done].
    + intros [?|(b' & Hb' & ?)]; [by left; left|].
      apply elem_of_cons in Hb' as [->|Hb']; [by left; right|].
      right. by exists b'.
Qed.

Section GetAllResourcesFromScene_props.
Context `{dataTypes : DataTypes}.

Lemma elem_of_pushBackIfValid vec h x :
  x ∈ pushBackIfValid vec h ↔ x ∈ vec ∨ (x = h ∧ hash_isValid h = true).
Proof.
  unfold pushBackIfValid. destruct (hash_isValid h) eqn:E.
  - rewrite elem_of_app, list_elem_of_singleton. naive_solver.
  - naive_solver.
Qed.

Lemma elem_of_field scene instanceHandle layout acc fieldHandle x :
  x ∈ GetAllResourcesFromScene_field scene instanceHandle layout acc fieldHandle
  ↔ x ∈ acc
    ∨ (hash_isValid x = true
       ∧ field_references scene instanceHandle layout fieldHandle x).
Proof.
  unfold GetAllResourcesFromScene_field, field_references. simpl.
  destruct (IsBufferDataType _) eqn:Eb.
  { rewrite elem_of_pushBackIfValid. naive_solver. }
  destruct (IsTextureSamplerType _) eqn:Et; [|naive_solver].
  destruct (handle_isValid _) eqn:Ev; simpl; [|naive_solver].
  destruct (isTextureSamplerAllocated _ _) eqn:Ea; [|naive_solver].
  rewrite elem_of_pushBackIfValid. naive_solver.
Qed.

Lemma elem_of_instance scene renderable acc type x :
  x ∈ GetAllResourcesFromScene_instance scene renderable acc type
  ↔ x ∈ acc
    ∨ (hash_isValid x = true
       ∧ handle_isValid (dataInstances renderable type) = true
       ∧ isDataInstanceAllocated scene (dataInstances renderable type) = true
       ∧ instance_references scene (dataInstances renderable type) x).
Proof.
  unfold GetAllResourcesFromScene_instance, instance_references. simpl.
  destruct (handle_isValid _) eqn:Ev; simpl; [|naive_solver].
  destruct (isDataInstanceAllocated _ _) eqn:Ea; simpl; [|naive_solver].
  set (instanceHandle := dataInstances renderable type).
  set (layout := getDataLayout scene (getLayoutOfDataInstance scene instanceHandle)).
  rewrite (elem_of_foldl_collect _
             (λ i y, hash_isValid y = true
                     ∧ field_references scene instanceHandle layout i y));
    [|intros; apply elem_of_field].
  rewrite elem_of_pushBackIfValid. split.
  - intros [[?|[-> ?]]|(i & Hi & Hv & Href)]; [by left|right..].
    + split_and!; [done..|by left].
    + apply elem_of_seq in Hi. split_and!; [done..|]. right. exists i.
      split; [lia|done].
  - intros [?|(Hv & _ & _ & [->|(i & Hi & Href)])]; [by left; left|by left; right|].
    right. exists i. split; [apply elem_of_seq; lia|done].
Qed.

Lemma elem_of_renderable scene acc rendIt x :
  x ∈ GetAllResourcesFromScene_renderable scene acc rendIt
  ↔ x ∈ acc
    ∨ (hash_isValid x = true
       ∧ visibilityMode rendIt.2 ≠ EVisibilityMode_Off
       ∧ renderable_references scene rendIt.2 x).
Proof.
  unfold GetAllResourcesFromScene_renderable, renderable_references.
  destruct (decide _) as [Hoff|Hon]; [naive_solver|].
  rewrite (elem_of_foldl_collect _
             (λ type y, hash_isValid y = true
                ∧ handle_isValid (dataInstances rendIt.2 type) = true
                ∧ isDataInstanceAllocated scene (dataInstances rendIt.2 type) = true
                ∧ instance_references scene (dataInstances rendIt.2 type) y));
    [|intros; apply elem_of_instance].
  split.
  - intros [?|(type & _ & ? & ? & ? & ?)]; [by left|right].
    split_and!; [done..|]. by exists type.
  - intros [?|(? & _ & type & ? & ? & ?)]; [by left|right].
    exists type. split; [|done]. destruct type; set_solver.
Qed.

Section sorted.
Context `{hashOrder : HashOrder}.

(** The collected hashes are the valid hashes referenced by a renderable
    that is not switched off, or attached to a data slot. *)
Lemma elem_of_collected scene x :
  x ∈ GetAllResourcesFromScene_collected scene
  ↔ hash_isValid x = true
    ∧ (referenced_by_active_renderable scene x
       ∨ referenced_by_data_slot scene x).
Proof.
  unfold GetAllResourcesFromScene_collected,
    referenced_by_active_renderable, referenced_by_data_slot.
  rewrite (elem_of_foldl_collect _
             (λ slotIt y, y = attachedTexture slotIt.2 ∧ hash_isValid y = true));
    [|intros; rewrite elem_of_pushBackIfValid; naive_solver].
  rewrite (elem_of_foldl_collect _
             (λ rendIt y, hash_isValid y = true
                ∧ visibilityMode rendIt.2 ≠ EVisibilityMode_Off
                ∧ renderable_references scene rendIt.2 y));
    [|intros; apply elem_of_renderable].
  rewrite elem_of_nil. naive_solver.
Qed.

#[local] Instance hash_le_total : Total hash_le.
Proof.
  intros a b. unfold hash_le.
  destruct (decide (hash_lt b a)) as [Hba|]; [|by left].
  right. intros Hab. by apply (irreflexivity hash_lt a); transitivity b.
Qed.

Lemma hash_le_lt (a b : ResourceContentHash) : hash_le a b → a ≠ b → hash_lt a b.
Proof.
  unfold hash_le. intros Hle Hne.
  destruct (trichotomy hash_lt a b) as [?|[?|?]]; done.
Qed.

#[local] Instance hash_le_trans : Transitive hash_le.
Proof.
  intros a b c Hab Hbc Hca. unfold hash_le in *.
  destruct (decide (a = b)) as [->|Hne]; [done|].
  apply Hbc. transitivity a; [done|]. by apply hash_le_lt.
Qed.

Lemma std_sort_sorted (l : list ResourceContentHash) :
  StronglySorted hash_le (std_sort l).
Proof. apply Sorted_StronglySorted; [apply _|]. apply Sorted_merge_sort; apply _. Qed.

Lemma std_sort_Permutation (l : list ResourceContentHash) : std_sort l ≡ₚ l.
Proof. apply merge_sort_Permutation. Qed.

Lemma elem_of_std_unique_from (last : ResourceContentHash) l x :
  x ∈ last :: std_unique_from last l ↔ x ∈ last :: l.
Proof.
  revert last. induction l as [|y l IH]; intros last; simpl; [done|].
  destruct (decide (last = y)) as [<-|Hne].
  - rewrite IH. set_solver.
  - rewrite (elem_of_cons (y :: std_unique_from y l)), IH. set_solver.
Qed.

Lemma elem_of_std_unique l x : x ∈ std_unique l ↔ x ∈ l.
Proof. destruct l as [|y l]; [done|]. apply elem_of_std_unique_from. Qed.

(** On a sorted vector [std::unique] leaves a strictly increasing one. *)
Lemma std_unique_from_sorted (last : ResourceContentHash) l :
  StronglySorted hash_le (last :: l) →
  StronglySorted hash_lt (last :: std_unique_from last l).
Proof.
  revert last. induction l as [|y l IH]; intros last Hs; simpl.
  { repeat constructor. }
  apply StronglySorted_cons in Hs as [Hall Hs].
  apply Forall_cons in Hall as [Hy Hall].
  destruct (decide (last = y)) as [<-|Hne].
  - by apply IH.
  - specialize (IH y Hs). apply StronglySorted_cons. split; [|done].
    apply hash_le_lt in Hy; [|done].
    apply StronglySorted_cons in IH as [Hlt _].
    constructor; [done|].
    eapply Forall_impl; [exact Hlt|]. intros z Hz. by transitivity y.
Qed.

Lemma std_unique_sorted l :
  StronglySorted hash_le l → StronglySorted hash_lt (std_unique l).
Proof.
  destruct l as [|x l]; [constructor|]. apply std_unique_from_sorted.
Qed.

Lemma strictly_sorted_NoDup (l : list ResourceContentHash) :
  StronglySorted hash_lt l → NoDup l.
Proof.
  induction 1 as [|x l Hs IH Hall]; [constructor|].
  apply NoDup_cons. split; [|done]. intros Hin.
  rewrite Forall_forall in Hall. by apply (irreflexivity hash_lt x), Hall.
Qed.

(** The result holds exactly the collected hashes. *)
Lemma elem_of_GetAllResourcesFromScene scene x :
  x ∈ GetAllResourcesFromScene scene
  ↔ hash_isValid x = true
    ∧ (referenced_by_active_renderable scene x
       ∨ referenced_by_data_slot scene x).
Proof.
  unfold GetAllResourcesFromScene.
  by rewrite elem_of_std_unique, std_sort_Permutation, elem_of_collected.
Qed.

(** C10. For every scene the vector that [GetAllResourcesFromScene] fills
    is sorted (strictly increasing for [operator<]), holds no hash twice,
    holds no invalid hash, and holds no hash that only renderables with
    visibility mode [Off] reference. *)
Theorem GetAllResourcesFromScene_sorted_unique_valid (scene : Scene) :
  let resources := GetAllResourcesFromScene scene in
  StronglySorted hash_lt resources
  ∧ NoDup resources
  ∧ Forall (λ h, hash_isValid h = true) resources
  ∧ (∀ h, referenced_only_by_off_renderables scene h → h ∉ resources).
Proof.
  intros resources.
  assert (Hsorted : StronglySorted hash_lt resources)
    by apply std_unique_sorted, std_sort_sorted.
  split_and!; [done|by apply strictly_sorted_NoDup| |].
  - apply Forall_forall. intros h Hin.
    by apply elem_of_GetAllResourcesFromScene in Hin as [? _].
  - intros h (_ & Honly & Hslot) Hin.
    apply elem_of_GetAllResourcesFromScene in Hin
      as [_ [(rendIt & Hr & Hon & Href)|Hs]]; [|done].
    by apply Hon, Honly.
Qed.

End sorted.
End GetAllResourcesFromScene_props.

(* --------------------------------------------------------------------- *)
(** ** Runs of member functions                                           *)
(* --------------------------------------------------------------------- *)

Section runs.
Context {S E : Type}.
Implicit Types (st : S).

Lemma run_eta {A} (m : M S E A) st :
  m st = (result_of m st, state_after m st, trace_of m st).
Proof. unfold result_of, state_after, trace_of. by destruct (m st) as [[? ?] ?]. Qed.

Lemma result_mbind {A B} (m : M S E A) (f : A → M S E B) st :
  result_of (mbind m f) st = result_of (f (result_of m st)) (state_after m st).
Proof.
  unfold result_of, state_after, mbind. destruct (m st) as [[a st1] t1]. simpl.
  by destruct (f a st1) as [[b st2] t2].
Qed.

Lemma state_mbind {A B} (m : M S E A) (f : A → M S E B) st :
  state_after (mbind m f) st = state_after (f (result_of m st)) (state_after m st).
Proof.
  unfold result_of, state_after, mbind. destruct (m st) as [[a st1] t1]. simpl.
  by destruct (f a st1) as [[b st2] t2].
Qed.

Lemma trace_mbind {A B} (m : M S E A) (f : A → M S E B) st :
  trace_of (mbind m f) st
  = trace_of m st ++ trace_of (f (result_of m st)) (state_after m st).
Proof.
  unfold result_of, state_after, trace_of, mbind.
  destruct (m st) as [[a st1] t1]. simpl.
  by destruct (f a st1) as [[b st2] t2].
Qed.

Lemma state_forEach_cons {A} (x : A) l (body : A → M S E unit) st :
  state_after (forEach (x :: l) body) st
  = state_after (forEach l body) (state_after (body x) st).
Proof. simpl. by rewrite state_mbind. Qed.

Lemma trace_forEach_cons {A} (x : A) l (body : A → M S E unit) st :
  trace_of (forEach (x :: l) body) st
  = trace_of (body x) st ++ trace_of (forEach l body) (state_after (body x) st).
Proof. simpl. by rewrite trace_mbind. Qed.

(** A loop over [l1 ++ l2] is the loop over [l1] followed by the loop over
    [l2]: no iteration ends the loop early. *)
Lemma forEach_app {A} (l1 l2 : list A) (body : A → M S E unit) st :
  state_after (forEach (l1 ++ l2) body) st
  = state_after (forEach l2 body) (state_after (forEach l1 body) st)
  ∧ trace_of (forEach (l1 ++ l2) body) st
    = trace_of (forEach l1 body) st
      ++ trace_of (forEach l2 body) (state_after (forEach l1 body) st).
Proof.
  revert st. induction l1 as [|x l1 IH]; intros st; [done|].
  rewrite <- app_comm_cons, !state_forEach_cons, !trace_forEach_cons.
  destruct (IH (state_after (body x) st)) as [-> ->]. by rewrite (assoc (++)).
Qed.

Lemma forEachWith_cons {A B} (x : A) (l : list A) (locals : B)
    (body : B → A → M S E B) st :
  forEachWith (x :: l) locals body st
  = let '(locals', st1, t1) := body locals x st in
    let '(b, st2, t2) := forEachWith l locals' body st1 in
    (b, st2, t1 ++ t2).
Proof. done. Qed.

(** Events emitted by a loop whose body never changes the state. *)
Lemma forEach_emit {A} (l : list A) (e : A → E) st :
  forEach l (λ x, emit (e x)) st = (tt, st, e <$> l).
Proof.
  induction l as [|x l IH]; [done|]. simpl. unfold mbind at 1. simpl.
  by rewrite IH.
Qed.

End runs.

(* --------------------------------------------------------------------- *)
(** ** [SceneGraphComponent::sendSceneUpdate]                             *)
(* --------------------------------------------------------------------- *)

Lemma filter_fmap_all {A B} (p : B → bool) (g : A → B) (l : list A) :
  (∀ x, p (g x) = true) → filter p (g <$> l) = g <$> l.
Proof.
  intros Hp. induction l as [|x l IH]; [done|].
  rewrite fmap_cons, filter_cons, IH.
  destruct (decide (p (g x))) as [|Hn]; [done|]. by rewrite Hp in Hn.
Qed.

Lemma filter_fmap_none {A B} (p : B → bool) (g : A → B) (l : list A) :
  (∀ x, p (g x) = false) → filter p (g <$> l) = [].
Proof.
  intros Hp. induction l as [|x l IH]; [done|].
  rewrite fmap_cons, filter_cons, IH.
  destruct (decide (p (g x))) as [Hy|]; [|done]. by rewrite Hp in Hy.
Qed.

Section sendSceneUpdate_props.
Context `{iresource : IResource} `{codec : !UpdateStreamCodec}.
Implicit Types (this : SceneGraphComponent) (sceneUpdate : SceneUpdate).

Lemma compressResources_run sceneUpdate this :
  compressResources sceneUpdate this
  = (compressedUpdate sceneUpdate, this, compressionPass sceneUpdate).
Proof.
  unfold compressResources, mbind. rewrite forEach_emit. simpl.
  by rewrite app_nil_r.
Qed.

(** One turn of the loop over the destinations. *)
Lemma sendSceneUpdate_to_run (sceneId : SceneId) this (to : Guid)
    (sendToSelf alreadyCompressed : bool) sceneUpdate :
  sendSceneUpdate_to sceneId (sendToSelf, alreadyCompressed, sceneUpdate) to this
  = if decide (m_myID this = to) then
      ((true, alreadyCompressed, sceneUpdate), this, [])
    else
      let sent := if alreadyCompressed then sceneUpdate
                  else compressedUpdate sceneUpdate in
      ((sendToSelf, true, sent), this,
       (if alreadyCompressed then [] else compressionPass sceneUpdate)
       ++ [sendTo this sceneId sent to]).
Proof.
  unfold sendSceneUpdate_to, mbind at 1, getState. simpl.
  destruct (decide (m_myID this = to)); [done|].
  unfold mbind at 1. destruct alreadyCompressed.
  - done.
  - by rewrite compressResources_run.
Qed.

(** The loop over the destinations, from any values of its locals. *)
Lemma sendSceneUpdate_loop (toVec : list Guid) (sceneId : SceneId) this
    (sendToSelf alreadyCompressed : bool) sceneUpdate :
  let remotes := remoteDestinations this toVec in
  let toSelf := sendToSelf || bool_decide (m_myID this ∈ toVec) in
  let sent := if alreadyCompressed then sceneUpdate
              else compressedUpdate sceneUpdate in
  forEachWith toVec (sendToSelf, alreadyCompressed, sceneUpdate)
    (sendSceneUpdate_to sceneId) this
  = if decide (remotes = []) then
      ((toSelf, alreadyCompressed, sceneUpdate), this, [])
    else
      ((toSelf, true, sent), this,
       (if alreadyCompressed then [] else compressionPass sceneUpdate)
       ++ (sendTo this sceneId sent <$> remotes)).
Proof.
  revert sendToSelf alreadyCompressed sceneUpdate.
  induction toVec as [|to toVec IH]; intros sendToSelf alreadyCompressed sceneUpdate.
  { simpl. unfold mret. by rewrite orb_false_r. }
  rewrite forEachWith_cons, sendSceneUpdate_to_run.
  unfold remoteDestinations in *. rewrite filter_cons.
  destruct (decide (m_myID this = to)) as [Heq|Hne];
    destruct (decide (m_myID this ≠ to)) as [Hne'|Heq']; try done.
  - rewrite IH. clear IH. subst to.
    rewrite (bool_decide_eq_true_2 (m_myID this ∈ m_myID this :: toVec))
      by (by left).
    rewrite orb_true_r. simpl.
    by destruct (decide (filter _ toVec = [])).
  - assert (Hmem : bool_decide (m_myID this ∈ to :: toVec)
                   = bool_decide (m_myID this ∈ toVec)).
    { apply bool_decide_ext. rewrite elem_of_cons. naive_solver. }
    rewrite Hmem. rewrite decide_False by done.
    cbv zeta. rewrite IH. clear IH. simpl.
    destruct (decide (filter _ toVec = [])) as [->|]; simpl;
      destruct alreadyCompressed; simpl;
      by rewrite ?app_nil_r, <- ?(assoc (++)).
Qed.

(** The whole of what [sendSceneUpdate] does: one compression pass if
    there is a remote destination, then one send per remote destination,
    each of the same compressed update, then the hand-over to the local
    renderer handler if the local participant is a destination. *)
Lemma sendSceneUpdate_run (toVec : list Guid) sceneUpdate (sceneId : SceneId) this :
  let remotes := remoteDestinations this toVec in
  let sent := if decide (remotes = []) then sceneUpdate
              else compressedUpdate sceneUpdate in
  sendSceneUpdate toVec sceneUpdate sceneId this
  = (tt, this,
     (if decide (remotes = []) then [] else compressionPass sceneUpdate)
     ++ (sendTo this sceneId sent <$> remotes)
     ++ (if bool_decide (m_myID this ∈ toVec) && m_sceneRendererHandler this
         then [RendererHandler_handleSceneUpdate sceneId sent (m_myID this)]
         else [])).
Proof.
  intros remotes sent. unfold sendSceneUpdate, mbind at 1.
  rewrite sendSceneUpdate_loop. fold remotes. subst sent.
  destruct (decide (remotes = [])) as [Hr|Hne]; simpl;
    unfold mbind, getState, when; simpl;
    destruct (bool_decide _ && _); simpl; rewrite ?Hr; simpl;
    by rewrite ?app_nil_r, <- ?(assoc (++)).
Qed.

Lemma filter_compress_sendTo this sceneId sceneUpdate (l : list Guid) :
  filter is_Resource_compress (sendTo this sceneId sceneUpdate <$> l) = [].
Proof. by apply filter_fmap_none. Qed.

Lemma filter_compress_compressionPass sceneUpdate :
  filter is_Resource_compress (compressionPass sceneUpdate)
  = compressionPass sceneUpdate.
Proof. by apply filter_fmap_all. Qed.

Lemma compressionPass_NoDup sceneUpdate : NoDup (compressionPass sceneUpdate).
Proof.
  unfold compressionPass. apply NoDup_fmap_2; [|apply NoDup_seq].
  by intros i j [= ->].
Qed.

Lemma remoteDestinations_all_local this (toVec : list Guid) :
  Forall (λ to, to = m_myID this) toVec → remoteDestinations this toVec = [].
Proof.
  unfold remoteDestinations. induction 1 as [|to l Hto _ IH]; [done|].
  rewrite filter_cons. subst to.
  destruct (decide (m_myID this ≠ m_myID this)); [done|exact IH].
Qed.

(** C2. For every destination list, [sendSceneUpdate] runs the
    [compress(Realtime)] pass over the resources of the update if and only
    if some destination is not the local participant, and then exactly
    once, each resource being compressed once however many remote
    destinations there are (every send carries the same compressed
    update); when every destination is the local participant, nothing is
    compressed or handed to the network, and the update goes as it is to
    the local renderer handler (when one is registered). *)
Theorem sendSceneUpdate_compresses_once_for_remote
    (toVec : list Guid) sceneUpdate (sceneId : SceneId) this :
  let remotes := remoteDestinations this toVec in
  let trace := trace_of (sendSceneUpdate toVec sceneUpdate sceneId) this in
  filter is_Resource_compress trace
    = (if decide (remotes = []) then [] else compressionPass sceneUpdate)
  ∧ NoDup (filter is_Resource_compress trace)
  ∧ filter is_CommunicationSystem_call trace
    = (sendTo this sceneId (compressedUpdate sceneUpdate) <$> remotes)
  ∧ (toVec ≠ [] → Forall (λ to, to = m_myID this) toVec →
     trace = if m_sceneRendererHandler this
             then [RendererHandler_handleSceneUpdate sceneId sceneUpdate
                     (m_myID this)]
             else []).
Proof.
  intros remotes trace. subst trace. unfold trace_of.
  rewrite sendSceneUpdate_run. fold remotes. simpl.
  assert (Hhandler : ∀ b u,
    filter is_Resource_compress
      (if b : bool then [RendererHandler_handleSceneUpdate sceneId u (m_myID this)]
       else []) = []) by (by intros [] ?).
  assert (Hcompress :
    filter is_Resource_compress
      ((if decide (remotes = []) then [] else compressionPass sceneUpdate)
       ++ (sendTo this sceneId
             (if decide (remotes = []) then sceneUpdate
              else compressedUpdate sceneUpdate) <$> remotes)
       ++ (if bool_decide (m_myID this ∈ toVec) && m_sceneRendererHandler this
           then [RendererHandler_handleSceneUpdate sceneId
                   (if decide (remotes = []) then sceneUpdate
                    else compressedUpdate sceneUpdate) (m_myID this)]
           else []))
    = (if decide (remotes = []) then [] else compressionPass sceneUpdate)).
  { rewrite !filter_app, filter_compress_sendTo, Hhandler, !app_nil_r.
    destruct (decide (remotes = [])); [done|].
    apply filter_compress_compressionPass. }
  split_and!.
  - exact Hcompress.
  - rewrite Hcompress. destruct (decide _); [constructor|].
    apply compressionPass_NoDup.
  - rewrite !filter_app.
    assert (H1 : filter is_CommunicationSystem_call
                   (if decide (remotes = []) then []
                    else compressionPass sceneUpdate) = []).
    { destruct (decide _); [done|]. by apply filter_fmap_none. }
    rewrite H1. simpl.
    destruct (decide (remotes = [])) as [->|Hne]; simpl.
    + by destruct (_ && _).
    + rewrite filter_fmap_all by done.
      destruct (_ && _); simpl; by rewrite ?app_nil_r.
  - intros Hne Hall.
    assert (Hremotes : remotes = []).
    { by apply remoteDestinations_all_local. }
    rewrite Hremotes. simpl.
    assert (Hin : m_myID this ∈ toVec).
    { destruct Hall as [|to l Hto]; [done|]. subst to. by left. }
    rewrite (bool_decide_eq_true_2 _ Hin). simpl.
    by destruct (m_sceneRendererHandler this).
Qed.

End sendSceneUpdate_props.

(* --------------------------------------------------------------------- *)
(** ** [SceneGraphComponent::handleNewScenesAvailable]                    *)
(* --------------------------------------------------------------------- *)

(** Runs a member function of the router on a symbolic state: simplifies,
    and splits on the comparisons it meets. *)
Ltac sgc_run :=
  repeat first
    [ progress simpl
    | progress rewrite ?lookup_delete_eq, ?lookup_insert_eq
    | case_decide; try congruence ].

Section handleNewScenesAvailable_props.
Context `{iresource : IResource} `{codec : !UpdateStreamCodec}.
Implicit Types (this : SceneGraphComponent) (newScene : SceneInfo).

(** One publication, by the three states its scene id can be in.  A scene
    tracked for the same provider is unpublished first; what follows is
    the handling of a publication for an untracked scene. *)
Lemma handleNewScenesAvailable_scene_run this (providerID : Guid)
    (featureLevel : EFeatureLevel) newScene :
  let sid := sceneID newScene in
  let accepted this0 :=
    if decide (featureLevel = m_featureLevel this) then
      if decide (publicationMode newScene = EScenePublicationMode_LocalAndRemote)
      then
        (Some tt,
         set_remoteScenes
           (<[sid := mkReceivedScene newScene providerID None]>) this0,
         Log LogLevel_Info Log_handleNewScenesAvailable_scenePublished sid
           providerID
         :: (if m_sceneRendererHandler this
             then [RendererHandler_handleNewSceneAvailable newScene providerID]
             else []))
      else
        (None,
         set_remoteScenes
           (<[sid := mkReceivedScene newScene providerID None]>) this0,
         [Log LogLevel_Info Log_handleNewScenesAvailable_scenePublished sid
            providerID])
    else
      (Some tt, this0,
       [Log LogLevel_Warn Log_handleNewScenesAvailable_mismatchedFeatureLevel
          sid providerID]) in
  handleNewScenesAvailable_scene providerID featureLevel newScene this
  = match m_remoteScenes this !! sid with
    | None =>
        let '(r, this', t) := accepted this in
        (r, this',
         Log LogLevel_Info Log_handleNewScenesAvailable sid providerID :: t)
    | Some existing =>
        if decide (provider existing = providerID) then
          let '(r, this', t) := accepted (set_remoteScenes (delete sid) this) in
          (r, this',
           [Log LogLevel_Info Log_handleNewScenesAvailable sid providerID;
            Log LogLevel_Warn
              Log_handleNewScenesAvailable_duplicatePublishWillUnpublishFirst
              sid providerID]
           ++ (if m_sceneRendererHandler this
               then [RendererHandler_handleSceneBecameUnavailable sid providerID]
               else [])
           ++ t)
        else
          (Some tt, this,
           [Log LogLevel_Info Log_handleNewScenesAvailable sid providerID;
            Log LogLevel_Warn Log_handleNewScenesAvailable_ignoreDuplicateScene
              sid providerID])
    end.
Proof.
  intros sid accepted. subst accepted. unfold handleNewScenesAvailable_scene.
  fold sid. unfold mbind, emit, getState, modifyState, when, mret. simpl.
  destruct (m_remoteScenes this !! sid) as [existing|] eqn:Hlookup;
    destruct (m_sceneRendererHandler this) eqn:Hhandler;
    repeat (sgc_run; rewrite ?Hlookup, ?Hhandler); done.
Qed.

(** The loop over the scenes of a notification, one scene on. *)
Lemma handleNewScenesAvailable_cons this (providerID : Guid)
    (featureLevel : EFeatureLevel) newScene (newScenes : list SceneInfo) :
  let first := handleNewScenesAvailable_scene providerID featureLevel newScene in
  let rest := handleNewScenesAvailable newScenes providerID featureLevel in
  handleNewScenesAvailable (newScene :: newScenes) providerID featureLevel this
  = match result_of first this with
    | Some _ =>
        (result_of rest (state_after first this),
         state_after rest (state_after first this),
         trace_of first this ++ trace_of rest (state_after first this))
    | None => (None, state_after first this, trace_of first this)
    end.
Proof.
  cbv zeta. unfold handleNewScenesAvailable. cbn [forEachAsserting].
  unfold mbind, result_of, state_after, trace_of.
  destruct (handleNewScenesAvailable_scene _ _ _ _) as [[[[]|] this1] t1];
    cbn [fst snd].
  - by destruct (forEachAsserting _ _ _) as [[r this2] t2].
  - unfold mret. by rewrite app_nil_r.
Qed.

(** A publication with a feature level that is not the local one. *)
Lemma handleNewScenesAvailable_scene_mismatch this (providerID : Guid)
    (featureLevel : EFeatureLevel) newScene :
  featureLevel ≠ m_featureLevel this →
  let sid := sceneID newScene in
  let this' := state_after
    (handleNewScenesAvailable_scene providerID featureLevel newScene) this in
  let trace := trace_of
    (handleNewScenesAvailable_scene providerID featureLevel newScene) this in
  result_of (handleNewScenesAvailable_scene providerID featureLevel newScene) this
  = Some tt
  ∧ same_apart_from_remoteScenes this this'
  ∧ m_remoteScenes this' ⊆ m_remoteScenes this
  ∧ (∀ e, m_remoteScenes this' !! sid = Some e → provider e ≠ providerID)
  ∧ (∀ sid', sid' ≠ sid →
       m_remoteScenes this' !! sid' = m_remoteScenes this !! sid')
  ∧ (∀ someScene p, RendererHandler_handleNewSceneAvailable someScene p ∉ trace)
  ∧ Log LogLevel_Info Log_handleNewScenesAvailable sid providerID ∈ trace
  ∧ (Log LogLevel_Warn Log_handleNewScenesAvailable_mismatchedFeatureLevel
       sid providerID ∈ trace
     ∨ Log LogLevel_Warn Log_handleNewScenesAvailable_ignoreDuplicateScene
         sid providerID ∈ trace).
Proof.
  intros Hfl sid this' trace. subst this' trace.
  unfold result_of, state_after, trace_of.
  rewrite handleNewScenesAvailable_scene_run.
  fold sid. cbv zeta.
  destruct (m_remoteScenes this !! sid) as [existing|] eqn:Hlookup;
    repeat (case_decide; try done); simpl.
  - split_and!; try done.
    + apply delete_subseteq.
    + intros e. by rewrite lookup_delete_eq.
    + intros sid' Hne. by rewrite lookup_delete_ne.
    + intros someScene p Hin.
      destruct (m_sceneRendererHandler this); set_solver.
    + set_solver.
    + left. destruct (m_sceneRendererHandler this); set_solver.
  - split_and!; try done.
    + intros e. rewrite Hlookup. by intros [= <-].
    + set_solver.
    + set_solver.
    + right. set_solver.
  - split_and!; try done.
    + intros e. by rewrite Hlookup.
    + set_solver.
    + set_solver.
    + left. set_solver.
Qed.

(** C4. A notification whose feature level is not the local one: no
    scene of it is announced to the renderer handler, the table of remote
    scenes gains no entry (no scene of the notification is tracked for
    this provider afterwards), every publication of it is logged with its
    rejection, every publication of the notification is processed (none
    cuts the loop short), scenes the notification does not name keep their
    entries, and the connection state and the other members are as
    before. *)
Theorem mismatched_feature_level_publication_rejected this
    (newScenes : list SceneInfo) (providerID : Guid) (featureLevel : EFeatureLevel) :
  featureLevel ≠ m_featureLevel this →
  let this' := state_after
    (handleNewScenesAvailable newScenes providerID featureLevel) this in
  let trace := trace_of
    (handleNewScenesAvailable newScenes providerID featureLevel) this in
  (∀ someScene p, RendererHandler_handleNewSceneAvailable someScene p ∉ trace)
  ∧ m_remoteScenes this' ⊆ m_remoteScenes this
  ∧ (∀ newScene e, newScene ∈ newScenes →
       m_remoteScenes this' !! sceneID newScene = Some e →
       provider e ≠ providerID)
  ∧ (∀ newScene, newScene ∈ newScenes →
       Log LogLevel_Info Log_handleNewScenesAvailable
         (sceneID newScene) providerID ∈ trace
       ∧ (Log LogLevel_Warn Log_handleNewScenesAvailable_mismatchedFeatureLevel
            (sceneID newScene) providerID ∈ trace
          ∨ Log LogLevel_Warn Log_handleNewScenesAvailable_ignoreDuplicateScene
              (sceneID newScene) providerID ∈ trace))
  ∧ (∀ sid, sid ∉ sceneID <$> newScenes →
       m_remoteScenes this' !! sid = m_remoteScenes this !! sid)
  ∧ same_apart_from_remoteScenes this this'.
Proof.
  revert this.
  induction newScenes as [|newScene newScenes IH]; intros this Hfl.
  { simpl. split_and!; try done; set_solver. }
  destruct (handleNewScenesAvailable_scene_mismatch this providerID featureLevel
              newScene Hfl)
    as (Hres & Hsame & Hsub & Hprov & Hother & Hnot & Hinfo & Hwarn).
  pose proof (handleNewScenesAvailable_cons this providerID featureLevel
                newScene newScenes) as Hcons.
  cbv zeta in Hcons. rewrite Hres in Hcons.
  set (this1 := state_after
         (handleNewScenesAvailable_scene providerID featureLevel newScene) this) in *.
  set (trace1 := trace_of
         (handleNewScenesAvailable_scene providerID featureLevel newScene) this) in *.
  cbv zeta. unfold state_after at 1 2 3 4, trace_of at 1 2 3 4.
  rewrite Hcons. cbn [fst snd].
  assert (Hfl1 : featureLevel ≠ m_featureLevel this1).
  { destruct Hsame as (_ & _ & -> & _). done. }
  destruct (IH this1 Hfl1) as (Hnot' & Hsub' & Hprov' & Hlog' & Hother' & Hsame').
  clear IH. split_and!.
  - intros someScene p Hin. apply elem_of_app in Hin as [Hin|Hin].
    + by apply (Hnot someScene p).
    + by apply (Hnot' someScene p).
  - by transitivity (m_remoteScenes this1).
  - intros newScene' e Hin Hlookup.
    apply elem_of_cons in Hin as [->|Hin].
    + apply (Hprov e). by apply (lookup_weaken _ _ _ _ Hlookup).
    + by apply (Hprov' newScene' e).
  - intros newScene' Hin. apply elem_of_cons in Hin as [->|Hin].
    + split; [apply elem_of_app; by left|].
      destruct Hwarn; [left|right]; apply elem_of_app; by left.
    + destruct (Hlog' newScene' Hin) as [Hi Hw].
      split; [apply elem_of_app; by right|].
      destruct Hw; [left|right]; apply elem_of_app; by right.
  - intros sid Hsid. rewrite fmap_cons, not_elem_of_cons in Hsid.
    destruct Hsid as [Hne Hsid]. rewrite Hother' by done. by apply Hother.
  - destruct Hsame as (H1 & H2 & H3 & H4 & H5).
    destruct Hsame' as (H1' & H2' & H3' & H4' & H5').
    unfold same_apart_from_remoteScenes. by rewrite H1', H2', H3', H4', H5'.
Qed.

End handleNewScenesAvailable_props.

(* --------------------------------------------------------------------- *)
(** ** Republication of a tracked scene                                   *)
(* --------------------------------------------------------------------- *)

Section republication_props.
Context `{iresource : IResource} `{codec : !UpdateStreamCodec}.
Implicit Types (this : SceneGraphComponent) (newScene : SceneInfo).

Lemma handleScenesBecameUnavailable_tracked this (providerID : Guid) scene existing :
  m_remoteScenes this !! sceneID scene = Some existing →
  handleScenesBecameUnavailable [scene] providerID this
  = (tt, set_remoteScenes (delete (sceneID scene)) this,
     Log LogLevel_Info Log_handleScenesBecameUnavailable (sceneID scene) providerID
     :: (if m_sceneRendererHandler this
         then [RendererHandler_handleSceneBecameUnavailable (sceneID scene) providerID]
         else [])).
Proof.
  intros Hlookup.
  unfold handleScenesBecameUnavailable, forEach,
    handleScenesBecameUnavailable_scene, mbind, emit, getState, modifyState,
    when, mret.
  simpl. rewrite Hlookup. by destruct (m_sceneRendererHandler this).
Qed.

Lemma handleNewScenesAvailable_single this (providerID : Guid)
    (featureLevel : EFeatureLevel) newScene :
  handleNewScenesAvailable [newScene] providerID featureLevel this
  = handleNewScenesAvailable_scene providerID featureLevel newScene this.
Proof.
  unfold handleNewScenesAvailable. simpl. unfold mbind, mret.
  destruct (handleNewScenesAvailable_scene _ _ _ _) as [[[[]|] this'] t];
    by rewrite app_nil_r.
Qed.

(** Whatever the feature level, a publication of a scene tracked for the
    same provider leaves the state that the unpublication followed by the
    publication leaves, and makes the same calls on the renderer handler,
    in the same order. *)
Lemma duplicate_publish_as_unpublish_publish this (providerID : Guid)
    (featureLevel : EFeatureLevel) newScene existing :
  m_remoteScenes this !! sceneID newScene = Some existing →
  provider existing = providerID →
  let publish := handleNewScenesAvailable [newScene] providerID featureLevel in
  let unpublish := handleScenesBecameUnavailable [newScene] providerID in
  state_after publish this = state_after publish (state_after unpublish this)
  ∧ filter is_RendererHandler_call (trace_of publish this)
    = filter is_RendererHandler_call
        (trace_of unpublish this
         ++ trace_of publish (state_after unpublish this)).
Proof.
  intros Hlookup Hprov publish unpublish. subst publish unpublish.
  unfold state_after, trace_of.
  rewrite (handleScenesBecameUnavailable_tracked _ _ _ _ Hlookup).
  rewrite !handleNewScenesAvailable_single,
    !handleNewScenesAvailable_scene_run. simpl.
  rewrite Hlookup, lookup_delete_eq.
  destruct (m_sceneRendererHandler this) eqn:Hhandler;
    repeat (case_decide; simpl; try congruence); done.
Qed.

(** C3, as amended. A publication, at the local feature level, of a scene
    already tracked for the same provider (a scene published
    [LocalAndRemote], as the function asserts of every scene it accepts)
    is handled as an unpublication followed by a publication: the call
    returns; the renderer handler is first told that the scene became
    unavailable, the tracked entry goes with its decoder, the new
    publication gets an entry without a decoder and is announced; the
    outcome is that of [handleScenesBecameUnavailable] followed by
    [handleNewScenesAvailable]; until the scene is initialized no update
    bytes reach a decoder, and initialization installs a newly constructed
    decoder.  A notification that names further scenes goes on with them
    from there. *)
Theorem duplicate_publish_unpublishes_first this (providerID : Guid)
    (featureLevel : EFeatureLevel) newScene existing :
  m_remoteScenes this !! sceneID newScene = Some existing →
  provider existing = providerID →
  featureLevel = m_featureLevel this →
  publicationMode newScene = EScenePublicationMode_LocalAndRemote →
  let sid := sceneID newScene in
  let publish := handleNewScenesAvailable [newScene] providerID featureLevel in
  let unpublish := handleScenesBecameUnavailable [newScene] providerID in
  let this' := state_after publish this in
  trace_of publish this
  = [Log LogLevel_Info Log_handleNewScenesAvailable sid providerID;
     Log LogLevel_Warn
       Log_handleNewScenesAvailable_duplicatePublishWillUnpublishFirst
       sid providerID]
    ++ (if m_sceneRendererHandler this
        then [RendererHandler_handleSceneBecameUnavailable sid providerID]
        else [])
    ++ [Log LogLevel_Info Log_handleNewScenesAvailable_scenePublished
          sid providerID]
    ++ (if m_sceneRendererHandler this
        then [RendererHandler_handleNewSceneAvailable newScene providerID]
        else [])
  ∧ m_remoteScenes this'
    = <[sid := mkReceivedScene newScene providerID None]> (m_remoteScenes this)
  ∧ this' = state_after publish (state_after unpublish this)
  ∧ filter is_RendererHandler_call (trace_of publish this)
    = filter is_RendererHandler_call
        (trace_of unpublish this
         ++ trace_of publish (state_after unpublish this))
  ∧ (∀ actionData someUpdate,
       RendererHandler_handleSceneUpdate sid someUpdate providerID
       ∉ trace_of (handleSceneUpdate sid actionData providerID) this')
  ∧ (m_sceneRendererHandler this = true →
     m_remoteScenes
       (state_after (handleInitializeScene sid providerID) this') !! sid
     = Some (mkReceivedScene newScene providerID
               (Some (SceneUpdateStreamDeserializer_new (m_featureLevel this)))))
  ∧ result_of publish this = Some tt
  ∧ (∀ moreScenes : list SceneInfo,
       let notification :=
         handleNewScenesAvailable (newScene :: moreScenes) providerID
           featureLevel in
       let more := handleNewScenesAvailable moreScenes providerID featureLevel in
       notification this
       = (result_of more this', state_after more this',
          trace_of publish this ++ trace_of more this')).
Proof.
  intros Hlookup Hprov Hfl Hmode sid publish unpublish this'.
  destruct (duplicate_publish_as_unpublish_publish this providerID featureLevel
              newScene existing Hlookup Hprov) as [Hstate Htrace].
  assert (Hscene :
    handleNewScenesAvailable_scene providerID featureLevel newScene this
    = (Some tt,
       set_remoteScenes (<[sid := mkReceivedScene newScene providerID None]>)
         (set_remoteScenes (delete sid) this),
       [Log LogLevel_Info Log_handleNewScenesAvailable sid providerID;
        Log LogLevel_Warn
          Log_handleNewScenesAvailable_duplicatePublishWillUnpublishFirst
          sid providerID]
       ++ (if m_sceneRendererHandler this
           then [RendererHandler_handleSceneBecameUnavailable sid providerID]
           else [])
       ++ Log LogLevel_Info Log_handleNewScenesAvailable_scenePublished
            sid providerID
          :: (if m_sceneRendererHandler this
              then [RendererHandler_handleNewSceneAvailable newScene providerID]
              else []))).
  { rewrite handleNewScenesAvailable_scene_run.
    cbv zeta. rewrite Hlookup.
    repeat (case_decide; simpl; try congruence); done. }
  assert (Hrun : publish this
    = handleNewScenesAvailable_scene providerID featureLevel newScene this).
  { subst publish. cbv beta. apply handleNewScenesAvailable_single. }
  rewrite Hscene in Hrun.
  assert (Hthis' : this'
    = set_remoteScenes (<[sid := mkReceivedScene newScene providerID None]>)
        (set_remoteScenes (delete sid) this)).
  { unfold this', state_after. by rewrite Hrun. }
  split_and!.
  - unfold trace_of. by rewrite Hrun.
  - rewrite Hthis'. simpl. apply insert_delete_eq.
  - exact Hstate.
  - exact Htrace.
  - intros actionData someUpdate. rewrite Hthis'.
    unfold trace_of, handleSceneUpdate, mbind, getState, emit. simpl.
    destruct (m_sceneRendererHandler this); simpl; [|set_solver].
    rewrite lookup_insert_eq. simpl.
    repeat (case_decide; simpl; try congruence); set_solver.
  - intros Hhandler. rewrite Hthis'.
    unfold state_after, handleInitializeScene, mbind, getState, emit,
      modifyState. simpl. rewrite Hhandler. simpl.
    rewrite lookup_insert_eq. simpl.
    repeat (case_decide; simpl; try congruence).
    by rewrite lookup_insert_eq.
  - unfold result_of. by rewrite Hrun.
  - intros moreScenes notification more. subst notification more.
    rewrite handleNewScenesAvailable_cons. cbv zeta.
    assert (result_of (handleNewScenesAvailable_scene providerID featureLevel
                         newScene) this = Some tt) as ->
      by (unfold result_of; by rewrite Hscene).
    assert (state_after (handleNewScenesAvailable_scene providerID featureLevel
                           newScene) this = this') as ->
      by (rewrite Hthis'; unfold state_after; by rewrite Hscene).
    assert (trace_of (handleNewScenesAvailable_scene providerID featureLevel
                        newScene) this = trace_of publish this) as ->
      by (unfold trace_of; by rewrite Hrun, Hscene).
    done.
Qed.

End republication_props.

(** C3 as stated fails when the republication carries another feature
    level than the local one: the tracked scene is unpublished, and the
    new publication is rejected instead of accepted. *)
Lemma duplicate_publish_with_other_feature_level_not_accepted :
  let publish := handleNewScenesAvailable [exampleScene] 2%N 2%N in
  (∃ existing, m_remoteScenes exampleRouter !! mkSceneId 7 = Some existing
               ∧ provider existing = 2%N)
  ∧ m_remoteScenes (state_after publish exampleRouter) !! mkSceneId 7 = None
  ∧ trace_of publish exampleRouter
    = [Log LogLevel_Info Log_handleNewScenesAvailable (mkSceneId 7) 2%N;
       Log LogLevel_Warn
         Log_handleNewScenesAvailable_duplicatePublishWillUnpublishFirst
         (mkSceneId 7) 2%N;
       RendererHandler_handleSceneBecameUnavailable (mkSceneId 7) 2%N;
       Log LogLevel_Warn Log_handleNewScenesAvailable_mismatchedFeatureLevel
         (mkSceneId 7) 2%N].
Proof.
  cbv zeta. split_and!.
  - eexists. split; [by vm_compute|done].
  - by vm_compute.
  - by vm_compute.
Qed.

Lemma duplicate_publish_unpublishes_first_witness :
  let publish := handleNewScenesAvailable [exampleScene] 2%N 1%N in
  filter is_RendererHandler_call (trace_of publish exampleRouter)
  = [RendererHandler_handleSceneBecameUnavailable (mkSceneId 7) 2%N;
     RendererHandler_handleNewSceneAvailable exampleScene 2%N]
  ∧ m_remoteScenes (state_after publish exampleRouter) !! mkSceneId 7
    = Some (mkReceivedScene exampleScene 2%N None).
Proof.
  cbv zeta.
  destruct (duplicate_publish_unpublishes_first exampleRouter 2%N 1%N exampleScene
              exampleTracked)
    as (Htrace & Hstate & _).
  - by vm_compute.
  - reflexivity.
  - reflexivity.
  - reflexivity.
  - split.
    + rewrite Htrace. reflexivity.
    + rewrite Hstate. apply lookup_insert_eq.
Defined.

(** The assertion of [handleNewScenesAvailable], run: a publication of a
    [LocalOnly] scene at the local feature level gets its entry written,
    then the assertion ends the call before the renderer handler is told,
    and a second scene of the notification is not reached. *)
Example handleNewScenesAvailable_asserts_LocalAndRemote :
  let localOnly :=
    mkSceneInfo (mkSceneId 8) "other" EScenePublicationMode_LocalOnly in
  let next :=
    mkSceneInfo (mkSceneId 9) "more" EScenePublicationMode_LocalAndRemote in
  let publish := handleNewScenesAvailable [localOnly; next] 3%N 1%N in
  result_of publish exampleRouter = None
  ∧ m_remoteScenes (state_after publish exampleRouter) !! mkSceneId 8
    = Some (mkReceivedScene localOnly 3%N None)
  ∧ m_remoteScenes (state_after publish exampleRouter) !! mkSceneId 9 = None
  ∧ trace_of publish exampleRouter
    = [Log LogLevel_Info Log_handleNewScenesAvailable (mkSceneId 8) 3%N;
       Log LogLevel_Info Log_handleNewScenesAvailable_scenePublished
         (mkSceneId 8) 3%N].
Proof. cbv zeta. split_and!; by vm_compute. Qed.

Lemma mismatched_feature_level_publication_rejected_witness :
  let publish :=
    handleNewScenesAvailable
      [mkSceneInfo (mkSceneId 8) "other" EScenePublicationMode_LocalAndRemote;
       mkSceneInfo (mkSceneId 9) "more" EScenePublicationMode_LocalAndRemote]
      3%N 2%N in
  m_remoteScenes (state_after publish exampleRouter) ⊆ m_remoteScenes exampleRouter
  ∧ ∀ someScene p,
      RendererHandler_handleNewSceneAvailable someScene p
      ∉ trace_of publish exampleRouter.
Proof.
  cbv zeta.
  destruct (mismatched_feature_level_publication_rejected exampleRouter
              [mkSceneInfo (mkSceneId 8) "other" EScenePublicationMode_LocalAndRemote;
               mkSceneInfo (mkSceneId 9) "more" EScenePublicationMode_LocalAndRemote]
              3%N 2%N)
    as (Hnot & Hsub & _).
  - simpl. lia.
  - split; [exact Hsub|exact Hnot].
Defined.

(* --------------------------------------------------------------------- *)
(** ** [SceneGraphComponent::handleSceneUpdate] on a failed decode        *)
(* --------------------------------------------------------------------- *)

Section handleSceneUpdate_props.
Context `{iresource : IResource} `{codec : !UpdateStreamCodec}.
Implicit Types (this : SceneGraphComponent).

(** Bytes for an initialized scene of the expected provider go to its
    decoder, whose result alone decides what happens. *)
Lemma handleSceneUpdate_decodes this (sceneId : SceneId) (actionData : bytes)
    (providerID : Guid) it deserializer deserializer' result acts res flush :
  m_sceneRendererHandler this = true →
  m_remoteScenes this !! sceneId = Some it →
  provider it = providerID →
  actionData ≠ [] →
  sceneUpdateDeserializer it = Some deserializer →
  processData deserializer actionData = (deserializer', (result, acts, res, flush)) →
  handleSceneUpdate sceneId actionData providerID this
  = (tt,
     set_remoteScenes
       (<[sceneId := mkReceivedScene (info it) (provider it) (Some deserializer')]>)
       this,
     match result with
     | ResultType_Empty => []
     | ResultType_Failed =>
         [Log LogLevel_Error Log_handleSceneUpdate_deserializationFailed
            sceneId providerID]
     | ResultType_HasData =>
         [RendererHandler_handleSceneUpdate sceneId
            (mkSceneUpdate acts res flush) providerID]
     end).
Proof.
  intros Hhandler Hlookup Hprov Hdata Hdes Hprocess.
  unfold handleSceneUpdate, mbind, getState, emit, modifyState, mret. simpl.
  rewrite Hhandler, Hlookup. simpl.
  repeat (case_decide; simpl; try congruence).
  rewrite Hdes, Hprocess. by destruct result.
Qed.

(** C1 on the code. When the decoder of a tracked, initialized scene
    reports [Failed], [handleSceneUpdate] logs an error and does nothing
    else: the renderer handler is not told that the scene became
    unavailable, the scene stays in the table of remote scenes with the
    same decoder instance, and the next bytes for the scene are handed to
    that decoder again, whose result is delivered if it is [HasData]. *)
Theorem handleSceneUpdate_failed_decode_only_logs this (sceneId : SceneId)
    (actionData : bytes) (providerID : Guid) it deserializer deserializer'
    acts res flush :
  m_sceneRendererHandler this = true →
  m_remoteScenes this !! sceneId = Some it →
  provider it = providerID →
  actionData ≠ [] →
  sceneUpdateDeserializer it = Some deserializer →
  processData deserializer actionData
    = (deserializer', (ResultType_Failed, acts, res, flush)) →
  let this' := state_after (handleSceneUpdate sceneId actionData providerID) this in
  trace_of (handleSceneUpdate sceneId actionData providerID) this
    = [Log LogLevel_Error Log_handleSceneUpdate_deserializationFailed
         sceneId providerID]
  ∧ m_remoteScenes this' !! sceneId
    = Some (mkReceivedScene (info it) (provider it) (Some deserializer'))
  ∧ (∀ moreData deserializer'' acts' res' flush',
       moreData ≠ [] →
       processData deserializer' moreData
         = (deserializer'', (ResultType_HasData, acts', res', flush')) →
       trace_of (handleSceneUpdate sceneId moreData providerID) this'
       = [RendererHandler_handleSceneUpdate sceneId
            (mkSceneUpdate acts' res' flush') providerID]).
Proof.
  intros Hhandler Hlookup Hprov Hdata Hdes Hprocess this'.
  pose proof (handleSceneUpdate_decodes this sceneId actionData providerID it
                deserializer deserializer' ResultType_Failed acts res flush
                Hhandler Hlookup Hprov Hdata Hdes Hprocess) as Hrun.
  assert (Hthis' : this'
    = set_remoteScenes
        (<[sceneId := mkReceivedScene (info it) (provider it) (Some deserializer')]>)
        this).
  { unfold this', state_after. by rewrite Hrun. }
  split_and!.
  - unfold trace_of. by rewrite Hrun.
  - rewrite Hthis'. simpl. apply lookup_insert_eq.
  - intros moreData deserializer'' acts' res' flush' Hmore Hprocess'.
    unfold trace_of.
    rewrite (handleSceneUpdate_decodes this' sceneId moreData providerID
               (mkReceivedScene (info it) (provider it) (Some deserializer'))
               deserializer' deserializer'' ResultType_HasData acts' res' flush');
      try done.
    + by rewrite Hthis'.
    + rewrite Hthis'. simpl. apply lookup_insert_eq.
Qed.

End handleSceneUpdate_props.

(** The failing input: the decoder of scene 7 meets an unknown
    discriminant.  The trace holds the error log and no call on the
    renderer handler, and scene 7 is still tracked. *)
Lemma handleSceneUpdate_failed_decode_only_logs_witness :
  let run := handleSceneUpdate (mkSceneId 7) [Byte.xff; Byte.x00] 2%N in
  trace_of run exampleRouter
  = [Log LogLevel_Error Log_handleSceneUpdate_deserializationFailed
       (mkSceneId 7) 2%N]
  ∧ m_remoteScenes (state_after run exampleRouter) !! mkSceneId 7
    = Some (mkReceivedScene exampleScene 2%N (Some true)).
Proof.
  cbv zeta.
  destruct (handleSceneUpdate_failed_decode_only_logs exampleRouter (mkSceneId 7)
              [Byte.xff; Byte.x00] 2%N exampleTracked false true [] [] tt)
    as (Htrace & Hstate & _).
  - reflexivity.
  - by vm_compute.
  - reflexivity.
  - discriminate.
  - reflexivity.
  - reflexivity.
  - split; [exact Htrace|exact Hstate].
Defined.

(* --------------------------------------------------------------------- *)
(** ** [ResourceComponent::resolveResources]                              *)
(* --------------------------------------------------------------------- *)

Section resolveResources_props.
Context `{backend : ResourceComponent.ResourceBackend}.
Import ResourceComponent.
Implicit Types (this : Members) (hashes : list ResourceContentHash).

(** [loadResource] returns in every case; each way of failing gives the
    null handle, and only a retrieved resource reaches the storage. *)
Lemma loadResource_run (h : ResourceContentHash) this :
  loadResource h this
  = match files_getEntry (m_resourceFiles this) h with
    | None => (None, this, [])
    | Some (resourceStream, entry, fileHandle) =>
        let '(files, retrieved) :=
          RetrieveResourceFromStream (m_resourceFiles this) resourceStream entry
            (m_featureLevel this) in
        match retrieved with
        | RetrieveThrew what =>
            (None, set_resourceFiles files this,
             [Log_loadResource_exception what entry fileHandle])
        | RetrievedNull =>
            (None, set_resourceFiles files this,
             [Log_loadResource_noResource entry fileHandle])
        | Retrieved lowLevelResource =>
            let this1 := countLoaded (sizeInBytes entry)
                           (set_resourceFiles files this) in
            let '(storage, mr) :=
              storage_manageResource (m_resourceStorage this) lowLevelResource true in
            (mr, set_resourceStorage storage this1, [])
        end
    end.
Proof.
  unfold loadResource, mbind, getState, modifyState, emit, mret. simpl.
  destruct (files_getEntry _ _) as [[[resourceStream entry] fileHandle]|]; [|done].
  destruct (RetrieveResourceFromStream _ _ _ _) as [files [r| |what]]; simpl;
    try done.
  by destruct (storage_manageResource _ _ _) as [storage mr].
Qed.

(** One hash: the cached resource if the storage has it, else whatever
    loading gives. *)
Lemma resolveResources_hash_run (h : ResourceContentHash) this :
  resolveResources_hash h this
  = let '(storage, cached) := storage_getResource (m_resourceStorage this) h in
    match cached with
    | Some mr => (Some mr, set_resourceStorage storage this, [])
    | None => loadResource h (set_resourceStorage storage this)
    end.
Proof.
  unfold resolveResources_hash, getResource, mbind at 1 2 3, getState,
    modifyState, mret. simpl.
  destruct (storage_getResource _ _) as [storage [mr|]]; simpl; [done|].
  by destruct (loadResource h _) as [[mr' this'] t].
Qed.

(** The loop of [resolveResources], from any values of its locals. *)
Lemma resolveResources_loop hashes (result : list ManagedResource)
    (failed : list ResourceContentHash) this :
  forEachWith hashes (result, failed)
    (λ '(result, failed) h,
       mbind (resolveResources_hash h)
         (λ mr, match mr with
                | Some mr => mret (result ++ [mr], failed)
                | None => mret (result, failed ++ [h])
                end)) this
  = let '(outcomes, this', trace) := resolveEach hashes this in
    ((result ++ resolvedOf outcomes, failed ++ failedOf outcomes), this', trace).
Proof.
  revert result failed this.
  induction hashes as [|h hashes IH]; intros result failed this.
  { simpl. unfold mret. by rewrite !app_nil_r. }
  rewrite forEachWith_cons. simpl. unfold mbind at 1 3.
  destruct (resolveResources_hash h this) as [[mr this1] t1].
  destruct mr as [mr|]; unfold mret at 1; rewrite IH; unfold mbind at 1;
    destruct (resolveEach hashes this1) as [[outcomes this2] t2]; simpl;
    unfold resolvedOf, failedOf; simpl;
    by rewrite ?app_nil_r, <- ?(assoc (++)).
Qed.

Lemma resolveEach_hashes hashes this :
  (result_of (resolveEach hashes) this).*1 = hashes.
Proof.
  revert this. induction hashes as [|h hashes IH]; intros this; [done|].
  simpl. rewrite !result_mbind. simpl. by rewrite IH.
Qed.

Lemma resolved_failed_length
    (outcomes : list (ResourceContentHash * option ManagedResource)) :
  length (resolvedOf outcomes) + length (failedOf outcomes) = length outcomes.
Proof.
  unfold resolvedOf, failedOf.
  induction outcomes as [|[h [mr|]] outcomes IH]; csimpl in *; lia.
Qed.

Lemma resolveEach_state_cons (h : ResourceContentHash) hashes this :
  state_after (resolveEach (h :: hashes)) this
  = state_after (resolveEach hashes) (state_after (resolveResources_hash h) this).
Proof. simpl. by rewrite !state_mbind. Qed.

Lemma resolveEach_trace_cons (h : ResourceContentHash) hashes this :
  trace_of (resolveEach (h :: hashes)) this
  = trace_of (resolveResources_hash h) this
    ++ trace_of (resolveEach hashes) (state_after (resolveResources_hash h) this).
Proof.
  simpl. rewrite !trace_mbind. unfold trace_of at 4. simpl.
  by rewrite app_nil_r.
Qed.

Lemma resolveEach_result_cons (h : ResourceContentHash) hashes this :
  result_of (resolveEach (h :: hashes)) this
  = (h, result_of (resolveResources_hash h) this)
    :: result_of (resolveEach hashes) (state_after (resolveResources_hash h) this).
Proof. simpl. by rewrite !result_mbind. Qed.

(** [resolveResources] by the outcomes of its hashes. *)
Lemma resolveResources_by_outcomes hashes this :
  let outcomes := result_of (resolveEach hashes) this in
  resolveResources hashes this
  = (resolvedOf outcomes, state_after (resolveEach hashes) this,
     trace_of (resolveEach hashes) this
     ++ (if decide (failedOf outcomes = []) then []
         else [Log_resolveResources_failed (failedOf outcomes)])).
Proof.
  intros outcomes.
  unfold resolveResources. unfold mbind at 1. rewrite resolveResources_loop.
  subst outcomes. unfold result_of, state_after, trace_of.
  destruct (resolveEach hashes this) as [[outcomes this'] t]. simpl.
  unfold mbind, when, emit, mret.
  destruct (decide (failedOf outcomes = [])) as [Hnone|Hsome];
    case_bool_decide; try done; simpl; by rewrite ?app_nil_r.
Qed.

(** One hash, in the code and as the claim says it. *)
Lemma resolveResources_hash_spec (h : ResourceContentHash) this :
  resolveResources_hash h this = spec_resolve_hash h this.
Proof.
  rewrite resolveResources_hash_run. unfold spec_resolve_hash.
  destruct (storage_getResource _ _) as [storage [mr|]]; simpl; [done|].
  rewrite loadResource_run. unfold spec_fileBackedLoad. simpl.
  destruct (files_getEntry _ _) as [[[resourceStream entry] fileHandle]|];
    [|done].
  destruct (RetrieveResourceFromStream _ _ _ _) as [files [r| |what]]; simpl;
    try done.
  by destruct (storage_manageResource _ _ _) as [storage' mr].
Qed.

Lemma resolveEach_spec hashes this :
  let outcomes := result_of (resolveEach hashes) this in
  spec_resolve hashes this
  = (resolvedOf outcomes, failedOf outcomes,
     state_after (resolveEach hashes) this, trace_of (resolveEach hashes) this).
Proof.
  revert this. induction hashes as [|h hashes IH]; intros this; [done|].
  cbv zeta. cbn [spec_resolve resolveEach].
  rewrite result_mbind, state_mbind, trace_mbind.
  rewrite <- resolveResources_hash_spec.
  rewrite (run_eta (resolveResources_hash h) this). cbn [fst snd].
  set (mr := result_of (resolveResources_hash h) this).
  set (this1 := state_after (resolveResources_hash h) this).
  rewrite result_mbind, state_mbind, trace_mbind.
  rewrite IH. cbv zeta.
  unfold resolvedOf, failedOf. unfold result_of at 1 3, state_after at 1,
    trace_of at 2, mret. cbn [fst snd]. csimpl.
  rewrite app_nil_r. by destruct mr.
Qed.

Lemma spec_resolve_accounts hashes this :
  let '(handles, failed, this', logs) := spec_resolve hashes this in
  length handles + length failed = length hashes
  ∧ failed `sublist_of` hashes.
Proof.
  revert this. induction hashes as [|h hashes IH]; intros this.
  { simpl. split; [done|constructor]. }
  cbn [spec_resolve].
  destruct (spec_resolve_hash h this) as [[mr this1] logs1].
  specialize (IH this1).
  destruct (spec_resolve hashes this1) as [[[handles failed] this2] logs2].
  destruct IH as [Hlen Hsub].
  destruct mr as [mr|]; simpl; split; try lia.
  - by apply sublist_cons.
  - by apply sublist_skip.
Qed.

(** C5. For every list of hashes, [resolveResources] does what the claim
    describes: each hash resolves to the live resource if the storage
    has one ([storage_getResource]) and otherwise to what the file-backed
    load gives (the registry entry, the read from its stream,
    [storage_manageResource]); a hash that resolves by neither way does
    not end the batch: the hashes after it are processed on the members
    as it left them, the handles of the hashes that resolved are
    returned in order, and the others are reported apart, in order, as
    the list of failed hashes of an error log that is written last and
    exactly when there are any.  Every hash is accounted for, as a handle
    or as a failed hash. *)
Theorem resolveResources_never_aborts hashes this :
  let '(handles, failed, this', logs) := spec_resolve hashes this in
  resolveResources hashes this
  = (handles, this',
     logs ++ (if decide (failed = []) then []
              else [Log_resolveResources_failed failed]))
  ∧ length handles + length failed = length hashes
  ∧ failed `sublist_of` hashes
  ∧ (∀ h mr rest,
       (storage_getResource (m_resourceStorage this) h).2 = Some mr →
       result_of (resolveResources (h :: rest)) this
       = mr :: result_of (resolveResources rest)
                 (set_resourceStorage
                    (storage_getResource (m_resourceStorage this) h).1 this))
  ∧ (∀ h rest,
       (storage_getResource (m_resourceStorage this) h).2 = None →
       files_getEntry (m_resourceFiles this) h = None →
       let this1 :=
         set_resourceStorage
           (storage_getResource (m_resourceStorage this) h).1 this in
       result_of (resolveResources (h :: rest)) this
       = result_of (resolveResources rest) this1
       ∧ state_after (resolveResources (h :: rest)) this
         = state_after (resolveResources rest) this1
       ∧ ∃ failedAfter,
           last (trace_of (resolveResources (h :: rest)) this)
           = Some (Log_resolveResources_failed (h :: failedAfter))).
Proof.
  pose proof (spec_resolve_accounts hashes this) as Haccounts.
  pose proof (resolveEach_spec hashes this) as Hspec. cbv zeta in Hspec.
  pose proof (resolveResources_by_outcomes hashes this) as Hrun.
  cbv zeta in Hrun.
  destruct (spec_resolve hashes this) as [[[handles failed] this'] logs].
  injection Hspec as -> -> -> ->. destruct Haccounts as [Hlen Hsub].
  assert (Hres : ∀ l st, result_of (resolveResources l) st
                         = resolvedOf (result_of (resolveEach l) st)).
  { intros l st. unfold result_of at 1. by rewrite resolveResources_by_outcomes. }
  assert (Hst : ∀ l st, state_after (resolveResources l) st
                        = state_after (resolveEach l) st).
  { intros l st. unfold state_after at 1.
    by rewrite resolveResources_by_outcomes. }
  split_and!; [done|done|done| |].
  - intros h mr rest Hcached.
    assert (Hhash : resolveResources_hash h this
      = (Some mr,
         set_resourceStorage
           (storage_getResource (m_resourceStorage this) h).1 this, [])).
    { rewrite resolveResources_hash_run.
      destruct (storage_getResource _ _) as [storage cached]. simpl in *.
      by subst cached. }
    assert (Hr1 : result_of (resolveResources_hash h) this = Some mr)
      by (unfold result_of; by rewrite Hhash).
    assert (Hs1 : state_after (resolveResources_hash h) this
                  = set_resourceStorage
                      (storage_getResource (m_resourceStorage this) h).1 this)
      by (unfold state_after; by rewrite Hhash).
    rewrite !Hres, resolveEach_result_cons, Hr1, Hs1.
    unfold resolvedOf. by csimpl.
  - intros h rest Hnone Hentry this1.
    assert (Hhash : resolveResources_hash h this = (None, this1, [])).
    { rewrite resolveResources_hash_run. subst this1.
      destruct (storage_getResource _ _) as [storage cached]. simpl in *.
      subst cached. rewrite loadResource_run. simpl. by rewrite Hentry. }
    assert (Hr1 : result_of (resolveResources_hash h) this = None)
      by (unfold result_of; by rewrite Hhash).
    assert (Hs1 : state_after (resolveResources_hash h) this = this1)
      by (unfold state_after; by rewrite Hhash).
    rewrite !Hres, !Hst, resolveEach_result_cons, resolveEach_state_cons,
      Hr1, Hs1.
    split_and!.
    + unfold resolvedOf. by csimpl.
    + done.
    + exists (failedOf (result_of (resolveEach rest) this1)).
      unfold trace_of. rewrite resolveResources_by_outcomes. cbn [snd].
      rewrite resolveEach_result_cons, Hr1, Hs1.
      assert (Hfailed : failedOf ((h, None)
                          :: result_of (resolveEach rest) this1)
                        = h :: failedOf (result_of (resolveEach rest) this1)).
      { unfold failedOf. by csimpl. }
      rewrite Hfailed, decide_False by done. by rewrite last_snoc.
Qed.

End resolveResources_props.

(* --------------------------------------------------------------------- *)
(** ** The model at work                                                  *)
(* --------------------------------------------------------------------- *)

Lemma lex_hash_lt_strict : StrictOrder lex_hash_lt.
Proof.
  split.
  - intros [l h]. unfold complement, lex_hash_lt. simpl. lia.
  - intros [l1 h1] [l2 h2] [l3 h3]. unfold lex_hash_lt. simpl. lia.
Qed.

Lemma lex_hash_lt_trichotomy : Trichotomy lex_hash_lt.
Proof.
  intros [l1 h1] [l2 h2]. unfold lex_hash_lt. simpl.
  destruct (decide (h1 = h2)) as [->|]; destruct (decide (l1 = l2)) as [->|];
    [by right; left|..];
    assert (∀ a b : N, (a < b)%N ∨ (b < a)%N ∨ a = b) as Hcmp by lia.
  - destruct (Hcmp l1 l2) as [?|[?|?]]; [by left; right|by right; right; right|done].
  - destruct (Hcmp h1 h2) as [?|[?|?]]; [by left; left|by right; right; left|done].
  - destruct (Hcmp h1 h2) as [?|[?|?]]; [by left; left|by right; right; left|done].
Qed.

(** The order by high part, then low part, is an [operator<] as
    [std::sort] needs it. *)
Definition LexHashOrder : HashOrder :=
  {| hash_lt := lex_hash_lt;
     hash_lt_dec := lex_hash_lt_dec;
     hash_lt_strict := lex_hash_lt_strict;
     hash_lt_trichotomy := lex_hash_lt_trichotomy |}.

(** The example scene: the effect and buffer of the switched-off
    renderable are left out, the texture [0:3] that the visible
    renderable's layout and a data slot share appears once, the invalid
    sampler texture does not appear. *)
Example GetAllResourcesFromScene_exampleGraph :
  @GetAllResourcesFromScene ExampleDataTypes LexHashOrder exampleGraph
  = [mkResourceContentHash 3 0; mkResourceContentHash 11 0;
     mkResourceContentHash 0 1].
Proof. by vm_compute. Qed.

(** An update for two remote participants and the local one: one
    compression pass, two sends of the compressed update, then the
    hand-over to the local renderer handler. *)
Example sendSceneUpdate_exampleRouter :
  let sceneUpdate :=
    mkSceneUpdate [Byte.x01]
      [setResourceData [Byte.x0a; Byte.x0b] (DummyResource 1 "");
       setResourceData [Byte.x0c] (DummyResource 2 "")] tt in
  trace_of (sendSceneUpdate [2%N; 1%N; 3%N] sceneUpdate (mkSceneId 5)) exampleRouter
  = [Resource_compress 0 CompressionLevel_Realtime;
     Resource_compress 1 CompressionLevel_Realtime;
     sendTo exampleRouter (mkSceneId 5) (compressedUpdate sceneUpdate) 2%N;
     sendTo exampleRouter (mkSceneId 5) (compressedUpdate sceneUpdate) 3%N;
     RendererHandler_handleSceneUpdate (mkSceneId 5)
       (compressedUpdate sceneUpdate) 1%N].
Proof. by vm_compute. Qed.

(** The local participant alone: the update as it is, nothing else. *)
Example sendSceneUpdate_exampleRouter_local :
  let sceneUpdate :=
    mkSceneUpdate [Byte.x01] [setResourceData [Byte.x0a] (DummyResource 1 "")] tt in
  trace_of (sendSceneUpdate [1%N] sceneUpdate (mkSceneId 5)) exampleRouter
  = [RendererHandler_handleSceneUpdate (mkSceneId 5) sceneUpdate 1%N].
Proof. by vm_compute. Qed.

(** A batch of five hashes, two of which cannot be resolved: the three
    handles, the error of the failed read and the list of failed
    hashes. *)
Example resolveResources_exampleResources :
  let hashes :=
    [mkResourceContentHash 1 0; mkResourceContentHash 2 0;
     mkResourceContentHash 3 0; mkResourceContentHash 4 0;
     mkResourceContentHash 2 0] in
  result_of (ResourceComponent.resolveResources hashes) exampleResources
  = [100%N; 200%N; 200%N]
  ∧ trace_of (ResourceComponent.resolveResources hashes) exampleResources
    = [ResourceComponent.Log_loadResource_exception "truncated"
         (exampleEntry (mkResourceContentHash 4 0)) 0%N;
       ResourceComponent.Log_resolveResources_failed
         [mkResourceContentHash 3 0; mkResourceContentHash 4 0]].
Proof. by vm_compute. Qed.

(** The tests' sizes: 1000 bytes stay uncompressed, 1001 bytes get a
    compressed buffer that decompresses to the payload. *)
Example compress_thresholds :
  isCompressedAvailable
    (@compress StoredCodec CompressionLevel_Realtime
       (setResourceData (replicate 1000 Byte.x00)
          (TestResource EResourceType_Invalid 0%N ""))) = false
  ∧ isCompressedAvailable
      (@compress StoredCodec CompressionLevel_Realtime
         (setResourceData (replicate 1001 Byte.x00)
            (TestResource EResourceType_Invalid 0%N ""))) = true
  ∧ isCompressedAvailable
      (@compress StoredCodec CompressionLevel_None
         (setResourceData (replicate 1999 Byte.x00)
            (TestResource EResourceType_Invalid 0%N ""))) = false.
Proof. by vm_compute. Qed.

(** Tests of [ResourceTest.cpp] replayed on the model of [ResourceBase],
    with the stored-block codec and the sum digest. *)
Section ResourceTest.
#[local] Existing Instance StoredCodec.
#[local] Existing Instance SumDigest.

Let zeroBlob : bytes := replicate 2048 Byte.x00.

Example AResource_hasZeroSizesByDefault :
  let emptyRes := TestResource EResourceType_Invalid 0%N "" in
  getDecompressedDataSize emptyRes = 0 ∧ getCompressedDataSize emptyRes = 0.
Proof. done. Qed.

Example AResource_returnsInvalidHashForEmptyResources :
  getHash (DummyResource 0 "") = ResourceContentHash_Invalid.
Proof. done. Qed.

Example AResource_hasGivenHashWhenExplicitlySetForCompressed :
  let someHash := mkResourceContentHash 1234568 0 in
  getHash (setCompressedResourceData (replicate 10 Byte.x00)
             CompressionLevel_Realtime 1 someHash (DummyResource 0 ""))
  = someHash.
Proof. done. Qed.

Example AResource_calculatesValidHashWhenNoneSet :
  getHash (setResourceData zeroBlob (DummyResource 0 ""))
  ≠ ResourceContentHash_Invalid.
Proof. by vm_compute. Qed.

Example AResource_canCompressDecompressSameResource :
  let resA := compress CompressionLevel_Realtime
                (setResourceData zeroBlob (DummyResource 1 "")) in
  decompress resA = Some resA
  ∧ isCompressedAvailable resA = true ∧ isDeCompressedAvailable resA = true.
Proof. by vm_compute. Qed.

Example AResource_canBeCompressedAgainAfterSettingNewResourceData :
  let resA := compress CompressionLevel_Offline
                (setResourceData zeroBlob (DummyResource 1 "")) in
  isCompressedAvailable resA = true
  ∧ isCompressedAvailable (setResourceData zeroBlob resA) = false
  ∧ isCompressedAvailable
      (compress CompressionLevel_Realtime (setResourceData zeroBlob resA)) = true.
Proof. by vm_compute. Qed.

Example AResource_contentSameAfterCompressDecompress :
  let blob := (λ i, byte_of_N (N.of_nat (10 + i))) <$> seq 0 4096 in
  let resA := compress CompressionLevel_Realtime
                (setResourceData blob (DummyResource 0 "")) in
  let resB := setCompressedResourceData
                (default [] (getCompressedResourceData resA))
                CompressionLevel_Realtime (getDecompressedDataSize resA)
                (getHash resA) (DummyResource 0 "") in
  isCompressedAvailable resA = true
  ∧ isDeCompressedAvailable resB = false
  ∧ (getResourceData <$> decompress resB) = Some (getResourceData resA).
Proof. by vm_compute. Qed.

End ResourceTest.

(* ===================================================================== *)
(** * Part III: further properties of the modelled files                  *)
(* ===================================================================== *)

(* --------------------------------------------------------------------- *)
(** ** The receiving side of [SceneGraphComponent]                        *)
(* --------------------------------------------------------------------- *)

Section receiving_side_props.
Context `{iresource : IResource} `{codec : !UpdateStreamCodec}.
Implicit Types (this : SceneGraphComponent).

Lemma handleSceneUpdate_unexpected_run this (sceneId : SceneId)
    (actionData : bytes) (providerID : Guid) :
  update_unexpected this sceneId actionData providerID →
  ∃ message,
    handleSceneUpdate sceneId actionData providerID this
    = (tt, this, [Log LogLevel_Warn message sceneId providerID]).
Proof.
  unfold handleSceneUpdate, mbind, getState, emit, modifyState, mret. simpl.
  intros [Hh|[Hl|(it & Hl & Hcase)]].
  - rewrite Hh. simpl. by eexists.
  - destruct (m_sceneRendererHandler this); simpl; [|by eexists].
    rewrite Hl. by eexists.
  - destruct (m_sceneRendererHandler this); simpl; [|by eexists].
    rewrite Hl. simpl.
    repeat (case_decide; simpl; try by eexists).
    destruct Hcase as [?|[?|Hd]]; [done..|]. rewrite Hd. by eexists.
Qed.

(** Bytes that arrive without a renderer, for a scene that is not
    tracked, from another provider than the one the scene is tracked for,
    without content, or before the scene was initialized are dropped: one
    warning is logged, no update is delivered and the component is as
    before. *)
Theorem handleSceneUpdate_drops_unexpected_bytes this (sceneId : SceneId)
    (actionData : bytes) (providerID : Guid) :
  update_unexpected this sceneId actionData providerID →
  state_after (handleSceneUpdate sceneId actionData providerID) this = this
  ∧ ∃ message,
      trace_of (handleSceneUpdate sceneId actionData providerID) this
      = [Log LogLevel_Warn message sceneId providerID].
Proof.
  intros Hun.
  destruct (handleSceneUpdate_unexpected_run this sceneId actionData providerID Hun)
    as [message Hrun].
  unfold state_after, trace_of. rewrite Hrun. simpl. by eauto.
Qed.

(** [update_unexpected] is decidable, and its negation is the condition
    under which the decoder runs. *)
Lemma update_expected_or_not this (sceneId : SceneId) (actionData : bytes)
    (providerID : Guid) :
  update_unexpected this sceneId actionData providerID
  ∨ ∃ it deserializer,
      m_sceneRendererHandler this = true
      ∧ m_remoteScenes this !! sceneId = Some it
      ∧ provider it = providerID
      ∧ actionData ≠ []
      ∧ sceneUpdateDeserializer it = Some deserializer.
Proof.
  unfold update_unexpected.
  destruct (m_sceneRendererHandler this) eqn:Hh; [|by left; left].
  destruct (m_remoteScenes this !! sceneId) as [it|] eqn:Hl; [|by left; right; left].
  destruct (decide (provider it = providerID)) as [Hp|Hp];
    [|left; right; right; exists it; by eauto].
  destruct (decide (actionData = [])) as [Hd|Hd];
    [left; right; right; exists it; by eauto|].
  destruct (sceneUpdateDeserializer it) as [deserializer|] eqn:Hdes;
    [|left; right; right; exists it; by eauto].
  right. exists it, deserializer. done.
Qed.

(** Whatever bytes arrive, [handleSceneUpdate] keeps the table of remote
    scenes as it is up to the decoder of the addressed scene: the same
    scene ids are tracked, each with the publication info and provider it
    had, scenes other than the addressed one keep their whole entry, the
    other members are untouched, and the renderer handler is called for
    nothing but a scene update. *)
Theorem handleSceneUpdate_keeps_tracking this (sceneId : SceneId)
    (actionData : bytes) (providerID : Guid) :
  let this' := state_after (handleSceneUpdate sceneId actionData providerID) this in
  let trace := trace_of (handleSceneUpdate sceneId actionData providerID) this in
  same_apart_from_remoteScenes this this'
  ∧ (∀ sid, (λ e, (info e, provider e)) <$> m_remoteScenes this' !! sid
            = (λ e, (info e, provider e)) <$> m_remoteScenes this !! sid)
  ∧ (∀ sid, sid ≠ sceneId →
       m_remoteScenes this' !! sid = m_remoteScenes this !! sid)
  ∧ (∀ e, e ∈ trace →
       (∃ level message, e = Log level message sceneId providerID)
       ∨ ∃ sceneUpdate,
           e = RendererHandler_handleSceneUpdate sceneId sceneUpdate providerID).
Proof.
  intros this' trace. subst this' trace.
  destruct (update_expected_or_not this sceneId actionData providerID)
    as [Hun|(it & deserializer & Hh & Hl & Hp & Hd & Hdes)].
  - destruct (handleSceneUpdate_unexpected_run _ _ _ _ Hun) as [message Hrun].
    unfold state_after, trace_of. rewrite Hrun. simpl.
    split_and!; try done.
    intros e He. apply list_elem_of_singleton in He as ->. left. by eauto.
  - destruct (processData deserializer actionData)
      as [deserializer' [[[result acts] res] flush]] eqn:Hprocess.
    unfold state_after, trace_of.
    rewrite (handleSceneUpdate_decodes this sceneId actionData providerID it
               deserializer deserializer' result acts res flush); try done.
    simpl. split_and!; try done.
    + intros sid. destruct (decide (sid = sceneId)) as [->|Hne].
      * by rewrite lookup_insert_eq, Hl.
      * by rewrite lookup_insert_ne.
    + intros sid Hne. by rewrite lookup_insert_ne.
    + intros e He. destruct result.
      * by apply elem_of_nil in He.
      * apply list_elem_of_singleton in He as ->. left. by eauto.
      * apply list_elem_of_singleton in He as ->. right. by eauto.
Qed.

End receiving_side_props.

Lemma handleSceneUpdate_drops_unexpected_bytes_witness :
  state_after (handleSceneUpdate (mkSceneId 8) [Byte.x01] 2%N) exampleRouter
  = exampleRouter.
Proof.
  apply (handleSceneUpdate_drops_unexpected_bytes exampleRouter (mkSceneId 8)
           [Byte.x01] 2%N).
  right. left. by vm_compute.
Defined.

Section initialization_props.
Context `{iresource : IResource} `{codec : !UpdateStreamCodec}.
Implicit Types (this : SceneGraphComponent).

Lemma handleInitializeScene_run this (sceneId : SceneId) (providerID : Guid) :
  handleInitializeScene sceneId providerID this
  = if m_sceneRendererHandler this then
      match m_remoteScenes this !! sceneId with
      | None =>
          (tt, this,
           [Log LogLevel_Info Log_handleInitializeScene sceneId providerID;
            Log LogLevel_Warn Log_handleInitializeScene_unknownScene
              sceneId providerID])
      | Some it =>
          if decide (provider it = providerID) then
            (tt,
             set_remoteScenes
               (<[sceneId := mkReceivedScene (info it) (provider it)
                    (Some (SceneUpdateStreamDeserializer_new (m_featureLevel this)))]>)
               this,
             [Log LogLevel_Info Log_handleInitializeScene sceneId providerID;
              RendererHandler_handleInitializeScene (info it) providerID])
          else
            (tt, this,
             [Log LogLevel_Info Log_handleInitializeScene sceneId providerID;
              Log LogLevel_Warn Log_handleInitializeScene_unexpectedProvider
                sceneId providerID])
      end
    else
      (tt, this,
       [Log LogLevel_Warn Log_handleInitializeScene_noRenderer sceneId providerID]).
Proof.
  unfold handleInitializeScene, mbind, getState, emit, modifyState, mret. simpl.
  destruct (m_sceneRendererHandler this); simpl; [|done].
  destruct (m_remoteScenes this !! sceneId) as [it|]; simpl; [|done].
  repeat (case_decide; simpl; try congruence); done.
Qed.

(** Initializing a scene that is tracked for the sending provider, with a
    renderer registered, replaces whatever decoder the scene had by a
    newly constructed one, keeps its publication info and provider, leaves
    every other scene alone and hands the stored publication info to the
    renderer handler; doing it again changes nothing further. *)
Theorem handleInitializeScene_installs_new_decoder this (sceneId : SceneId)
    (providerID : Guid) it :
  m_sceneRendererHandler this = true →
  m_remoteScenes this !! sceneId = Some it →
  provider it = providerID →
  let init := handleInitializeScene sceneId providerID in
  let this' := state_after init this in
  m_remoteScenes this' !! sceneId
  = Some (mkReceivedScene (info it) providerID
            (Some (SceneUpdateStreamDeserializer_new (m_featureLevel this))))
  ∧ (∀ sid, sid ≠ sceneId →
       m_remoteScenes this' !! sid = m_remoteScenes this !! sid)
  ∧ filter is_RendererHandler_call (trace_of init this)
    = [RendererHandler_handleInitializeScene (info it) providerID]
  ∧ state_after init this' = this'.
Proof.
  intros Hh Hl Hp init this'.
  assert (Hthis' : this'
    = set_remoteScenes
        (<[sceneId := mkReceivedScene (info it) (provider it)
             (Some (SceneUpdateStreamDeserializer_new (m_featureLevel this)))]>)
        this).
  { unfold this', init, state_after. rewrite handleInitializeScene_run, Hh, Hl.
    by rewrite decide_True. }
  split_and!.
  - rewrite Hthis'. simpl. rewrite lookup_insert_eq. by rewrite Hp.
  - intros sid Hne. rewrite Hthis'. simpl. by rewrite lookup_insert_ne.
  - unfold init, trace_of. rewrite handleInitializeScene_run, Hh, Hl.
    by rewrite decide_True.
  - rewrite Hthis'. unfold init, state_after.
    rewrite handleInitializeScene_run. simpl.
    rewrite Hh, lookup_insert_eq. simpl.
    case_decide; [|done].
    unfold set_remoteScenes. simpl. by rewrite insert_insert_eq.
Qed.

(** An initialization that arrives without a renderer, for a scene that
    is not tracked, or from another provider than the one the scene is
    tracked for changes nothing and does not reach the renderer handler. *)
Theorem handleInitializeScene_ignores_unexpected this (sceneId : SceneId)
    (providerID : Guid) :
  (m_sceneRendererHandler this = false
   ∨ m_remoteScenes this !! sceneId = None
   ∨ ∃ it, m_remoteScenes this !! sceneId = Some it ∧ provider it ≠ providerID) →
  state_after (handleInitializeScene sceneId providerID) this = this
  ∧ filter is_RendererHandler_call
      (trace_of (handleInitializeScene sceneId providerID) this) = [].
Proof.
  unfold state_after, trace_of. rewrite handleInitializeScene_run.
  intros [Hh|[Hl|(it & Hl & Hp)]].
  - by rewrite Hh.
  - rewrite Hl. by destruct (m_sceneRendererHandler this).
  - rewrite Hl. rewrite decide_False by done.
    by destruct (m_sceneRendererHandler this).
Qed.

End initialization_props.

Lemma handleInitializeScene_installs_new_decoder_witness :
  m_remoteScenes
    (state_after (handleInitializeScene (mkSceneId 7) 2%N) exampleRouter)
    !! mkSceneId 7
  = Some (mkReceivedScene exampleScene 2%N (Some false)).
Proof.
  assert (Hl : m_remoteScenes exampleRouter !! mkSceneId 7 = Some exampleTracked)
    by (by vm_compute).
  exact (proj1 (handleInitializeScene_installs_new_decoder exampleRouter
                  (mkSceneId 7) 2%N exampleTracked eq_refl Hl eq_refl)).
Defined.

Lemma handleInitializeScene_ignores_unexpected_witness :
  state_after (handleInitializeScene (mkSceneId 7) 3%N) exampleRouter
  = exampleRouter.
Proof.
  apply (handleInitializeScene_ignores_unexpected exampleRouter (mkSceneId 7) 3%N).
  right. right. exists exampleTracked. split; [by vm_compute|]. simpl. lia.
Defined.

Section unpublication_props.
Context `{iresource : IResource} `{codec : !UpdateStreamCodec}.
Implicit Types (this : SceneGraphComponent).

Lemma remoteScenes_set_remoteScenes f this :
  m_remoteScenes (set_remoteScenes f this) = f (m_remoteScenes this).
Proof. done. Qed.

Lemma rendererHandler_set_remoteScenes f this :
  m_sceneRendererHandler (set_remoteScenes f this) = m_sceneRendererHandler this.
Proof. done. Qed.

Lemma same_apart_set_remoteScenes_l f this this' :
  same_apart_from_remoteScenes (set_remoteScenes f this) this' →
  same_apart_from_remoteScenes this this'.
Proof. done. Qed.

Lemma handleScenesBecameUnavailable_scene_run this (providerID : Guid)
    (scene : SceneInfo) :
  handleScenesBecameUnavailable_scene providerID scene this
  = match m_remoteScenes this !! sceneID scene with
    | Some _ =>
        (tt, set_remoteScenes (delete (sceneID scene)) this,
         Log LogLevel_Info Log_handleScenesBecameUnavailable
           (sceneID scene) providerID
         :: (if m_sceneRendererHandler this
             then [RendererHandler_handleSceneBecameUnavailable
                     (sceneID scene) providerID]
             else []))
    | None =>
        (tt, this,
         [Log LogLevel_Info Log_handleScenesBecameUnavailable
            (sceneID scene) providerID;
          Log LogLevel_Warn Log_handleScenesBecameUnavailable_unknownScene
            (sceneID scene) providerID])
    end.
Proof.
  unfold handleScenesBecameUnavailable_scene, mbind, emit, getState,
    modifyState, when, mret. simpl.
  destruct (m_remoteScenes this !! sceneID scene); simpl; [|done].
  by destruct (m_sceneRendererHandler this).
Qed.

(** After an unpublication none of the scenes it names is tracked,
    whichever provider each was tracked for (the sender is not compared
    with it); scenes it does not name keep their entries and the other
    members are untouched; and the renderer handler is told that a scene
    became unavailable exactly for the named scenes that were tracked. *)
Theorem handleScenesBecameUnavailable_untracks this
    (unavailableScenes : list SceneInfo) (providerID : Guid) :
  let unpublish := handleScenesBecameUnavailable unavailableScenes providerID in
  let this' := state_after unpublish this in
  (∀ scene, scene ∈ unavailableScenes →
     m_remoteScenes this' !! sceneID scene = None)
  ∧ (∀ sid, sid ∉ sceneID <$> unavailableScenes →
       m_remoteScenes this' !! sid = m_remoteScenes this !! sid)
  ∧ same_apart_from_remoteScenes this this'
  ∧ (∀ sid q,
       RendererHandler_handleSceneBecameUnavailable sid q ∈ trace_of unpublish this
       ↔ q = providerID
         ∧ m_sceneRendererHandler this = true
         ∧ sid ∈ sceneID <$> unavailableScenes
         ∧ is_Some (m_remoteScenes this !! sid)).
Proof.
  unfold handleScenesBecameUnavailable. revert this.
  induction unavailableScenes as [|scene scenes IH]; intros this.
  { cbv zeta. split_and!; try done; [set_solver|].
    intros sid q. unfold trace_of. simpl. set_solver. }
  cbv zeta. rewrite state_forEach_cons, trace_forEach_cons.
  pose proof (handleScenesBecameUnavailable_scene_run this providerID scene) as Hrun.
  set (this1 := state_after
         (handleScenesBecameUnavailable_scene providerID scene) this) in *.
  set (trace1 := trace_of
         (handleScenesBecameUnavailable_scene providerID scene) this) in *.
  assert (Hrun1 : handleScenesBecameUnavailable_scene providerID scene this
                  = (tt, this1, trace1)).
  { unfold this1, trace1. rewrite (run_eta _ this) at 1.
    by destruct (result_of _ this). }
  rewrite Hrun1 in Hrun. clear Hrun1.
  destruct (IH this1) as (Hgone & Hother & Hsame & Hcalls). clear IH.
  clearbody this1 trace1. rewrite fmap_cons.
  assert (Hdup : ∀ scene', scene' ∈ scene :: scenes →
            sceneID scene' ∈ sceneID <$> scenes ∨ scene' = scene
                                                  ∧ sceneID scene ∉ sceneID <$> scenes).
  { intros scene' Hin.
    destruct (decide (sceneID scene' ∈ sceneID <$> scenes)); [by left|].
    apply elem_of_cons in Hin as [->|Hin]; [by right|].
    destruct n. by apply list_elem_of_fmap_2. }
  destruct (m_remoteScenes this !! sceneID scene) as [existing|] eqn:Hl;
    injection Hrun as -> ->.
  - rewrite remoteScenes_set_remoteScenes in *.
    rewrite rendererHandler_set_remoteScenes in Hcalls.
    split_and!.
    + intros scene' Hin. destruct (Hdup scene' Hin) as [Hin'|[-> Hnew]].
      * apply list_elem_of_fmap in Hin' as (scene'' & Heq & Hin'').
        rewrite Heq. by apply Hgone.
      * rewrite Hother by done. apply lookup_delete_eq.
    + intros sid Hsid. rewrite not_elem_of_cons in Hsid.
      destruct Hsid as [Hne Hsid]. rewrite Hother by done.
      by rewrite lookup_delete_ne.
    + exact Hsame.
    + intros sid q. rewrite elem_of_app, Hcalls, !elem_of_cons.
      assert (Hdel : is_Some (delete (sceneID scene) (m_remoteScenes this) !! sid)
                     ↔ sid ≠ sceneID scene ∧ is_Some (m_remoteScenes this !! sid)).
      { destruct (decide (sid = sceneID scene)) as [->|Hne].
        - rewrite lookup_delete_eq. split; [by intros []|by intros []].
        - rewrite lookup_delete_ne by done. naive_solver. }
      rewrite Hdel. clear Hdel.
      assert (Hsome : is_Some (m_remoteScenes this !! sceneID scene))
        by (by rewrite Hl).
      destruct (m_sceneRendererHandler this) eqn:Hh.
      * rewrite list_elem_of_singleton.
        destruct (decide (sid = sceneID scene)) as [->|Hne]; naive_solver.
      * rewrite elem_of_nil. naive_solver.
  - split_and!.
    + intros scene' Hin. destruct (Hdup scene' Hin) as [Hin'|[-> Hnew]].
      * apply list_elem_of_fmap in Hin' as (scene'' & Heq & Hin'').
        rewrite Heq. by apply Hgone.
      * by rewrite Hother.
    + intros sid Hsid. rewrite not_elem_of_cons in Hsid.
      destruct Hsid as [Hne Hsid]. by rewrite Hother.
    + exact Hsame.
    + intros sid q. rewrite elem_of_app, Hcalls, !elem_of_cons, elem_of_nil.
      assert (Hnone : ¬ is_Some (m_remoteScenes this !! sceneID scene)).
      { rewrite Hl. by intros []. }
      destruct (decide (sid = sceneID scene)) as [->|Hne]; naive_solver.
Qed.

End unpublication_props.

Section publication_props.
Context `{iresource : IResource} `{codec : !UpdateStreamCodec}.
Implicit Types (this : SceneGraphComponent) (newScene : SceneInfo).

Lemma set_remoteScenes_id this f :
  f (m_remoteScenes this) = m_remoteScenes this → set_remoteScenes f this = this.
Proof. destruct this. unfold set_remoteScenes. simpl. by intros ->. Qed.

Lemma set_remoteScenes_compose this f g :
  set_remoteScenes g (set_remoteScenes f this) = set_remoteScenes (g ∘ f) this.
Proof. done. Qed.

(** A scene that was not tracked, published [LocalAndRemote] (as the
    function asserts of every scene it accepts) at the local feature
    level and then unpublished by the same notification content, leaves
    the component exactly as it was; the publication returns, and the
    renderer handler has seen the scene become available, then
    unavailable. *)
Theorem publish_then_unpublish_restores this (providerID : Guid)
    (featureLevel : EFeatureLevel) newScene :
  m_remoteScenes this !! sceneID newScene = None →
  featureLevel = m_featureLevel this →
  publicationMode newScene = EScenePublicationMode_LocalAndRemote →
  let publish := handleNewScenesAvailable [newScene] providerID featureLevel in
  let unpublish := handleScenesBecameUnavailable [newScene] providerID in
  m_remoteScenes (state_after publish this) !! sceneID newScene
  = Some (mkReceivedScene newScene providerID None)
  ∧ state_after unpublish (state_after publish this) = this
  ∧ filter is_RendererHandler_call
      (trace_of publish this ++ trace_of unpublish (state_after publish this))
    = (if m_sceneRendererHandler this
       then [RendererHandler_handleNewSceneAvailable newScene providerID;
             RendererHandler_handleSceneBecameUnavailable
               (sceneID newScene) providerID]
       else [])
  ∧ result_of publish this = Some tt.
Proof.
  intros Hl Hfl Hmode publish unpublish.
  assert (Hpub : publish this
    = (Some tt,
       set_remoteScenes
         (<[sceneID newScene := mkReceivedScene newScene providerID None]>) this,
       [Log LogLevel_Info Log_handleNewScenesAvailable (sceneID newScene) providerID;
        Log LogLevel_Info Log_handleNewScenesAvailable_scenePublished
          (sceneID newScene) providerID]
       ++ (if m_sceneRendererHandler this
           then [RendererHandler_handleNewSceneAvailable newScene providerID]
           else []))).
  { unfold publish.
    rewrite handleNewScenesAvailable_single, handleNewScenesAvailable_scene_run.
    cbv zeta. rewrite Hl. by repeat case_decide. }
  unfold result_of, state_after, trace_of. rewrite Hpub. simpl.
  unfold unpublish.
  rewrite (handleScenesBecameUnavailable_tracked _ _ _
             (mkReceivedScene newScene providerID None))
    by (simpl; apply lookup_insert_eq).
  simpl. split_and!.
  - apply lookup_insert_eq.
  - rewrite set_remoteScenes_compose. apply set_remoteScenes_id. simpl.
    rewrite delete_insert_eq. by apply delete_id.
  - by destruct (m_sceneRendererHandler this).
  - done.
Qed.

(** A publication never displaces a scene that is tracked for another
    provider: whatever its feature level, a notification all of whose
    scenes are tracked for other providers changes nothing and does not
    reach the renderer handler. *)
Theorem publication_from_other_provider_ignored this
    (newScenes : list SceneInfo) (providerID : Guid) (featureLevel : EFeatureLevel) :
  Forall (λ newScene,
            ∃ existing, m_remoteScenes this !! sceneID newScene = Some existing
                        ∧ provider existing ≠ providerID) newScenes →
  state_after (handleNewScenesAvailable newScenes providerID featureLevel) this
  = this
  ∧ filter is_RendererHandler_call
      (trace_of (handleNewScenesAvailable newScenes providerID featureLevel) this)
    = [].
Proof.
  induction 1 as [|newScene newScenes (existing & Hl & Hp) _ IH]; [done|].
  assert (Hrun : handleNewScenesAvailable_scene providerID featureLevel newScene this
    = (Some tt, this,
       [Log LogLevel_Info Log_handleNewScenesAvailable (sceneID newScene) providerID;
        Log LogLevel_Warn Log_handleNewScenesAvailable_ignoreDuplicateScene
          (sceneID newScene) providerID])).
  { rewrite handleNewScenesAvailable_scene_run. cbv zeta. rewrite Hl.
    by case_decide. }
  pose proof (handleNewScenesAvailable_cons this providerID featureLevel
                newScene newScenes) as Hcons.
  cbv zeta in Hcons.
  assert (result_of (handleNewScenesAvailable_scene providerID featureLevel
                       newScene) this = Some tt) as Hres
    by (unfold result_of; by rewrite Hrun).
  assert (state_after (handleNewScenesAvailable_scene providerID featureLevel
                         newScene) this = this) as Hst
    by (unfold state_after; by rewrite Hrun).
  assert (filter is_RendererHandler_call
            (trace_of (handleNewScenesAvailable_scene providerID featureLevel
                         newScene) this) = []) as Htr
    by (unfold trace_of; by rewrite Hrun).
  rewrite Hres, Hst in Hcons.
  destruct IH as [Hstate Htrace].
  unfold state_after at 1, trace_of at 1. rewrite Hcons. cbn [fst snd].
  split; [done|]. by rewrite filter_app, Htr, Htrace.
Qed.

End publication_props.

Lemma publish_then_unpublish_restores_witness :
  let newScene :=
    mkSceneInfo (mkSceneId 8) "other" EScenePublicationMode_LocalAndRemote in
  state_after (handleScenesBecameUnavailable [newScene] 3%N)
    (state_after (handleNewScenesAvailable [newScene] 3%N 1%N) exampleRouter)
  = exampleRouter.
Proof.
  cbv zeta.
  assert (Hl : m_remoteScenes exampleRouter !! mkSceneId 8 = None)
    by (by vm_compute).
  exact (proj1 (proj2 (publish_then_unpublish_restores exampleRouter 3%N 1%N
    (mkSceneInfo (mkSceneId 8) "other" EScenePublicationMode_LocalAndRemote)
    Hl eq_refl eq_refl))).
Defined.

Lemma publication_from_other_provider_ignored_witness :
  state_after (handleNewScenesAvailable [exampleScene] 3%N 1%N) exampleRouter
  = exampleRouter.
Proof.
  apply (publication_from_other_provider_ignored exampleRouter [exampleScene]
           3%N 1%N).
  constructor; [|constructor].
  exists exampleTracked. split; [by vm_compute|]. simpl. lia.
Defined.

Section local_delivery_props.
Context `{iresource : IResource} `{codec : !UpdateStreamCodec}.
Implicit Types (this : SceneGraphComponent) (sceneUpdate : SceneUpdate).

(** [sendSceneUpdate] changes no member of the component.  The local
    renderer handler is called exactly when the local participant is among
    the destinations and a renderer is registered, once, after everything
    was handed to the network; and since the resources are shared it then
    receives the update with its resources compressed whenever some
    destination is remote. *)
Theorem sendSceneUpdate_local_delivery_last (toVec : list Guid) sceneUpdate
    (sceneId : SceneId) this :
  let trace := trace_of (sendSceneUpdate toVec sceneUpdate sceneId) this in
  let delivered :=
    RendererHandler_handleSceneUpdate sceneId
      (if decide (remoteDestinations this toVec = []) then sceneUpdate
       else compressedUpdate sceneUpdate) (m_myID this) in
  state_after (sendSceneUpdate toVec sceneUpdate sceneId) this = this
  ∧ if bool_decide (m_myID this ∈ toVec) && m_sceneRendererHandler this
    then ∃ before, trace = before ++ [delivered]
                   ∧ filter is_RendererHandler_call before = []
    else filter is_RendererHandler_call trace = [].
Proof.
  intros trace delivered. subst trace delivered.
  unfold state_after, trace_of. rewrite sendSceneUpdate_run. simpl.
  split; [done|].
  set (remotes := remoteDestinations this toVec).
  assert (Hnet : ∀ u,
    filter is_RendererHandler_call
      ((if decide (remotes = []) then [] else compressionPass sceneUpdate)
       ++ (sendTo this sceneId u <$> remotes)) = []).
  { intros u. rewrite filter_app, (filter_fmap_none _ _ remotes) by done.
    destruct (decide _); [done|]. rewrite app_nil_r.
    by apply filter_fmap_none. }
  destruct (bool_decide _ && _).
  - eexists. rewrite (assoc (++)). split; [done|]. apply Hnet.
  - rewrite app_nil_r. apply Hnet.
Qed.

End local_delivery_props.

(* --------------------------------------------------------------------- *)
(** ** Loading and resolving in [ResourceComponent]                       *)
(* --------------------------------------------------------------------- *)

Section loading_props.
Context `{backend : ResourceComponent.ResourceBackend}.
Import ResourceComponent.
Implicit Types (this : Members) (hashes : list ResourceContentHash).

(** What one call of [loadResource] does to the component, by how the
    read ends.  Without a file entry for the hash nothing happens at all;
    a read that throws or returns no resource gives the null handle and
    one error log and leaves the storage and the counters alone; only a
    resource that was read reaches the storage (with deletion allowed),
    and only then are the two counters raised, by one and by the size of
    the entry. *)
Theorem loadResource_accounts_for_what_it_read (h : ResourceContentHash) this :
  let this' := state_after (loadResource h) this in
  let trace := trace_of (loadResource h) this in
  let mr := result_of (loadResource h) this in
  m_featureLevel this' = m_featureLevel this
  ∧ match files_getEntry (m_resourceFiles this) h with
    | None => this' = this ∧ trace = [] ∧ mr = None
    | Some (resourceStream, entry, fileHandle) =>
        let read := RetrieveResourceFromStream (m_resourceFiles this)
                      resourceStream entry (m_featureLevel this) in
        m_resourceFiles this' = read.1
        ∧ match read.2 with
          | Retrieved lowLevelResource =>
              trace = []
              ∧ (m_resourceStorage this', mr)
                = storage_manageResource (m_resourceStorage this)
                    lowLevelResource true
              ∧ statResourcesLoadedFromFileNumber (m_statistics this')
                = (statResourcesLoadedFromFileNumber (m_statistics this) + 1)%N
              ∧ statResourcesLoadedFromFileSize (m_statistics this')
                = (statResourcesLoadedFromFileSize (m_statistics this)
                   + sizeInBytes entry)%N
          | RetrievedNull =>
              mr = None
              ∧ trace = [Log_loadResource_noResource entry fileHandle]
              ∧ m_resourceStorage this' = m_resourceStorage this
              ∧ m_statistics this' = m_statistics this
          | RetrieveThrew what =>
              mr = None
              ∧ trace = [Log_loadResource_exception what entry fileHandle]
              ∧ m_resourceStorage this' = m_resourceStorage this
              ∧ m_statistics this' = m_statistics this
          end
    end.
Proof.
  intros this' trace mr. subst this' trace mr.
  unfold state_after, trace_of, result_of. rewrite loadResource_run.
  destruct (files_getEntry _ _) as [[[resourceStream entry] fileHandle]|];
    [|done].
  destruct (RetrieveResourceFromStream _ _ _ _) as [files [r| |what]]; simpl;
    try done.
  destruct (storage_manageResource _ _ _) as [storage mr]. done.
Qed.

(** One hash of a batch raises the counter of loaded resources by at most
    one, never lowers the counter of loaded bytes and keeps the feature
    level. *)
Lemma resolveResources_hash_counters (h : ResourceContentHash) this :
  let this' := state_after (resolveResources_hash h) this in
  m_featureLevel this' = m_featureLevel this
  ∧ (statResourcesLoadedFromFileNumber (m_statistics this)
     ≤ statResourcesLoadedFromFileNumber (m_statistics this'))%N
  ∧ (statResourcesLoadedFromFileNumber (m_statistics this')
     ≤ statResourcesLoadedFromFileNumber (m_statistics this) + 1)%N
  ∧ (statResourcesLoadedFromFileSize (m_statistics this)
     ≤ statResourcesLoadedFromFileSize (m_statistics this'))%N.
Proof.
  cbv zeta. unfold state_after. rewrite resolveResources_hash_run.
  destruct (storage_getResource _ _) as [storage [mr|]]; simpl; [lia|].
  rewrite loadResource_run. simpl.
  destruct (files_getEntry _ _) as [[[resourceStream entry] fileHandle]|];
    simpl; [|lia].
  destruct (RetrieveResourceFromStream _ _ _ _) as [files [r| |what]]; simpl;
    try lia.
  destruct (storage_manageResource _ _ _) as [storage' mr]. simpl. lia.
Qed.

(** [resolveResources] in one step: the outcomes of the hashes, then the
    error log when some hash got no handle. *)
Lemma resolveResources_run hashes this :
  resolveResources hashes this
  = (resolvedOf (result_of (resolveEach hashes) this),
     state_after (resolveEach hashes) this,
     trace_of (resolveEach hashes) this
     ++ (if bool_decide (failedOf (result_of (resolveEach hashes) this) ≠ [])
         then [Log_resolveResources_failed
                 (failedOf (result_of (resolveEach hashes) this))]
         else [])).
Proof.
  unfold resolveResources, mbind at 1. rewrite resolveResources_loop.
  unfold result_of, state_after, trace_of.
  destruct (resolveEach hashes this) as [[outcomes this'] t]. simpl.
  unfold mbind, when, emit, mret.
  by case_bool_decide.
Qed.

(** Over a whole batch the counter of resources loaded from file never
    goes down and rises by at most the number of hashes asked for, the
    counter of loaded bytes never goes down, and the feature level stays
    what it was. *)
Theorem resolveResources_counts_at_most_the_batch hashes this :
  let this' := state_after (resolveResources hashes) this in
  m_featureLevel this' = m_featureLevel this
  ∧ (statResourcesLoadedFromFileNumber (m_statistics this)
     ≤ statResourcesLoadedFromFileNumber (m_statistics this'))%N
  ∧ (statResourcesLoadedFromFileNumber (m_statistics this')
     ≤ statResourcesLoadedFromFileNumber (m_statistics this)
       + N.of_nat (length hashes))%N
  ∧ (statResourcesLoadedFromFileSize (m_statistics this)
     ≤ statResourcesLoadedFromFileSize (m_statistics this'))%N.
Proof.
  cbv zeta.
  assert (Hstate : state_after (resolveResources hashes) this
                   = state_after (resolveEach hashes) this).
  { unfold state_after at 1. by rewrite resolveResources_run. }
  rewrite Hstate. clear Hstate. revert this.
  induction hashes as [|h hashes IH]; intros this.
  { unfold state_after. simpl. lia. }
  rewrite resolveEach_state_cons.
  destruct (resolveResources_hash_counters h this) as (Hf & Hn1 & Hn2 & Hs).
  destruct (IH (state_after (resolveResources_hash h) this))
    as (Hf' & Hn1' & Hn2' & Hs').
  rewrite Hf'. simpl length. split_and!; [done|lia..].
Qed.

(** A batch over [l1 ++ l2] returns the handles of [l1] followed by the
    handles of [l2] resolved on the state the batch over [l1] left, and
    ends in the state the two batches one after the other end in; the
    empty batch returns no handle, logs nothing and changes nothing. *)
Theorem resolveResources_app (l1 l2 : list ResourceContentHash) this :
  let this1 := state_after (resolveResources l1) this in
  result_of (resolveResources (l1 ++ l2)) this
  = result_of (resolveResources l1) this ++ result_of (resolveResources l2) this1
  ∧ state_after (resolveResources (l1 ++ l2)) this
    = state_after (resolveResources l2) this1
  ∧ resolveResources [] this = ([], this, []).
Proof.
  cbv zeta.
  assert (Hrun : ∀ hashes this0,
    result_of (resolveResources hashes) this0
    = resolvedOf (result_of (resolveEach hashes) this0)
    ∧ state_after (resolveResources hashes) this0
      = state_after (resolveEach hashes) this0).
  { intros hashes this0.
    unfold result_of at 1, state_after at 1. by rewrite resolveResources_run. }
  split_and!; [| |done].
  - rewrite !(proj1 (Hrun _ _)), (proj2 (Hrun l1 this)). clear Hrun.
    revert this. induction l1 as [|h l1 IH]; intros this; [done|].
    rewrite <- app_comm_cons, !resolveEach_result_cons, resolveEach_state_cons.
    unfold resolvedOf in *. csimpl. rewrite IH.
    by destruct (result_of (resolveResources_hash h) this).
  - rewrite !(proj2 (Hrun _ _)). clear Hrun.
    revert this. induction l1 as [|h l1 IH]; intros this; [done|].
    rewrite <- app_comm_cons, !resolveEach_state_cons. apply IH.
Qed.

(** When the storage has every hash of the batch (as long as it is in a
    condition [P] that looking a hash up preserves), [resolveResources]
    does not go to the files at all: the file registry and the counters
    are untouched, nothing is logged, and every hash gets its handle. *)
Theorem resolveResources_cached_reads_no_file (P : ResourceStorage → Prop)
    hashes this :
  P (m_resourceStorage this) →
  (∀ storage h, P storage → h ∈ hashes →
     P (storage_getResource storage h).1
     ∧ is_Some (storage_getResource storage h).2) →
  let this' := state_after (resolveResources hashes) this in
  m_resourceFiles this' = m_resourceFiles this
  ∧ m_statistics this' = m_statistics this
  ∧ trace_of (resolveResources hashes) this = []
  ∧ length (result_of (resolveResources hashes) this) = length hashes.
Proof.
  intros HP Hcached. cbv zeta.
  assert (Heach :
    m_resourceFiles (state_after (resolveEach hashes) this) = m_resourceFiles this
    ∧ m_statistics (state_after (resolveEach hashes) this) = m_statistics this
    ∧ trace_of (resolveEach hashes) this = []
    ∧ failedOf (result_of (resolveEach hashes) this) = []
    ∧ length (resolvedOf (result_of (resolveEach hashes) this)) = length hashes).
  { revert this HP. induction hashes as [|h hashes IH]; intros this HP; [done|].
    rewrite resolveEach_state_cons, resolveEach_trace_cons,
      resolveEach_result_cons.
    destruct (Hcached (m_resourceStorage this) h HP ltac:(by left))
      as [HP' [mr Hmr]].
    assert (Hstep : resolveResources_hash h this
      = (Some mr,
         set_resourceStorage (storage_getResource (m_resourceStorage this) h).1 this,
         [])).
    { rewrite resolveResources_hash_run.
      destruct (storage_getResource _ _) as [storage cached]. simpl in *.
      by subst cached. }
    assert (Hst : state_after (resolveResources_hash h) this
      = set_resourceStorage (storage_getResource (m_resourceStorage this) h).1 this)
      by (unfold state_after; by rewrite Hstep).
    assert (Htr : trace_of (resolveResources_hash h) this = [])
      by (unfold trace_of; by rewrite Hstep).
    assert (Hres : result_of (resolveResources_hash h) this = Some mr)
      by (unfold result_of; by rewrite Hstep).
    rewrite Hst, Htr, Hres. clear Hst Htr Hres Hstep.
    destruct (IH ltac:(intros; apply Hcached; [done|by right])
                 (set_resourceStorage
                    (storage_getResource (m_resourceStorage this) h).1 this) HP')
      as (Hf & Hs & Ht & Hfail & Hlen).
    unfold failedOf, resolvedOf in *. csimpl.
    rewrite Hf, Hs, Ht, Hfail, Hlen. done. }
  destruct Heach as (Hf & Hs & Ht & Hfail & Hlen).
  assert (Hrun : resolveResources hashes this
    = (resolvedOf (result_of (resolveEach hashes) this),
       state_after (resolveEach hashes) this, [])).
  { rewrite resolveResources_run, Ht, Hfail. by case_bool_decide. }
  unfold state_after at 1 2, trace_of, result_of at 1. rewrite Hrun. simpl.
  done.
Qed.

End loading_props.

Lemma resolveResources_cached_reads_no_file_witness :
  let hashes := [mkResourceContentHash 1 0; mkResourceContentHash 1 0] in
  trace_of (ResourceComponent.resolveResources hashes) exampleResources = []
  ∧ length (result_of (ResourceComponent.resolveResources hashes) exampleResources)
    = 2.
Proof.
  cbv zeta.
  destruct (resolveResources_cached_reads_no_file
              (λ storage,
                 storage = ResourceComponent.m_resourceStorage exampleResources)
              [mkResourceContentHash 1 0; mkResourceContentHash 1 0]
              exampleResources) as (_ & _ & Htrace & Hlen).
  - reflexivity.
  - intros storage h -> Hin.
    assert (h = mkResourceContentHash 1 0) as ->.
    { apply elem_of_cons in Hin as [->|Hin]; [done|].
      by apply list_elem_of_singleton in Hin. }
    split; [reflexivity|]. by eexists.
  - split; [exact Htrace|exact Hlen].
Defined.

(* --------------------------------------------------------------------- *)
(** ** What [GetAllResourcesFromScene] collects                           *)
(* --------------------------------------------------------------------- *)

Section collected_props.
Context `{dataTypes : DataTypes} `{hashOrder : HashOrder}.

(** Two strictly increasing vectors with the same members are the same
    vector. *)
Lemma strictly_sorted_ext (l1 l2 : list ResourceContentHash) :
  StronglySorted hash_lt l1 → StronglySorted hash_lt l2 →
  (∀ h, h ∈ l1 ↔ h ∈ l2) → l1 = l2.
Proof.
  intros Hs1 Hs2 Hin.
  assert (AntiSymm (=) hash_lt).
  { intros a b Hab Hba. destruct (irreflexivity hash_lt a). by transitivity b. }
  apply (StronglySorted_unique hash_lt); [done..|].
  apply NoDup_Permutation; [by apply strictly_sorted_NoDup..|done].
Qed.

(** The vector that [GetAllResourcesFromScene] fills holds exactly the
    valid hashes that a renderable which is not switched off references
    or that are attached to a data slot, and it is the only strictly
    increasing vector that does. *)
Theorem GetAllResourcesFromScene_exactly_the_referenced (scene : Scene) :
  let referenced h :=
    hash_isValid h = true
    ∧ (referenced_by_active_renderable scene h
       ∨ referenced_by_data_slot scene h) in
  (∀ h, h ∈ GetAllResourcesFromScene scene ↔ referenced h)
  ∧ (∀ resources, StronglySorted hash_lt resources →
       (∀ h, h ∈ resources ↔ referenced h) →
       resources = GetAllResourcesFromScene scene).
Proof.
  intros referenced. split.
  - intros h. apply elem_of_GetAllResourcesFromScene.
  - intros resources Hsorted Hin. apply strictly_sorted_ext; [done| |].
    + apply std_unique_sorted, std_sort_sorted.
    + intros h. by rewrite Hin, elem_of_GetAllResourcesFromScene.
Qed.

(** The result does not depend on the order in which the renderables
    and the data slots of the scene are met. *)
Theorem GetAllResourcesFromScene_iteration_order (scene : Scene)
    (renderables : list (RenderableHandle * Renderable))
    (dataSlots : list (DataSlotHandle * DataSlot)) :
  renderables ≡ₚ getRenderables scene →
  dataSlots ≡ₚ getDataSlots scene →
  GetAllResourcesFromScene (Scene_iteratedAs renderables dataSlots scene)
  = GetAllResourcesFromScene scene.
Proof.
  intros Hr Hd.
  apply strictly_sorted_ext;
    [apply std_unique_sorted, std_sort_sorted..|].
  intros h. rewrite !elem_of_GetAllResourcesFromScene.
  assert (Hactive : referenced_by_active_renderable
                      (Scene_iteratedAs renderables dataSlots scene) h
                    ↔ referenced_by_active_renderable scene h).
  { split; intros (rendIt & Hin & Hon & Href); exists rendIt;
      (split_and!; [|done|exact Href]); simpl in *.
    - by rewrite <- Hr.
    - by rewrite Hr. }
  assert (Hslot : referenced_by_data_slot
                    (Scene_iteratedAs renderables dataSlots scene) h
                  ↔ referenced_by_data_slot scene h).
  { split; intros (dataSlotIt & Hin & Heq); exists dataSlotIt;
      (split; [|done]); simpl in *.
    - by rewrite <- Hd.
    - by rewrite Hd. }
  by rewrite Hactive, Hslot.
Qed.

End collected_props.

Lemma GetAllResourcesFromScene_iteration_order_witness :
  @GetAllResourcesFromScene ExampleDataTypes LexHashOrder
    (Scene_iteratedAs (reverse (getRenderables exampleGraph))
       (reverse (getDataSlots exampleGraph)) exampleGraph)
  = @GetAllResourcesFromScene ExampleDataTypes LexHashOrder exampleGraph.
Proof.
  apply (@GetAllResourcesFromScene_iteration_order ExampleDataTypes LexHashOrder
           exampleGraph (reverse (getRenderables exampleGraph))
           (reverse (getDataSlots exampleGraph))).
  - apply reverse_Permutation.
  - apply reverse_Permutation.
Defined.

(* --------------------------------------------------------------------- *)
(** ** What [GetAllSceneResourcesFromScene] pushes                        *)
(* --------------------------------------------------------------------- *)

Section sceneResources_props.
Import SceneResources.
Implicit Types (scene : Scene) (out : Output) (h : MemoryHandle).
Implicit Types (a create update : ESceneResourceAction).

Lemma elem_of_handlesBelow h count : h ∈ handlesBelow count ↔ (h < count)%N.
Proof.
  unfold handlesBelow. rewrite list_elem_of_fmap. split.
  - intros (n & -> & Hn). apply elem_of_seq in Hn. lia.
  - intros Hlt. exists (N.to_nat h). split; [lia|]. apply elem_of_seq. lia.
Qed.

Lemma handlesBelow_sorted count : StronglySorted N.lt (handlesBelow count).
Proof.
  unfold handlesBelow. apply (StronglySorted_fmap _ lt); [lia|].
  generalize 0%nat.
  induction (N.to_nat count) as [|n IH]; intros j; simpl; constructor;
    [apply IH|].
  apply Forall_seq. lia.
Qed.

Lemma length_handlesBelow count : length (handlesBelow count) = N.to_nat count.
Proof. unfold handlesBelow. by rewrite length_fmap, length_seq. Qed.

Lemma StronglySorted_filter {A} (R : relation A) (P : A → Prop)
    `{∀ x, Decision (P x)} (l : list A) :
  StronglySorted R l → StronglySorted R (filter P l).
Proof.
  induction 1 as [|x l Hs IH Hall]; [constructor|].
  rewrite filter_cons. case_decide; [|done].
  constructor; [done|]. apply Forall_forall. intros y Hy.
  apply list_elem_of_filter in Hy as [_ Hy].
  rewrite Forall_forall in Hall. by apply Hall.
Qed.

Lemma elem_of_allocatedHandles scene (k : Kind) h :
  h ∈ allocatedHandles scene k
  ↔ (h < countOf scene k)%N ∧ isAllocated scene k h = true.
Proof.
  unfold allocatedHandles.
  rewrite list_elem_of_filter, elem_of_handlesBelow, Is_true_true. tauto.
Qed.

Lemma allocatedHandles_sorted scene (k : Kind) :
  StronglySorted N.lt (allocatedHandles scene k).
Proof. apply StronglySorted_filter, handlesBelow_sorted. Qed.

(** The two kinds of loop, run. *)
Lemma pushCreated_run (isAlloc : MemoryHandle → bool) create count out :
  pushCreated isAlloc create count out
  = {| actions := actions out
                  ++ created create
                       (filter (λ h, isAlloc h) (handlesBelow count));
       usedDataByteSize := usedDataByteSize out |}.
Proof.
  unfold pushCreated. generalize (handlesBelow count) as l. intros l.
  revert out. induction l as [|h l IH]; intros out; simpl.
  { rewrite app_nil_r. by destruct out. }
  rewrite filter_cons. case_decide as Hh; destruct (isAlloc h); try done.
  rewrite IH. unfold push_back, created. csimpl. by rewrite <- app_assoc.
Qed.

Lemma pushCreatedAndUpdated_run (isAlloc : MemoryHandle → bool) create update
    (size : MemoryHandle → N) count out :
  (usedDataByteSize out < 2 ^ 64)%N →
  pushCreatedAndUpdated isAlloc create update size count out
  = {| actions := actions out
                  ++ createdAndUpdated create update
                       (filter (λ h, isAlloc h) (handlesBelow count));
       usedDataByteSize :=
         size_t (usedDataByteSize out
                 + sumN (size <$> filter (λ h, isAlloc h) (handlesBelow count))) |}.
Proof.
  unfold pushCreatedAndUpdated. generalize (handlesBelow count) as l. intros l.
  revert out. induction l as [|h l IH]; intros out Hout; simpl.
  { rewrite app_nil_r. unfold size_t. simpl.
    rewrite N.add_0_r, N.mod_small by done. by destruct out. }
  rewrite filter_cons. case_decide as Hh; destruct (isAlloc h); try done;
    [|by apply IH].
  rewrite IH; [|by apply N.mod_lt].
  unfold addUsedDataByteSize, push_back, createdAndUpdated, size_t. csimpl.
  rewrite <- !app_assoc. simpl. f_equal.
  rewrite N.Div0.add_mod_idemp_l. f_equal. lia.
Qed.

(** The whole function, run: the six loops one after the other. *)
Lemma GetAllSceneResourcesFromScene_run scene :
  GetAllSceneResourcesFromScene scene
  = {| actions :=
         created ESceneResourceAction_CreateRenderBuffer
           (allocatedHandles scene RenderBuffer)
         ++ created ESceneResourceAction_CreateRenderTarget
              (allocatedHandles scene RenderTarget)
         ++ created ESceneResourceAction_CreateBlitPass
              (allocatedHandles scene BlitPass)
         ++ createdAndUpdated ESceneResourceAction_CreateDataBuffer
              ESceneResourceAction_UpdateDataBuffer
              (allocatedHandles scene DataBuffer)
         ++ createdAndUpdated ESceneResourceAction_CreateTextureBuffer
              ESceneResourceAction_UpdateTextureBuffer
              (allocatedHandles scene TextureBuffer)
         ++ createdAndUpdated ESceneResourceAction_CreateUniformBuffer
              ESceneResourceAction_UpdateUniformBuffer
              (allocatedHandles scene UniformBuffer);
       usedDataByteSize :=
         size_t (usedBytes scene DataBuffer + usedBytes scene TextureBuffer
                 + usedBytes scene UniformBuffer) |}.
Proof.
  unfold GetAllSceneResourcesFromScene. cbv zeta.
  rewrite !pushCreated_run. simpl actions. simpl usedDataByteSize.
  match goal with
  | |- context [pushCreatedAndUpdated (isDataBufferAllocated scene) ?c ?u ?s ?n ?o] =>
      rewrite (pushCreatedAndUpdated_run (isDataBufferAllocated scene) c u s n o)
        by (simpl; lia)
  end.
  match goal with
  | |- context [pushCreatedAndUpdated (isTextureBufferAllocated scene) ?c ?u ?s ?n ?o] =>
      rewrite (pushCreatedAndUpdated_run (isTextureBufferAllocated scene) c u s n o)
        by (by apply N.mod_lt)
  end.
  rewrite pushCreatedAndUpdated_run by (by apply N.mod_lt).
  simpl actions. simpl usedDataByteSize.
  unfold usedBytes, allocatedHandles, size_t. simpl.
  rewrite <- !app_assoc. f_equal.
  rewrite N.Div0.add_mod_idemp_l, <- N.add_assoc, N.Div0.add_mod_idemp_l.
  change (sizeOf scene DataBuffer) with (getDataBuffer_usedSize scene).
  change (sizeOf scene TextureBuffer) with (GetMipMapDataSizeInBytes scene).
  change (sizeOf scene UniformBuffer)
    with (λ h, uint32_t (getUniformBuffer_data_size scene h)).
  f_equal. lia.
Qed.

Lemma elem_of_created h a create (handles : list MemoryHandle) :
  mkSceneResourceAction h a ∈ created create handles
  ↔ a = create ∧ h ∈ handles.
Proof. unfold created. rewrite list_elem_of_fmap. naive_solver. Qed.

Lemma elem_of_createdAndUpdated h a create update (handles : list MemoryHandle) :
  mkSceneResourceAction h a ∈ createdAndUpdated create update handles
  ↔ (a = create ∨ a = update) ∧ h ∈ handles.
Proof.
  unfold createdAndUpdated. rewrite list_elem_of_bind.
  setoid_rewrite elem_of_cons. setoid_rewrite elem_of_cons.
  setoid_rewrite elem_of_nil. naive_solver.
Qed.

Lemma created_kind create (handles : list MemoryHandle) :
  Forall (λ x, action x = create) (created create handles).
Proof. unfold created. apply Forall_fmap, Forall_forall. done. Qed.

Lemma createdAndUpdated_kind create update (handles : list MemoryHandle) :
  Forall (λ x, action x = create ∨ action x = update)
    (createdAndUpdated create update handles).
Proof.
  apply Forall_forall. intros [h a] Hin.
  apply elem_of_createdAndUpdated in Hin as [Ha _]. done.
Qed.

Lemma created_sorted create (handles : list MemoryHandle) :
  StronglySorted N.lt handles →
  StronglySorted action_lt (created create handles).
Proof.
  apply StronglySorted_fmap. intros x y Hxy. right. split; [done|]. by left.
Qed.

Lemma createdAndUpdated_sorted create update (handles : list MemoryHandle) :
  kind create = kind update → isUpdate create = false → isUpdate update = true →
  StronglySorted N.lt handles →
  StronglySorted action_lt (createdAndUpdated create update handles).
Proof.
  intros Hk Hc Hu. induction 1 as [|h l Hs IH Hall]; [constructor|].
  unfold createdAndUpdated in *. rewrite bind_cons. simpl.
  assert (Hrest : ∀ a, (a = create ∨ a = update) →
            Forall (action_lt (mkSceneResourceAction h a))
              (l ≫= λ h, [mkSceneResourceAction h create;
                          mkSceneResourceAction h update])).
  { intros a Ha. apply Forall_forall. intros [h' a'] Hin.
    apply elem_of_createdAndUpdated in Hin as [Ha' Hin].
    rewrite Forall_forall in Hall. right. simpl. split.
    - destruct Ha as [->| ->], Ha' as [->| ->]; congruence.
    - left. by apply Hall. }
  constructor; [constructor; [done|]|].
  - apply Hrest. by right.
  - constructor; [|apply Hrest; by left].
    right. simpl. split; [done|]. right. done.
Qed.

Lemma sorted_app_by_kind (l1 l2 : list SceneResourceAction) (n : nat) :
  StronglySorted action_lt l1 → StronglySorted action_lt l2 →
  Forall (λ x, (kind_rank (kind (action x)) < n)%nat) l1 →
  Forall (λ x, (n ≤ kind_rank (kind (action x)))%nat) l2 →
  StronglySorted action_lt (l1 ++ l2).
Proof.
  intros Hs1 Hs2 H1 H2. apply StronglySorted_app. split_and!; [|done..].
  intros x1 x2 Hx1 Hx2. rewrite Forall_forall in H1, H2.
  specialize (H1 _ Hx1). specialize (H2 _ Hx2). left. lia.
Qed.

Lemma action_lt_irrefl (x : SceneResourceAction) : ¬ action_lt x x.
Proof. intros [?|[_ [?|(_ & ? & ?)]]]; [lia|lia|congruence]. Qed.

(** The vector is in the order of the six loops: by kind, within a kind
    by handle, the create action before the update action.  So it holds
    no action twice; and it holds an action for a handle exactly when the
    handle is below the count of its kind and allocated. *)
Theorem GetAllSceneResourcesFromScene_actions_of_allocated scene :
  let actions := actions (GetAllSceneResourcesFromScene scene) in
  StronglySorted action_lt actions
  ∧ NoDup actions
  ∧ ∀ h a, mkSceneResourceAction h a ∈ actions
           ↔ (h < countOf scene (kind a))%N
             ∧ isAllocated scene (kind a) h = true.
Proof.
  intros actions. subst actions. rewrite GetAllSceneResourcesFromScene_run.
  simpl.
  assert (Hsorted : StronglySorted action_lt
    (created ESceneResourceAction_CreateRenderBuffer
       (allocatedHandles scene RenderBuffer)
     ++ created ESceneResourceAction_CreateRenderTarget
          (allocatedHandles scene RenderTarget)
     ++ created ESceneResourceAction_CreateBlitPass
          (allocatedHandles scene BlitPass)
     ++ createdAndUpdated ESceneResourceAction_CreateDataBuffer
          ESceneResourceAction_UpdateDataBuffer
          (allocatedHandles scene DataBuffer)
     ++ createdAndUpdated ESceneResourceAction_CreateTextureBuffer
          ESceneResourceAction_UpdateTextureBuffer
          (allocatedHandles scene TextureBuffer)
     ++ createdAndUpdated ESceneResourceAction_CreateUniformBuffer
          ESceneResourceAction_UpdateUniformBuffer
          (allocatedHandles scene UniformBuffer))).
  { pose proof (allocatedHandles_sorted scene) as Hh.
    apply (sorted_app_by_kind _ _ 1); [by apply created_sorted| |..].
    - apply (sorted_app_by_kind _ _ 2); [by apply created_sorted| |..].
      + apply (sorted_app_by_kind _ _ 3); [by apply created_sorted| |..].
        * apply (sorted_app_by_kind _ _ 4);
            [by apply createdAndUpdated_sorted| |..].
          -- apply (sorted_app_by_kind _ _ 5);
               [by apply createdAndUpdated_sorted
               |by apply createdAndUpdated_sorted|..].
             ++ eapply Forall_impl; [apply createdAndUpdated_kind|].
                intros x [->| ->]; simpl; lia.
             ++ eapply Forall_impl; [apply createdAndUpdated_kind|].
                intros x [->| ->]; simpl; lia.
          -- eapply Forall_impl; [apply createdAndUpdated_kind|].
             intros x [->| ->]; simpl; lia.
          -- rewrite Forall_app. split;
               (eapply Forall_impl; [apply createdAndUpdated_kind|]);
               intros x [->| ->]; simpl; lia.
        * eapply Forall_impl; [apply created_kind|]. intros x ->. simpl. lia.
        * rewrite !Forall_app. split_and!;
            (eapply Forall_impl; [apply createdAndUpdated_kind|]);
            intros x [->| ->]; simpl; lia.
      + eapply Forall_impl; [apply created_kind|]. intros x ->. simpl. lia.
      + rewrite !Forall_app. split_and!.
        * eapply Forall_impl; [apply created_kind|]. intros x ->. simpl. lia.
        * eapply Forall_impl; [apply createdAndUpdated_kind|].
          intros x [->| ->]; simpl; lia.
        * eapply Forall_impl; [apply createdAndUpdated_kind|].
          intros x [->| ->]; simpl; lia.
        * eapply Forall_impl; [apply createdAndUpdated_kind|].
          intros x [->| ->]; simpl; lia.
    - eapply Forall_impl; [apply created_kind|]. intros x ->. simpl. lia.
    - rewrite !Forall_app. split_and!.
      + eapply Forall_impl; [apply created_kind|]. intros x ->. simpl. lia.
      + eapply Forall_impl; [apply created_kind|]. intros x ->. simpl. lia.
      + eapply Forall_impl; [apply createdAndUpdated_kind|].
        intros x [->| ->]; simpl; lia.
      + eapply Forall_impl; [apply createdAndUpdated_kind|].
        intros x [->| ->]; simpl; lia.
      + eapply Forall_impl; [apply createdAndUpdated_kind|].
        intros x [->| ->]; simpl; lia. }
  split_and!; [done| |].
  - clear -Hsorted. induction Hsorted as [|x l Hs IH Hall]; [constructor|].
    apply NoDup_cons. split; [|done]. intros Hin.
    rewrite Forall_forall in Hall. by apply (action_lt_irrefl x), Hall.
  - intros h a.
    rewrite !elem_of_app, !elem_of_created, !elem_of_createdAndUpdated,
      !elem_of_allocatedHandles.
    destruct a; simpl; naive_solver.
Qed.

Lemma WellPaired_app (l1 l2 : list SceneResourceAction) :
  WellPaired l1 → WellPaired l2 → WellPaired (l1 ++ l2).
Proof.
  intros H1 H2. induction H1 as [|h a l Ha Hu Hl IH|h c u l Hc Hl IH]; simpl.
  - done.
  - by apply WellPaired_single.
  - by apply WellPaired_pair.
Qed.

Lemma WellPaired_created create (handles : list MemoryHandle) :
  updateOf create = None → isUpdate create = false →
  WellPaired (created create handles).
Proof.
  intros. induction handles; [constructor|]. by apply WellPaired_single.
Qed.

Lemma WellPaired_createdAndUpdated create update (handles : list MemoryHandle) :
  updateOf create = Some update →
  WellPaired (createdAndUpdated create update handles).
Proof.
  intros. induction handles; [constructor|]. by apply WellPaired_pair.
Qed.

Lemma WellPaired_head (l : list SceneResourceAction) x :
  WellPaired l → l !! 0%nat = Some x → isUpdate (action x) = false.
Proof.
  destruct 1 as [|h a l Ha Hu _|h c u l Hc _]; simpl; intros [= <-]; [done|].
  simpl. by destruct c.
Qed.

Lemma WellPaired_lookup (l : list SceneResourceAction) :
  WellPaired l →
  ∀ (i : nat) h create update, updateOf create = Some update →
    l !! i = Some (mkSceneResourceAction h create)
    ↔ l !! S i = Some (mkSceneResourceAction h update).
Proof.
  induction 1 as [|h0 a l Ha Hu Hl IH|h0 c u l Hc Hl IH];
    intros i h create update Hupd.
  - by rewrite !lookup_nil.
  - destruct i as [|i]; simpl; [|by apply IH].
    split.
    + intros [= -> ->]. congruence.
    + intros Hhead. apply (WellPaired_head _ _ Hl) in Hhead. simpl in Hhead.
      destruct create; simpl in Hupd; naive_solver.
  - destruct i as [|[|i]]; simpl; [| |by apply IH].
    + split.
      * intros [= -> ->]. congruence.
      * intros [= -> ->]. f_equal. f_equal.
        destruct c, create; simpl in *; congruence.
    + split.
      * intros [= -> ->]. destruct c; simpl in *; simplify_eq.
      * intros Hhead. apply (WellPaired_head _ _ Hl) in Hhead. simpl in Hhead.
        destruct create; simpl in Hupd; naive_solver.
Qed.

(** An update action stands in the vector exactly one place after the
    create action of the same buffer: every buffer is created immediately
    before it is updated, and every created buffer is updated. *)
Theorem GetAllSceneResourcesFromScene_update_follows_create scene
    (i : nat) h create update :
  updateOf create = Some update →
  let actions := actions (GetAllSceneResourcesFromScene scene) in
  actions !! i = Some (mkSceneResourceAction h create)
  ↔ actions !! S i = Some (mkSceneResourceAction h update).
Proof.
  intros Hupd actions. subst actions. apply WellPaired_lookup; [|done].
  rewrite GetAllSceneResourcesFromScene_run. simpl.
  repeat apply WellPaired_app;
    first [by apply WellPaired_created|by apply WellPaired_createdAndUpdated].
Qed.

Lemma length_createdAndUpdated create update (handles : list MemoryHandle) :
  length (createdAndUpdated create update handles) = (2 * length handles)%nat.
Proof.
  unfold createdAndUpdated.
  induction handles as [|h l IH]; [done|]. rewrite bind_cons. simpl in *. lia.
Qed.

Lemma length_allocatedHandles scene (k : Kind) :
  (length (allocatedHandles scene k) ≤ N.to_nat (countOf scene k))%nat
  ∧ ((∀ h, (h < countOf scene k)%N → isAllocated scene k h = true) →
     length (allocatedHandles scene k) = N.to_nat (countOf scene k)).
Proof.
  unfold allocatedHandles. rewrite <- length_handlesBelow. split.
  - apply length_filter.
  - intros Hall.
    assert (Hl : Forall (λ h, isAllocated scene k h) (handlesBelow (countOf scene k))).
    { apply Forall_forall. intros h Hh. apply Is_true_true, Hall.
      by apply elem_of_handlesBelow. }
    induction Hl as [|h l Hh Hl IH]; [done|].
    rewrite filter_cons. case_decide; [|done]. simpl. by rewrite IH.
Qed.

(** When the count [numSceneResources] does not wrap around, the vector
    never outgrows the capacity reserved for it, and fills it when every
    handle below the counts is allocated. *)
Theorem GetAllSceneResourcesFromScene_fits_reservation scene :
  (getRenderTargetCount scene + getRenderBufferCount scene
   + getBlitPassCount scene + getDataBufferCount scene * 2
   + getTextureBufferCount scene * 2 + getUniformBufferCount scene * 2
   < 2 ^ 32)%N →
  let actions := actions (GetAllSceneResourcesFromScene scene) in
  (N.of_nat (length actions) ≤ numSceneResources scene)%N
  ∧ ((∀ k h, (h < countOf scene k)%N → isAllocated scene k h = true) →
     N.of_nat (length actions) = numSceneResources scene).
Proof.
  intros Hfits actions. subst actions.
  unfold numSceneResources, uint32_t. rewrite N.mod_small by done.
  rewrite GetAllSceneResourcesFromScene_run. simpl.
  unfold created. rewrite !length_app, !length_fmap, !length_createdAndUpdated.
  pose proof (length_allocatedHandles scene RenderBuffer) as [? ?].
  pose proof (length_allocatedHandles scene RenderTarget) as [? ?].
  pose proof (length_allocatedHandles scene BlitPass) as [? ?].
  pose proof (length_allocatedHandles scene DataBuffer) as [? ?].
  pose proof (length_allocatedHandles scene TextureBuffer) as [? ?].
  pose proof (length_allocatedHandles scene UniformBuffer) as [? ?].
  simpl in *. split; [lia|]. intros Hall.
  pose proof (proj2 (length_allocatedHandles scene RenderBuffer)
                (Hall RenderBuffer)).
  pose proof (proj2 (length_allocatedHandles scene RenderTarget)
                (Hall RenderTarget)).
  pose proof (proj2 (length_allocatedHandles scene BlitPass) (Hall BlitPass)).
  pose proof (proj2 (length_allocatedHandles scene DataBuffer)
                (Hall DataBuffer)).
  pose proof (proj2 (length_allocatedHandles scene TextureBuffer)
                (Hall TextureBuffer)).
  pose proof (proj2 (length_allocatedHandles scene UniformBuffer)
                (Hall UniformBuffer)).
  simpl in *. lia.
Qed.

(** [usedDataByteSize] ends as the bytes of the allocated data, texture
    and uniform buffers, the size of a uniform buffer taken as 32 bits
    and the total as 64 bits; render buffers, render targets and blit
    passes add nothing, and with no buffer allocated it is zero. *)
Theorem GetAllSceneResourcesFromScene_usedDataByteSize scene :
  let used := usedDataByteSize (GetAllSceneResourcesFromScene scene) in
  used = size_t (usedBytes scene DataBuffer + usedBytes scene TextureBuffer
                 + usedBytes scene UniformBuffer)
  ∧ (used < 2 ^ 64)%N
  ∧ ((∀ k h, k ∈ [DataBuffer; TextureBuffer; UniformBuffer] →
        (h < countOf scene k)%N → isAllocated scene k h = false) →
     used = 0%N).
Proof.
  intros used. subst used. rewrite GetAllSceneResourcesFromScene_run. simpl.
  split_and!; [done|by apply N.mod_lt|].
  intros Hnone.
  assert (Hempty : ∀ k, k ∈ [DataBuffer; TextureBuffer; UniformBuffer] →
            usedBytes scene k = 0%N).
  { intros k Hk. unfold usedBytes.
    assert (allocatedHandles scene k = []) as ->; [|done].
    apply elem_of_nil_inv. intros h Hh.
    apply elem_of_allocatedHandles in Hh as [Hlt Hh].
    by rewrite (Hnone k h Hk Hlt) in Hh. }
  rewrite !Hempty by set_solver. done.
Qed.

End sceneResources_props.

Lemma GetAllSceneResourcesFromScene_update_follows_create_witness :
  SceneResources.actions
    (SceneResources.GetAllSceneResourcesFromScene SceneResources.exampleScene)
    !! 2%nat
  = Some (SceneResources.mkSceneResourceAction 0%N
            SceneResources.ESceneResourceAction_CreateDataBuffer)
  ↔ SceneResources.actions
      (SceneResources.GetAllSceneResourcesFromScene SceneResources.exampleScene)
      !! 3%nat
    = Some (SceneResources.mkSceneResourceAction 0%N
              SceneResources.ESceneResourceAction_UpdateDataBuffer).
Proof.
  apply (GetAllSceneResourcesFromScene_update_follows_create
           SceneResources.exampleScene 2 0%N
           SceneResources.ESceneResourceAction_CreateDataBuffer
           SceneResources.ESceneResourceAction_UpdateDataBuffer).
  reflexivity.
Defined.

Lemma GetAllSceneResourcesFromScene_fits_reservation_witness :
  (N.of_nat (length (SceneResources.actions
                       (SceneResources.GetAllSceneResourcesFromScene
                          SceneResources.exampleScene)))
   ≤ SceneResources.numSceneResources SceneResources.exampleScene)%N.
Proof.
  apply (GetAllSceneResourcesFromScene_fits_reservation SceneResources.exampleScene).
  vm_compute. reflexivity.
Defined.

(** The example scene, run: the actions in order, and the bytes counted
    (the uniform buffer counts 5 bytes, its size reduced to 32 bits). *)
Example GetAllSceneResourcesFromScene_exampleScene :
  SceneResources.GetAllSceneResourcesFromScene SceneResources.exampleScene
  = SceneResources.mkOutput
      [ SceneResources.mkSceneResourceAction 1%N
          SceneResources.ESceneResourceAction_CreateRenderBuffer;
        SceneResources.mkSceneResourceAction 0%N
          SceneResources.ESceneResourceAction_CreateRenderTarget;
        SceneResources.mkSceneResourceAction 0%N
          SceneResources.ESceneResourceAction_CreateDataBuffer;
        SceneResources.mkSceneResourceAction 0%N
          SceneResources.ESceneResourceAction_UpdateDataBuffer;
        SceneResources.mkSceneResourceAction 2%N
          SceneResources.ESceneResourceAction_CreateDataBuffer;
        SceneResources.mkSceneResourceAction 2%N
          SceneResources.ESceneResourceAction_UpdateDataBuffer;
        SceneResources.mkSceneResourceAction 0%N
          SceneResources.ESceneResourceAction_CreateTextureBuffer;
        SceneResources.mkSceneResourceAction 0%N
          SceneResources.ESceneResourceAction_UpdateTextureBuffer;
        SceneResources.mkSceneResourceAction 0%N
          SceneResources.ESceneResourceAction_CreateUniformBuffer;
        SceneResources.mkSceneResourceAction 0%N
          SceneResources.ESceneResourceAction_UpdateUniformBuffer ]
      109%N.
Proof. vm_compute. reflexivity. Qed.

(* --------------------------------------------------------------------- *)
(** ** Publishing scenes and the connection                               *)
(* --------------------------------------------------------------------- *)

Section loops.
Context {S E : Type}.

(** A loop whose body is a step on the state with a trace that the state
    does not influence. *)
Lemma forEach_steps {A} (l : list A) (body : A → M S E unit)
    (step : S → A → S) (calls : A → list E) st :
  (∀ x st, body x st = (tt, step st x, calls x)) →
  forEach l body st = (tt, foldl step st l, l ≫= calls).
Proof.
  intros Hbody. revert st. induction l as [|x l IH]; intros st; [done|].
  rewrite bind_cons. cbn [forEach foldl]. unfold mbind.
  by rewrite Hbody, IH.
Qed.

Lemma forEachWith_steps {A B} (l : list A) (body : B → A → M S E B)
    (step : B → A → B) (calls : A → list E) (locals : B) st :
  (∀ locals x st, body locals x st = (step locals x, st, calls x)) →
  forEachWith l locals body st = (foldl step locals l, st, l ≫= calls).
Proof.
  intros Hbody. revert locals.
  induction l as [|x l IH]; intros locals; [done|].
  rewrite bind_cons. cbn [forEachWith foldl]. unfold mbind.
  by rewrite Hbody, IH.
Qed.

End loops.

Section publishing_props.
Context `{iresource : IResource} `{codec : !UpdateStreamCodec}
  `{sceneLogic : ClientSceneLogicBase}.
Import Publishing.
Implicit Types (this : Members) (c : SceneGraphComponent).
Implicit Types (sceneInfo info : SceneInfo) (sceneId : SceneId).

Lemma sendPublishScene_run sceneInfo this :
  sendPublishScene sceneInfo this
  = (tt,
     onComponent
       (set_locallyPublishedScenes (<[sceneID sceneInfo := sceneInfo]>)) this,
     [LOG (Log_publishScene (sceneID sceneInfo) (publicationMode sceneInfo))]
     ++ (if m_sceneRendererHandler (component this)
         then [SceneRendererHandler_handleNewSceneAvailable sceneInfo
                 (m_myID (component this))]
         else [])
     ++ (if bool_decide (publicationMode sceneInfo
                         ≠ EScenePublicationMode_LocalOnly)
            && m_connected (component this)
         then [CommunicationSystem_broadcastNewScenesAvailable [sceneInfo]
                 (m_featureLevel (component this))]
         else [])).
Proof.
  unfold sendPublishScene, mbind, getState, emit, when, modifyState, mret.
  destruct (m_sceneRendererHandler _),
    (bool_decide _ && m_connected _); reflexivity.
Qed.

Lemma sendUnpublishScene_run sceneId (mode : EScenePublicationMode) this :
  sendUnpublishScene sceneId mode this
  = match m_locallyPublishedScenes (component this) !! sceneId with
    | None => None
    | Some info =>
        Some (tt,
              onComponent (set_locallyPublishedScenes (delete sceneId)) this,
              [LOG (Log_unpublishScene sceneId mode)]
              ++ (if m_sceneRendererHandler (component this)
                  then [SceneRendererHandler_handleSceneBecameUnavailable
                          sceneId (m_myID (component this))]
                  else [])
              ++ (if bool_decide (mode ≠ EScenePublicationMode_LocalOnly)
                     && m_connected (component this)
                  then [CommunicationSystem_broadcastScenesBecameUnavailable
                          [info]]
                  else []))
    end.
Proof.
  unfold sendUnpublishScene.
  destruct (m_locallyPublishedScenes _ !! _) as [info|]; [|done].
  unfold mbind, getState, emit, when, modifyState, mret.
  destruct (m_sceneRendererHandler _),
    (bool_decide _ && m_connected _); reflexivity.
Qed.

(** A scene that was not published is published and unpublished again
    (with the mode it was published in): in between it is in
    [m_locallyPublishedScenes]; the unpublication passes its assertion
    and leaves the members exactly as they were before the publication;
    the network hears of the scene becoming available and unavailable
    when the mode is not [LocalOnly] and the component is connected, and
    of nothing otherwise; a registered renderer handler hears of both in
    any case. *)
Theorem sendPublishScene_sendUnpublishScene_roundtrip this sceneInfo :
  m_locallyPublishedScenes (component this) !! sceneID sceneInfo = None →
  let c := component this in
  let published := state_after (sendPublishScene sceneInfo) this in
  m_locallyPublishedScenes (component published) !! sceneID sceneInfo
  = Some sceneInfo
  ∧ ∃ calls,
      sendUnpublishScene (sceneID sceneInfo) (publicationMode sceneInfo) published
      = Some (tt, this, calls)
      ∧ filter (λ call, is_CommunicationSystem call)
          (trace_of (sendPublishScene sceneInfo) this ++ calls)
        = (if bool_decide (publicationMode sceneInfo
                           ≠ EScenePublicationMode_LocalOnly)
              && m_connected c
           then [CommunicationSystem_broadcastNewScenesAvailable [sceneInfo]
                   (m_featureLevel c);
                 CommunicationSystem_broadcastScenesBecameUnavailable [sceneInfo]]
           else [])
      ∧ filter (λ call, is_SceneRendererHandler call)
          (trace_of (sendPublishScene sceneInfo) this ++ calls)
        = (if m_sceneRendererHandler c
           then [SceneRendererHandler_handleNewSceneAvailable sceneInfo (m_myID c);
                 SceneRendererHandler_handleSceneBecameUnavailable
                   (sceneID sceneInfo) (m_myID c)]
           else []).
Proof.
  intros Hnew c published. subst c published.
  unfold state_after, trace_of. rewrite sendPublishScene_run. simpl.
  split; [apply lookup_insert_eq|].
  rewrite sendUnpublishScene_run. simpl. rewrite lookup_insert_eq.
  eexists. split_and!.
  - f_equal. f_equal. f_equal.
    destruct this as [[handler myID featureLevel connected published remote] logic].
    unfold onComponent, set_locallyPublishedScenes. simpl in *.
    by rewrite delete_insert_id.
  - destruct (m_sceneRendererHandler _),
      (bool_decide _ && m_connected _); reflexivity.
  - destruct (m_sceneRendererHandler _),
      (bool_decide _ && m_connected _); reflexivity.
Qed.

Lemma elem_of_remotelyPublished c info :
  info ∈ remotelyPublished c
  ↔ publicationMode info ≠ EScenePublicationMode_LocalOnly
    ∧ ∃ sceneId, m_locallyPublishedScenes c !! sceneId = Some info.
Proof.
  unfold remotelyPublished.
  rewrite list_elem_of_filter, list_elem_of_fmap.
  split.
  - intros [Hmode ([sceneId info'] & -> & Hin)]. split; [done|].
    exists sceneId. by apply elem_of_map_to_list.
  - intros [Hmode [sceneId Hin]]. split; [done|].
    exists (sceneId, info). split; [done|]. by apply elem_of_map_to_list.
Qed.

Lemma foldl_collect_remote (l : list (SceneId * SceneInfo)) (acc : list SceneInfo) :
  foldl (λ acc p,
           if decide (publicationMode p.2 ≠ EScenePublicationMode_LocalOnly)
           then acc ++ [p.2] else acc) acc l
  = acc ++ filter (λ info, publicationMode info
                           ≠ EScenePublicationMode_LocalOnly) l.*2.
Proof.
  revert acc. induction l as [|p l IH]; intros acc.
  { cbn. by rewrite app_nil_r. }
  rewrite fmap_cons, filter_cons. cbn [foldl]. rewrite IH.
  case_decide; [|done]. by rewrite <- app_assoc.
Qed.

Lemma newParticipantHasConnected_run (participant : Guid) this :
  ∃ logs,
    Forall (λ call, ∃ statement, call = LOG statement) logs
    ∧ newParticipantHasConnected participant this
      = (tt, this,
         logs ++ (if bool_decide (remotelyPublished (component this) ≠ [])
                  then [CommunicationSystem_sendScenesAvailable participant
                          (remotelyPublished (component this))
                          (m_featureLevel (component this))]
                  else [])).
Proof.
  eexists. split; last first.
  - unfold newParticipantHasConnected, mbind at 1, getState.
    unfold mbind at 1.
    rewrite (forEachWith_steps _ _
               (λ acc p,
                  if decide (publicationMode p.2
                             ≠ EScenePublicationMode_LocalOnly)
                  then acc ++ [p.2] else acc)
               (λ p,
                  if decide (publicationMode p.2
                             ≠ EScenePublicationMode_LocalOnly)
                  then [LOG (Log_newParticipantHasConnected participant p.1
                               (publicationMode p.2) (m_myID (component this)))]
                  else [])).
    2:{ intros acc p st. case_decide; [|done].
        by unfold mbind, emit, mret. }
    rewrite foldl_collect_remote. simpl.
    fold (remotelyPublished (component this)).
    unfold when, emit, mret.
    case_bool_decide; reflexivity.
  - apply Forall_forall. intros call Hin.
    apply list_elem_of_bind in Hin as (p & Hin & _).
    case_decide; [|by apply elem_of_nil in Hin].
    apply list_elem_of_singleton in Hin as ->. by eexists.
Qed.

Lemma filter_logs (P : Call → bool) (logs : list Call) :
  (∀ statement, P (LOG statement) = false) →
  Forall (λ call, ∃ statement, call = LOG statement) logs →
  filter (λ call, P call) logs = [].
Proof.
  intros HP. induction 1 as [|call logs [statement ->] _ IH]; [done|].
  rewrite filter_cons, IH. case_decide as Hc; [|done].
  by rewrite HP in Hc.
Qed.

(** A participant that connects is sent the published scenes that are
    not [LocalOnly], in one message with the local feature level, and is
    sent nothing when there is none; the members do not change and the
    renderer handler is not called.  Whether the component itself is
    connected is not asked. *)
Theorem newParticipantHasConnected_sends_remote_scenes (participant : Guid) this :
  let c := component this in
  let calls := trace_of (newParticipantHasConnected participant) this in
  state_after (newParticipantHasConnected participant) this = this
  ∧ filter (λ call, is_CommunicationSystem call) calls
    = (if bool_decide (remotelyPublished c ≠ [])
       then [CommunicationSystem_sendScenesAvailable participant
               (remotelyPublished c) (m_featureLevel c)]
       else [])
  ∧ filter (λ call, is_SceneRendererHandler call) calls = []
  ∧ (∀ info, info ∈ remotelyPublished c
             ↔ publicationMode info ≠ EScenePublicationMode_LocalOnly
               ∧ ∃ sceneId, m_locallyPublishedScenes c !! sceneId = Some info)
  ∧ length (remotelyPublished c) ≤ size (m_locallyPublishedScenes c).
Proof.
  intros c calls. subst c calls.
  destruct (newParticipantHasConnected_run participant this)
    as (logs & Hlogs & Hrun).
  unfold state_after, trace_of. rewrite Hrun. simpl.
  split_and!; [done| | |apply elem_of_remotelyPublished|].
  - rewrite filter_app, (filter_logs is_CommunicationSystem) by done.
    by case_bool_decide.
  - rewrite filter_app, (filter_logs is_SceneRendererHandler) by done.
    by case_bool_decide.
  - unfold remotelyPublished.
    etransitivity; [apply length_filter|].
    by rewrite length_fmap, length_map_to_list.
Qed.

(** A scene published in a mode other than [LocalOnly] is among the
    scenes sent to every participant that connects afterwards. *)
Theorem published_scene_is_sent_to_new_participant this sceneInfo
    (participant : Guid) :
  publicationMode sceneInfo ≠ EScenePublicationMode_LocalOnly →
  let published := state_after (sendPublishScene sceneInfo) this in
  ∃ availableScenes,
    CommunicationSystem_sendScenesAvailable participant availableScenes
      (m_featureLevel (component this))
    ∈ trace_of (newParticipantHasConnected participant) published
    ∧ sceneInfo ∈ availableScenes.
Proof.
  intros Hmode published. subst published.
  unfold state_after. rewrite sendPublishScene_run. simpl.
  set (published := onComponent _ this).
  assert (Hin : sceneInfo ∈ remotelyPublished (component published)).
  { apply elem_of_remotelyPublished. split; [done|].
    exists (sceneID sceneInfo). apply lookup_insert_eq. }
  destruct (newParticipantHasConnected_run participant published)
    as (logs & _ & Hrun).
  exists (remotelyPublished (component published)). split; [|done].
  rewrite bool_decide_true in Hrun;
    [|intros Hnil; rewrite Hnil in Hin; by apply elem_of_nil in Hin].
  unfold trace_of. rewrite Hrun. cbn [snd].
  apply elem_of_app. right. apply list_elem_of_singleton. done.
Qed.

(** The two loops of [participantHasDisconnected] as steps on the
    members. *)
Lemma participantHasDisconnected_run (participant : Guid) this :
  participantHasDisconnected participant this
  = (tt,
     foldl (λ st (it : SceneId * ReceivedScene),
              if decide (provider it.2 = participant)
              then onComponent (set_remoteScenes (delete it.1)) st else st)
       (foldl (λ st (publishedScene : SceneId * SceneInfo),
                 match m_clientSceneLogicMap st !! publishedScene.1 with
                 | Some _ =>
                     onSceneLogic publishedScene.1
                       (removeSubscriber participant) st
                 | None => st
                 end)
          this (map_to_list (m_locallyPublishedScenes (component this))))
       (map_to_list (m_remoteScenes (component this))),
     LOG (Log_participantHasDisconnected participant)
     :: (map_to_list (m_remoteScenes (component this))
         ≫= λ it,
              if decide (provider it.2 = participant)
              then if m_sceneRendererHandler (component this)
                   then [SceneRendererHandler_handleSceneBecameUnavailable
                           it.1 participant]
                   else []
              else [])).
Proof.
  unfold participantHasDisconnected, mbind at 1, getState.
  unfold mbind at 1, emit at 1. unfold mbind at 1.
  rewrite (forEach_steps _ _
             (λ st (publishedScene : SceneId * SceneInfo),
                match m_clientSceneLogicMap st !! publishedScene.1 with
                | Some _ =>
                    onSceneLogic publishedScene.1
                      (removeSubscriber participant) st
                | None => st
                end)
             (λ _, [])).
  2:{ intros p st. unfold mbind, getState.
      by destruct (m_clientSceneLogicMap st !! p.1). }
  rewrite (forEach_steps _ _
             (λ st (it : SceneId * ReceivedScene),
                if decide (provider it.2 = participant)
                then onComponent (set_remoteScenes (delete it.1)) st else st)
             (λ it,
                if decide (provider it.2 = participant)
                then if m_sceneRendererHandler (component this)
                     then [SceneRendererHandler_handleSceneBecameUnavailable
                             it.1 participant]
                     else []
                else [])).
  2:{ intros it st. case_decide; [|done].
      unfold mbind, when, emit, modifyState, mret.
      by destruct (m_sceneRendererHandler _). }
  f_equal. f_equal.
  assert (Hnil : ∀ l : list (SceneId * SceneInfo),
            l ≫= (λ _, @nil Call) = []).
  { induction l as [|x l IH]; [done|]. by rewrite bind_cons, IH. }
  by rewrite Hnil.
Qed.

Lemma removeSubscriber_fold (participant : Guid)
    (l : list (SceneId * SceneInfo)) this :
  NoDup l.*1 →
  let this' :=
    foldl (λ st (publishedScene : SceneId * SceneInfo),
             match m_clientSceneLogicMap st !! publishedScene.1 with
             | Some _ =>
                 onSceneLogic publishedScene.1 (removeSubscriber participant) st
             | None => st
             end) this l in
  component this' = component this
  ∧ ∀ sceneId,
      m_clientSceneLogicMap this' !! sceneId
      = if decide (sceneId ∈ l.*1)
        then removeSubscriber participant <$> m_clientSceneLogicMap this !! sceneId
        else m_clientSceneLogicMap this !! sceneId.
Proof.
  revert this. induction l as [|[k info] l IH]; intros this Hnodup.
  { split; [done|]. intros sceneId. rewrite decide_False; [done|].
    apply not_elem_of_nil. }
  rewrite fmap_cons in Hnodup. apply NoDup_cons in Hnodup as [Hk Hnodup].
  cbn [foldl]. cbn zeta.
  set (this1 := match m_clientSceneLogicMap this !! (k, info).1 with
                | Some _ => onSceneLogic (k, info).1
                              (removeSubscriber participant) this
                | None => this
                end).
  assert (H1 : component this1 = component this
               ∧ ∀ sceneId, m_clientSceneLogicMap this1 !! sceneId
                   = if decide (k = sceneId)
                     then removeSubscriber participant
                            <$> m_clientSceneLogicMap this !! k
                     else m_clientSceneLogicMap this !! sceneId).
  { subst this1. simpl.
    destruct (m_clientSceneLogicMap this !! k) as [obj|] eqn:Hobj.
    - split; [done|]. intros sceneId. simpl. by rewrite lookup_alter, Hobj.
    - split; [done|]. intros sceneId. case_decide; [by subst|done]. }
  destruct H1 as [Hc1 Hl1].
  destruct (IH this1 Hnodup) as [Hc Hl]. cbn zeta in Hc, Hl.
  split; [by rewrite Hc|].
  intros sceneId. rewrite Hl, !Hl1, fmap_cons. simpl.
  destruct (decide (k = sceneId)) as [<-|Hne].
  - rewrite (decide_False (P := k ∈ l.*1)) by done.
    rewrite decide_True by (by left). done.
  - destruct (decide (sceneId ∈ l.*1)) as [Hin|Hnin].
    + rewrite decide_True by (by right). done.
    + rewrite decide_False; [done|].
      intros Hin. apply elem_of_cons in Hin as [?|?]; by subst.
Qed.

Lemma eraseProvider_fold (participant : Guid)
    (l : list (SceneId * ReceivedScene)) this :
  let this' :=
    foldl (λ st (it : SceneId * ReceivedScene),
             if decide (provider it.2 = participant)
             then onComponent (set_remoteScenes (delete it.1)) st else st)
      this l in
  m_clientSceneLogicMap this' = m_clientSceneLogicMap this
  ∧ same_apart_from_remoteScenes (component this) (component this')
  ∧ ∀ sceneId,
      m_remoteScenes (component this') !! sceneId
      = if decide (Exists (λ it, it.1 = sceneId ∧ provider it.2 = participant) l)
        then None
        else m_remoteScenes (component this) !! sceneId.
Proof.
  revert this. induction l as [|[k rs] l IH]; intros this.
  { split_and!; [done|by repeat split|]. intros sceneId.
    rewrite decide_False; [done|]. by intros ?%Exists_nil. }
  cbn [foldl]. cbn zeta.
  set (this1 := if decide (provider (k, rs).2 = participant)
                then onComponent (set_remoteScenes (delete (k, rs).1)) this
                else this).
  destruct (IH this1) as (Hl & Hsame & Hr). cbn zeta in Hl, Hsame, Hr.
  assert (H1 : m_clientSceneLogicMap this1 = m_clientSceneLogicMap this
               ∧ same_apart_from_remoteScenes (component this) (component this1)
               ∧ ∀ sceneId, m_remoteScenes (component this1) !! sceneId
                   = if decide (k = sceneId ∧ provider rs = participant)
                     then None
                     else m_remoteScenes (component this) !! sceneId).
  { subst this1. simpl. destruct (decide (provider rs = participant)) as [Hp|Hp].
    - split_and!; [done|by repeat split|]. intros sceneId. simpl.
      rewrite lookup_delete.
      destruct (decide (k = sceneId)) as [<-|Hne].
      + by rewrite decide_True.
      + rewrite decide_False; [done|]. by intros [? _].
    - split_and!; [done|by repeat split|]. intros sceneId.
      rewrite decide_False; [done|]. by intros [_ ?]. }
  destruct H1 as (Hl1 & Hsame1 & Hr1).
  split_and!.
  - by rewrite Hl.
  - destruct Hsame as (? & ? & ? & ? & ?), Hsame1 as (? & ? & ? & ? & ?).
    repeat split; congruence.
  - intros sceneId. rewrite Hr, Hr1.
    destruct (decide (Exists _ l)) as [Hex|Hnex].
    + rewrite decide_True; [done|]. by apply Exists_cons_tl.
    + destruct (decide (k = sceneId ∧ provider rs = participant)) as [Hk|Hnk].
      * rewrite decide_True; [done|]. by apply Exists_cons_hd.
      * rewrite decide_False; [done|].
        intros [?|?]%Exists_cons; done.
Qed.

(** A participant that disconnects is forgotten as a provider and as a
    subscriber: afterwards no scene is tracked for it, the scenes of the
    other providers are tracked as before, and it is removed as a
    subscriber from the scene logic of every published scene that has
    one; the renderer handler is told [handleSceneBecameUnavailable]
    exactly for the scenes that were tracked for the participant;
    nothing goes to the network; and a second notification of the same
    disconnect changes no tracked scene and reaches no handler. *)
Theorem participantHasDisconnected_forgets_participant (participant : Guid) this :
  let c := component this in
  let this' := state_after (participantHasDisconnected participant) this in
  let calls := trace_of (participantHasDisconnected participant) this in
  (∀ sceneId,
     m_remoteScenes (component this') !! sceneId
     = match m_remoteScenes c !! sceneId with
       | Some it => if decide (provider it = participant) then None else Some it
       | None => None
       end)
  ∧ same_apart_from_remoteScenes c (component this')
  ∧ (∀ sceneId,
       m_clientSceneLogicMap this' !! sceneId
       = if decide (is_Some (m_locallyPublishedScenes c !! sceneId))
         then removeSubscriber participant <$> m_clientSceneLogicMap this !! sceneId
         else m_clientSceneLogicMap this !! sceneId)
  ∧ (∀ call, is_SceneRendererHandler call = true →
       call ∈ calls
       ↔ m_sceneRendererHandler c = true
         ∧ ∃ sceneId it,
             call = SceneRendererHandler_handleSceneBecameUnavailable
                      sceneId participant
             ∧ m_remoteScenes c !! sceneId = Some it
             ∧ provider it = participant)
  ∧ filter (λ call, is_CommunicationSystem call) calls = []
  ∧ m_remoteScenes
      (component (state_after (participantHasDisconnected participant) this'))
    = m_remoteScenes (component this')
  ∧ filter (λ call, is_SceneRendererHandler call)
      (trace_of (participantHasDisconnected participant) this') = [].
Proof.
  intros c this' calls.
  assert (Hremote : ∀ st sceneId,
    m_remoteScenes
      (component (state_after (participantHasDisconnected participant) st))
      !! sceneId
    = match m_remoteScenes (component st) !! sceneId with
      | Some it => if decide (provider it = participant) then None else Some it
      | None => None
      end).
  { intros st sceneId. unfold state_after.
    rewrite participantHasDisconnected_run. cbn [fst snd].
    match goal with
    | |- context [foldl ?f (foldl ?g st ?l1) ?l2] =>
        destruct (eraseProvider_fold participant l2 (foldl g st l1))
          as (_ & _ & Hr);
        destruct (removeSubscriber_fold participant l1 st
                    (NoDup_fst_map_to_list _)) as [Hc _]
    end.
    cbn zeta in Hr, Hc. rewrite Hr, Hc.
    destruct (m_remoteScenes (component st) !! sceneId) as [it|] eqn:Hit.
    - destruct (decide (provider it = participant)) as [Hp|Hp].
      + rewrite decide_True; [done|].
        apply Exists_exists. exists (sceneId, it). split; [|done].
        by apply elem_of_map_to_list.
      + rewrite decide_False; [done|].
        intros ([k it'] & Hin & <- & Hp')%Exists_exists.
        apply elem_of_map_to_list in Hin. simpl in *. congruence.
    - by case_decide. }
  assert (Hcalls : ∀ st call, is_SceneRendererHandler call = true →
    call ∈ trace_of (participantHasDisconnected participant) st
    ↔ m_sceneRendererHandler (component st) = true
      ∧ ∃ sceneId it,
          call = SceneRendererHandler_handleSceneBecameUnavailable
                   sceneId participant
          ∧ m_remoteScenes (component st) !! sceneId = Some it
          ∧ provider it = participant).
  { intros st call Hcall. unfold trace_of.
    rewrite participantHasDisconnected_run. cbn [snd].
    rewrite elem_of_cons, list_elem_of_bind. split.
    - intros [->|([k it] & Hin & Hk)]; [done|].
      apply elem_of_map_to_list in Hk. simpl in Hin.
      case_decide; [|by apply elem_of_nil in Hin].
      destruct (m_sceneRendererHandler (component st));
        [|by apply elem_of_nil in Hin].
      apply list_elem_of_singleton in Hin as ->. naive_solver.
    - intros (Hhandler & sceneId & it & -> & Hit & Hp). right.
      exists (sceneId, it). split; [|by apply elem_of_map_to_list].
      simpl. rewrite decide_True, Hhandler by done.
      by apply list_elem_of_singleton. }
  assert (Hnone : ∀ st,
    (∀ sceneId it, m_remoteScenes (component st) !! sceneId = Some it →
                   provider it ≠ participant) →
    filter (λ call, is_SceneRendererHandler call)
      (trace_of (participantHasDisconnected participant) st) = []).
  { intros st Hst. apply elem_of_nil_inv. intros call Hin.
    apply list_elem_of_filter in Hin as [Hcall Hin].
    apply Is_true_true in Hcall.
    apply (Hcalls st call Hcall) in Hin as (_ & sceneId & it & _ & Hit & Hp).
    by apply (Hst sceneId it). }
  assert (Hgone : ∀ sceneId it,
    m_remoteScenes (component this') !! sceneId = Some it →
    provider it ≠ participant).
  { intros sceneId it. subst this'. rewrite Hremote.
    destruct (m_remoteScenes (component this) !! sceneId) as [it'|]; [|done].
    case_decide; [done|]. by intros [= ->]. }
  split_and!.
  - intros sceneId. apply Hremote.
  - subst this'. unfold state_after.
    rewrite participantHasDisconnected_run. cbn [fst snd].
    match goal with
    | |- context [foldl ?f (foldl ?g this ?l1) ?l2] =>
        destruct (eraseProvider_fold participant l2 (foldl g this l1))
          as (_ & Hsame & _);
        destruct (removeSubscriber_fold participant l1 this
                    (NoDup_fst_map_to_list _)) as [Hc _]
    end.
    cbn zeta in Hsame, Hc. by rewrite Hc in Hsame.
  - intros sceneId. subst this'. unfold state_after.
    rewrite participantHasDisconnected_run. cbn [fst snd].
    match goal with
    | |- context [foldl ?f (foldl ?g this ?l1) ?l2] =>
        destruct (eraseProvider_fold participant l2 (foldl g this l1))
          as (Hl & _ & _);
        destruct (removeSubscriber_fold participant l1 this
                    (NoDup_fst_map_to_list _)) as [_ Hs]
    end.
    cbn zeta in Hl, Hs. rewrite Hl, Hs.
    destruct (decide (is_Some (m_locallyPublishedScenes c !! sceneId)))
      as [[info Hinfo]|Hnone'].
    + rewrite decide_True; [done|].
      apply list_elem_of_fmap. exists (sceneId, info).
      split; [done|]. by apply elem_of_map_to_list.
    + rewrite decide_False; [done|].
      intros ([k info] & -> & Hin)%list_elem_of_fmap.
      apply elem_of_map_to_list in Hin. apply Hnone'. by eexists.
  - intros call Hcall. apply Hcalls. done.
  - subst calls. unfold trace_of.
    rewrite participantHasDisconnected_run. cbn [snd].
    apply elem_of_nil_inv. intros call Hin.
    apply list_elem_of_filter in Hin as [Hcall Hin].
    apply elem_of_cons in Hin as [->|Hin]; [done|].
    apply list_elem_of_bind in Hin as (it & Hin & _).
    case_decide; [|by apply elem_of_nil in Hin].
    destruct (m_sceneRendererHandler (component this));
      [|by apply elem_of_nil in Hin].
    by apply list_elem_of_singleton in Hin as ->.
  - apply map_eq. intros sceneId. rewrite Hremote.
    destruct (m_remoteScenes (component this') !! sceneId) as [it|] eqn:Hit;
      [|done].
    rewrite decide_False; [done|]. by apply (Hgone sceneId).
  - by apply Hnone.
Qed.

(** The inner loop of [disconnectFromNetwork] changes the scene logic of
    the scene it runs for, and nothing else. *)
Lemma removeSubscribers_fold (myID : Guid) (sceneId : SceneId)
    (subscribers : list Guid) this :
  let this' :=
    foldl (λ st sub,
             if bool_decide (sub ≠ myID)
             then onSceneLogic sceneId (removeSubscriber sub) st else st)
      this subscribers in
  component this' = component this
  ∧ ∀ j, m_clientSceneLogicMap this' !! j
         = if decide (sceneId = j)
           then (λ obj,
                   foldl (λ obj sub,
                            if bool_decide (sub ≠ myID)
                            then removeSubscriber sub obj else obj)
                     obj subscribers)
                <$> m_clientSceneLogicMap this !! sceneId
           else m_clientSceneLogicMap this !! j.
Proof.
  revert this. induction subscribers as [|sub subscribers IH]; intros this.
  { split; [done|]. intros j. cbn [foldl].
    case_decide; [subst|done]. by destruct (m_clientSceneLogicMap this !! j). }
  cbn [foldl]. cbn zeta.
  set (this1 := if bool_decide (sub ≠ myID)
                then onSceneLogic sceneId (removeSubscriber sub) this else this).
  destruct (IH this1) as [Hc Hl]. cbn zeta in Hc, Hl.
  assert (H1 : component this1 = component this
               ∧ m_clientSceneLogicMap this1 !! sceneId
                 = (λ obj, if bool_decide (sub ≠ myID)
                           then removeSubscriber sub obj else obj)
                   <$> m_clientSceneLogicMap this !! sceneId
               ∧ ∀ j, sceneId ≠ j →
                   m_clientSceneLogicMap this1 !! j
                   = m_clientSceneLogicMap this !! j).
  { subst this1. case_bool_decide; simpl.
    - split_and!; [done|by rewrite lookup_alter_eq|].
      intros j Hj. by rewrite lookup_alter_ne.
    - split_and!; [done| |done].
      by destruct (m_clientSceneLogicMap this !! sceneId). }
  destruct H1 as (Hc1 & Hs1 & Ho1).
  split; [by rewrite Hc|].
  intros j. rewrite Hl. destruct (decide (sceneId = j)); [|by apply Ho1].
  rewrite Hs1. by destruct (m_clientSceneLogicMap this !! sceneId).
Qed.

Lemma disconnectFromNetwork_run this :
  disconnectFromNetwork this
  = (tt,
     onComponent (set_connected false)
       (foldl (λ st (p : SceneId * ClientSceneLogic),
                 match m_clientSceneLogicMap st !! p.1 with
                 | Some obj =>
                     foldl (λ st sub,
                              if bool_decide (sub ≠ m_myID (component this))
                              then onSceneLogic p.1 (removeSubscriber sub) st
                              else st)
                       st (getWaitingAndActiveSubscribers obj)
                 | None => st
                 end)
          this (map_to_list (m_clientSceneLogicMap this))),
     LOG Log_disconnectFromNetwork
     :: (if bool_decide (remotelyPublished (component this) ≠ [])
         then [CommunicationSystem_broadcastScenesBecameUnavailable
                 (remotelyPublished (component this))]
         else [])
     ++ [LOG Log_disconnectFromNetwork_done]).
Proof.
  assert (Hnil : ∀ {A} (l : list A), l ≫= (λ _, @nil Call) = []).
  { intros A l. induction l as [|x l IH]; [done|]. by rewrite bind_cons, IH. }
  unfold disconnectFromNetwork, mbind at 1, getState.
  unfold mbind at 1, emit at 1. unfold mbind at 1.
  rewrite (forEachWith_steps _ _
             (λ acc p,
                if decide (publicationMode p.2
                           ≠ EScenePublicationMode_LocalOnly)
                then acc ++ [p.2] else acc)
             (λ _, [])).
  2:{ intros acc p st. by case_decide. }
  rewrite foldl_collect_remote, Hnil. cbn [app].
  fold (remotelyPublished (component this)).
  unfold mbind at 1.
  assert (Hwhen : ∀ calls : Call,
    when (bool_decide (remotelyPublished (component this) ≠ []))
      (emit calls) this
    = (tt, this,
       if bool_decide (remotelyPublished (component this) ≠ [])
       then [calls] else [])).
  { intros calls. unfold when, emit, mret. by case_bool_decide. }
  rewrite Hwhen. unfold mbind at 1.
  rewrite (forEach_steps _ _
             (λ st (p : SceneId * ClientSceneLogic),
                match m_clientSceneLogicMap st !! p.1 with
                | Some obj =>
                    foldl (λ st sub,
                             if bool_decide (sub ≠ m_myID (component this))
                             then onSceneLogic p.1 (removeSubscriber sub) st
                             else st)
                      st (getWaitingAndActiveSubscribers obj)
                | None => st
                end)
             (λ _, [])).
  2:{ intros p st. unfold mbind, getState.
      destruct (m_clientSceneLogicMap st !! p.1) as [obj|]; [|done].
      rewrite (forEach_steps _ _
                 (λ st sub,
                    if bool_decide (sub ≠ m_myID (component this))
                    then onSceneLogic p.1 (removeSubscriber sub) st else st)
                 (λ _, [])).
      - by rewrite Hnil.
      - intros sub st'. unfold when, modifyState, mret.
        by destruct (bool_decide (sub ≠ _)). }
  rewrite Hnil. unfold mbind, modifyState, emit. cbn [app]. done.
Qed.

Lemma removeRemoteSubscribers_fold (myID : Guid)
    (l : list (SceneId * ClientSceneLogic)) this :
  NoDup l.*1 →
  let this' :=
    foldl (λ st (p : SceneId * ClientSceneLogic),
             match m_clientSceneLogicMap st !! p.1 with
             | Some obj =>
                 foldl (λ st sub,
                          if bool_decide (sub ≠ myID)
                          then onSceneLogic p.1 (removeSubscriber sub) st
                          else st)
                   st (getWaitingAndActiveSubscribers obj)
             | None => st
             end) this l in
  component this' = component this
  ∧ ∀ j, m_clientSceneLogicMap this' !! j
         = if decide (j ∈ l.*1)
           then removeRemoteSubscribers myID <$> m_clientSceneLogicMap this !! j
           else m_clientSceneLogicMap this !! j.
Proof.
  revert this. induction l as [|[k obj0] l IH]; intros this Hnodup.
  { split; [done|]. intros j. rewrite decide_False; [done|].
    apply not_elem_of_nil. }
  rewrite fmap_cons in Hnodup. apply NoDup_cons in Hnodup as [Hk Hnodup].
  cbn [foldl]. cbn zeta.
  set (this1 := match m_clientSceneLogicMap this !! (k, obj0).1 with
                | Some obj =>
                    foldl (λ st sub,
                             if bool_decide (sub ≠ myID)
                             then onSceneLogic (k, obj0).1
                                    (removeSubscriber sub) st
                             else st)
                      this (getWaitingAndActiveSubscribers obj)
                | None => this
                end).
  assert (H1 : component this1 = component this
               ∧ ∀ j, m_clientSceneLogicMap this1 !! j
                   = if decide (k = j)
                     then removeRemoteSubscribers myID
                            <$> m_clientSceneLogicMap this !! k
                     else m_clientSceneLogicMap this !! j).
  { subst this1. cbn [fst].
    destruct (m_clientSceneLogicMap this !! k) as [obj|] eqn:Hobj.
    - destruct (removeSubscribers_fold myID k
                  (getWaitingAndActiveSubscribers obj) this) as [Hc Hl].
      cbn zeta in Hc, Hl. split; [done|]. intros j. rewrite Hl, Hobj. done.
    - split; [done|]. intros j. case_decide; [by subst|done]. }
  destruct H1 as [Hc1 Hl1].
  destruct (IH this1 Hnodup) as [Hc Hl]. cbn zeta in Hc, Hl.
  split; [by rewrite Hc|].
  intros j. rewrite Hl, !Hl1, fmap_cons. cbn [fst].
  destruct (decide (k = j)) as [<-|Hne].
  - rewrite (decide_False (P := k ∈ l.*1)) by done.
    rewrite decide_True by (by left). done.
  - destruct (decide (j ∈ l.*1)) as [Hin|Hnin].
    + rewrite decide_True by (by right). done.
    + rewrite decide_False; [done|].
      intros Hin. apply elem_of_cons in Hin as [?|?]; by subst.
Qed.

(** Disconnecting from the network: the scenes published in a mode other
    than [LocalOnly] are announced unavailable in one broadcast (none
    when there is no such scene), every scene logic loses all its
    subscribers but the component itself, and [m_connected] is cleared.
    The scenes stay published and the renderer handler is not called.
    Afterwards publishing a scene, in whatever mode, reaches the network
    no more. *)
Theorem disconnectFromNetwork_withdraws_from_network this :
  let c := component this in
  let this' := state_after disconnectFromNetwork this in
  let calls := trace_of disconnectFromNetwork this in
  component this' = set_connected false c
  ∧ m_clientSceneLogicMap this'
    = removeRemoteSubscribers (m_myID c) <$> m_clientSceneLogicMap this
  ∧ filter (λ call, is_CommunicationSystem call) calls
    = (if bool_decide (remotelyPublished c ≠ [])
       then [CommunicationSystem_broadcastScenesBecameUnavailable
               (remotelyPublished c)]
       else [])
  ∧ filter (λ call, is_SceneRendererHandler call) calls = []
  ∧ ∀ sceneInfo,
      filter (λ call, is_CommunicationSystem call)
        (trace_of (sendPublishScene sceneInfo) this') = [].
Proof.
  intros c this' calls. subst c this' calls.
  unfold state_after, trace_of. rewrite disconnectFromNetwork_run.
  cbn [fst snd].
  match goal with
  | |- context [onComponent _ (foldl ?f this ?l)] =>
      destruct (removeRemoteSubscribers_fold (m_myID (component this)) l this
                  (NoDup_fst_map_to_list _)) as [Hc Hl];
      set (this1 := foldl f this l) in *
  end.
  cbn zeta in Hc, Hl.
  split_and!.
  - simpl. by rewrite Hc.
  - apply map_eq. intros j. simpl. rewrite Hl, lookup_fmap.
    case_decide as Hj; [done|].
    destruct (m_clientSceneLogicMap this !! j) as [obj|] eqn:Hobj; [|done].
    destruct Hj. apply list_elem_of_fmap. exists (j, obj).
    split; [done|]. by apply elem_of_map_to_list.
  - by case_bool_decide.
  - by case_bool_decide.
  - intros sceneInfo. rewrite sendPublishScene_run. cbn [snd].
    simpl. rewrite andb_false_r.
    by destruct (m_sceneRendererHandler (component this1)).
Qed.

(** Creating a scene at the local renderer after it was published: the
    renderer handler is initialized with the [SceneInfo] that was
    published, whatever else the [SceneInfo] passed along says, no error
    is logged, nothing goes to the network and no member changes. *)
Theorem sendCreateScene_uses_published_info this sceneInfo (passed : SceneInfo) :
  sceneID passed = sceneID sceneInfo →
  m_sceneRendererHandler (component this) = true →
  let published := state_after (sendPublishScene sceneInfo) this in
  sendCreateScene (m_myID (component this)) passed published
  = Some (tt, published,
          [LOG (Log_sendCreateScene (sceneID sceneInfo)
                  (m_myID (component this)));
           SceneRendererHandler_handleInitializeScene sceneInfo
             (m_myID (component this))]).
Proof.
  intros Hid Hhandler published. subst published.
  unfold state_after. rewrite sendPublishScene_run. cbn [fst snd].
  unfold sendCreateScene. simpl. rewrite Hid, lookup_insert_eq, Hhandler.
  rewrite decide_True by done.
  unfold mbind, emit, when, mret. rewrite bool_decide_false by done.
  reflexivity.
Qed.

End publishing_props.

Lemma sendPublishScene_sendUnpublishScene_roundtrip_witness :
  m_locallyPublishedScenes
    (Publishing.component
       (state_after (Publishing.sendPublishScene exampleScene) exampleProvider))
    !! mkSceneId 7
  = Some exampleScene.
Proof.
  exact (proj1 (sendPublishScene_sendUnpublishScene_roundtrip exampleProvider
                  exampleScene eq_refl)).
Defined.

Lemma published_scene_is_sent_to_new_participant_witness :
  ∃ availableScenes,
    Publishing.CommunicationSystem_sendScenesAvailable 4%N availableScenes 1%N
    ∈ trace_of (Publishing.newParticipantHasConnected 4%N)
        (state_after (Publishing.sendPublishScene exampleScene) exampleProvider)
    ∧ exampleScene ∈ availableScenes.
Proof.
  apply (published_scene_is_sent_to_new_participant exampleProvider
           exampleScene 4%N).
  discriminate.
Defined.

Lemma sendCreateScene_uses_published_info_witness :
  Publishing.sendCreateScene 1%N
    (mkSceneInfo (mkSceneId 7) "other name" EScenePublicationMode_LocalOnly)
    (state_after (Publishing.sendPublishScene exampleScene) exampleProvider)
  = Some (tt,
          state_after (Publishing.sendPublishScene exampleScene) exampleProvider,
          [Publishing.LOG (Publishing.Log_sendCreateScene (mkSceneId 7) 1%N);
           Publishing.SceneRendererHandler_handleInitializeScene exampleScene
             1%N]).
Proof.
  apply (sendCreateScene_uses_published_info exampleProvider exampleScene
           (mkSceneInfo (mkSceneId 7) "other name"
              EScenePublicationMode_LocalOnly)).
  - reflexivity.
  - reflexivity.
Defined.

(** The example provider, run: participant 2 disconnects, then the
    component leaves the network. *)
Example participantHasDisconnected_exampleProvider :
  let this' :=
    state_after (Publishing.participantHasDisconnected 2%N) exampleProvider in
  m_remoteScenes (Publishing.component this') = ∅
  ∧ Publishing.m_clientSceneLogicMap this'
    = {[ mkSceneId 3 := []; mkSceneId 5 := [1%N] ]}
  ∧ filter (λ call, Publishing.is_SceneRendererHandler call)
      (trace_of (Publishing.participantHasDisconnected 2%N) exampleProvider)
    = [Publishing.SceneRendererHandler_handleSceneBecameUnavailable
         (mkSceneId 7) 2%N].
Proof. vm_compute. done. Qed.

Example disconnectFromNetwork_exampleProvider :
  filter (λ call, Publishing.is_CommunicationSystem call)
    (trace_of Publishing.disconnectFromNetwork exampleProvider)
  = [Publishing.CommunicationSystem_broadcastScenesBecameUnavailable
       [sharedScene]]
  ∧ Publishing.m_clientSceneLogicMap
      (state_after Publishing.disconnectFromNetwork exampleProvider)
    = {[ mkSceneId 3 := []; mkSceneId 5 := [1%N] ]}.
Proof. vm_compute. done. Qed.

(* --------------------------------------------------------------------- *)
(** ** Forcing the resources of a file to load                            *)
(* --------------------------------------------------------------------- *)

Section forcedLoading_props.
Context `{fileBackend : ForcedLoading.FileBackend}.
Import ResourceComponent ForcedLoading.
Implicit Types (this : Members) (id : ResourceContentHash).

Lemma state_mapEvents {S E E' A} (f : E → E') (m : M S E A) st :
  state_after (mapEvents f m) st = state_after m st.
Proof. unfold state_after, mapEvents. by destruct (m st) as [[a st'] t]. Qed.

Lemma result_mapEvents {S E E' A} (f : E → E') (m : M S E A) st :
  result_of (mapEvents f m) st = result_of m st.
Proof. unfold result_of, mapEvents. by destruct (m st) as [[a st'] t]. Qed.

(** The counters and the feature level across the steps of one entry. *)
Lemma release_counters (mr : option ManagedResource) this :
  m_statistics (state_after (release mr) this) = m_statistics this
  ∧ m_featureLevel (state_after (release mr) this) = m_featureLevel this.
Proof. by destruct mr. Qed.

Lemma getResource_counters id this :
  m_statistics (state_after (getResource id) this) = m_statistics this
  ∧ m_featureLevel (state_after (getResource id) this) = m_featureLevel this.
Proof.
  unfold state_after, getResource, mbind, getState, modifyState, mret.
  by destruct (storage_getResource _ _) as [storage mr].
Qed.

Lemma loadResource_counters id this :
  let this' := state_after (loadResource id) this in
  m_featureLevel this' = m_featureLevel this
  ∧ (statResourcesLoadedFromFileNumber (m_statistics this)
     ≤ statResourcesLoadedFromFileNumber (m_statistics this'))%N
  ∧ (statResourcesLoadedFromFileNumber (m_statistics this')
     ≤ statResourcesLoadedFromFileNumber (m_statistics this) + 1)%N
  ∧ (statResourcesLoadedFromFileSize (m_statistics this)
     ≤ statResourcesLoadedFromFileSize (m_statistics this'))%N.
Proof.
  intros this'. subst this'. unfold state_after. rewrite loadResource_run.
  destruct (files_getEntry _ _) as [[[resourceStream entry] fileHandle]|];
    simpl; [|lia].
  destruct (RetrieveResourceFromStream _ _ _ _) as [files [r| |what]]; simpl;
    try lia.
  destruct (storage_manageResource _ _ _) as [storage' mr]. simpl. lia.
Qed.

(** One entry of the file: what is left of the members apart from the
    storage and the file registry. *)
Lemma loadResourceFromFile_entry_counters id this :
  let this' := state_after (loadResourceFromFile_entry id) this in
  m_featureLevel this' = m_featureLevel this
  ∧ (statResourcesLoadedFromFileNumber (m_statistics this)
     ≤ statResourcesLoadedFromFileNumber (m_statistics this'))%N
  ∧ (statResourcesLoadedFromFileNumber (m_statistics this')
     ≤ statResourcesLoadedFromFileNumber (m_statistics this) + 1)%N
  ∧ (statResourcesLoadedFromFileSize (m_statistics this)
     ≤ statResourcesLoadedFromFileSize (m_statistics this'))%N.
Proof.
  intros this'. subst this'. unfold loadResourceFromFile_entry.
  rewrite state_mbind.
  change (state_after getState this) with this.
  change (result_of getState this) with this. cbn beta.
  destruct (storage_isFileResourceInUseAnywhereElse _ _);
    [|unfold state_after; simpl; lia].
  rewrite !state_mbind, ?result_mbind, !state_mapEvents, !result_mapEvents.
  set (known := result_of (getResource id) this).
  set (this1 := state_after (getResource id) this).
  set (this2 := state_after (release known) this1).
  set (load := match known with
               | Some _ => mret None
               | None => mapEvents FromLoadResource (loadResource id)
               end).
  set (this3 := state_after load this2).
  set (this4 := state_after (modifyState _) this3).
  destruct (release_counters (result_of load this2) this4) as [-> ->].
  assert (m_statistics this4 = m_statistics this3
          ∧ m_featureLevel this4 = m_featureLevel this3) as [-> ->] by done.
  destruct (getResource_counters id this) as [Hs1 Hf1]. fold this1 in Hs1, Hf1.
  destruct (release_counters known this1) as [Hs2 Hf2]. fold this2 in Hs2, Hf2.
  rewrite <- Hs1, <- Hf1, <- Hs2, <- Hf2.
  subst this3 load. destruct known as [mr|].
  - unfold state_after. simpl. lia.
  - rewrite state_mapEvents. apply loadResource_counters.
Qed.

(** Forcing a file to load reads each of its entries at most once: the
    counter of resources loaded from file rises by at most the number of
    entries of the file (not at all for a handle that is not registered),
    neither counter goes down, and the feature level stays. *)
Theorem loadResourceFromFile_counts_at_most_the_file
    (handle : SceneFileHandle) this :
  let this' := state_after (loadResourceFromFile handle) this in
  let entries :=
    default [] (files_getContentsOfResourceFile (m_resourceFiles this) handle) in
  m_featureLevel this' = m_featureLevel this
  ∧ (statResourcesLoadedFromFileNumber (m_statistics this)
     ≤ statResourcesLoadedFromFileNumber (m_statistics this'))%N
  ∧ (statResourcesLoadedFromFileNumber (m_statistics this')
     ≤ statResourcesLoadedFromFileNumber (m_statistics this)
       + N.of_nat (length entries))%N
  ∧ (statResourcesLoadedFromFileSize (m_statistics this)
     ≤ statResourcesLoadedFromFileSize (m_statistics this'))%N.
Proof.
  intros this' entries. subst this' entries.
  unfold loadResourceFromFile. rewrite state_mbind.
  change (state_after getState this) with this.
  change (result_of getState this) with this. cbn beta.
  destruct (files_getContentsOfResourceFile _ _) as [content|];
    [|unfold state_after; simpl; lia].
  change (default [] (Some content)) with content. clear handle. revert this.
  induction content as [|id content IH]; intros this.
  - unfold state_after. simpl. lia.
  - rewrite state_forEach_cons.
    destruct (loadResourceFromFile_entry_counters id this)
      as (Hf & Hn1 & Hn2 & Hs). cbv zeta in Hf, Hn1, Hn2, Hs.
    specialize (IH (state_after (loadResourceFromFile_entry id) this)).
    destruct IH as (Hf' & Hn1' & Hn2' & Hs').
    cbn [length]. split_and!; [congruence|lia..].
Qed.

(** A handle that is not registered gets a warning and nothing else; and
    a file none of whose resources is in use anywhere else is not read
    at all: in both cases the members are left exactly as they were. *)
Theorem loadResourceFromFile_loads_only_resources_in_use
    (handle : SceneFileHandle) this :
  (∀ content id,
     files_getContentsOfResourceFile (m_resourceFiles this) handle = Some content →
     id ∈ content →
     storage_isFileResourceInUseAnywhereElse (m_resourceStorage this) id = false) →
  loadResourceFromFile handle this
  = (tt, this,
     match files_getContentsOfResourceFile (m_resourceFiles this) handle with
     | Some _ => []
     | None => [Log_loadResourceFromFile_unknownHandle handle]
     end).
Proof.
  intros Hunused. unfold loadResourceFromFile, mbind at 1, getState.
  destruct (files_getContentsOfResourceFile _ _) as [content|]; [|done].
  specialize (Hunused content).
  assert (Hloop : forEach content loadResourceFromFile_entry this = (tt, this, [])).
  { induction content as [|id content IH]; [done|].
    cbn [forEach]. unfold mbind at 1.
    assert (Hentry : loadResourceFromFile_entry id this = (tt, this, [])).
    { unfold loadResourceFromFile_entry, mbind at 1, getState.
      rewrite (Hunused id eq_refl) by (by left). done. }
    rewrite Hentry, IH; [done|].
    intros id' _ Hin. apply Hunused; [done|by right]. }
  by rewrite Hloop.
Qed.

End forcedLoading_props.

Lemma loadResourceFromFile_loads_only_resources_in_use_witness :
  ForcedLoading.loadResourceFromFile 0%N exampleResources
  = (tt, exampleResources, []).
Proof.
  assert (Hunused : ∀ content id,
    ForcedLoading.files_getContentsOfResourceFile
      (ResourceComponent.m_resourceFiles exampleResources) 0%N = Some content →
    id ∈ content →
    ForcedLoading.storage_isFileResourceInUseAnywhereElse
      (ResourceComponent.m_resourceStorage exampleResources) id = false).
  { intros content id [= <-] Hin.
    apply elem_of_cons in Hin as [->|Hin]; [reflexivity|].
    apply list_elem_of_singleton in Hin as ->. reflexivity. }
  exact (loadResourceFromFile_loads_only_resources_in_use 0%N exampleResources
           Hunused).
Defined.
